(** * coc-pyright: linter output pipeline and refactor worker session

    A shallow embedding of [src/features/linters/baseLinter.ts] and
    [src/features/refactor.ts].

    JavaScript strings are modelled as [string] (sequences of 8-bit code
    units), the numbers that the code reads from digits as the doubles
    that hold an integer, with [NaN] and the infinities, a value that may
    be [undefined] as an [option], and a call that may throw as a
    [Completion].  Promises are cells of a per-session store that are
    settled at most once. *)

From Stdlib Require Import String Ascii List ZArith Bool Lia.
From Stdlib Require Decimal DecimalString DecimalNat DecimalFacts.
Import ListNotations.

Open Scope string_scope.
Open Scope Z_scope.

(** ** Completions: a JavaScript call returns normally or throws *)

Inductive Thrown : Type :=
| ThrownError (message : string)    (* an [Error] instance *)
| ThrownString (s : string)         (* a thrown string *)
| ThrownOther (rendering : string). (* another value, and its [String(v)] *)

Inductive Completion (A : Type) : Type :=
| Normal (a : A)
| Throw (e : Thrown).
Arguments Normal {A} a.
Arguments Throw {A} e.

(** ** String helpers of the host language *)

Module JS.

Definition LF : ascii := "010"%char.
Definition CR : ascii := "013"%char.

Definition is_empty (s : string) : bool :=
  match s with "" => true | _ => false end.

(** A character in front of the first piece of a split. *)
Definition cons_head (c : ascii) (pieces : list string) : list string :=
  match pieces with
  | piece :: rest => String c piece :: rest
  | [] => [String c ""]
  end.

(** [str.split(/\r?\n/g)]: cut at every LF, and at every CR that is
    directly followed by LF; a CR that stands alone stays in its line.
    The result always has at least one element. *)
Fixpoint split_eol (s : string) : list string :=
  match s with
  | "" => [""]
  | String c rest =>
      if Ascii.eqb c LF then "" :: split_eol rest
      else
        match rest with
        | String c' rest' =>
            if (Ascii.eqb c CR && Ascii.eqb c' LF)%bool
            then "" :: split_eol rest'
            else cons_head c (split_eol rest)
        | "" => cons_head c (split_eol rest)
        end
  end.

(** [lines.filter((line) => line.length > 0)] *)
Definition non_empty (lines : list string) : list string :=
  filter (fun line => negb (is_empty line)) lines.

(** [str.startsWith(p)] *)
Definition startsWith (p s : string) : bool := prefix p s.

(** [arr.pop()] read as a value: the last element, [undefined] if none. *)
Fixpoint pop {A : Type} (l : list A) : option A :=
  match l with
  | [] => None
  | [x] => Some x
  | _ :: rest => pop rest
  end.

(** [haystack.indexOf(needle)]: index of the first occurrence. *)
Definition indexOf (needle haystack : string) : option nat :=
  index 0 needle haystack.

(** Numbers as the linter reads them.  A number of the host language is
    a double; the ones that a run of digits and a subtraction give are
    [NaN], the infinities and the doubles that hold an integer, [Int z]
    being the double whose value is [z] ([0] and [-0] are one number
    here). *)
Inductive number : Type :=
| NaN
| Int (z : Z)
| Infinity (negative : bool).

(** The multiple of [2^e] that is nearest to [a]; of two that are
    equally near, the one with the even factor. *)
Definition nearest (a e : Z) : Z :=
  let q := a / 2 ^ e in
  let r := a mod 2 ^ e in
  let up :=
    if 2 * r <? 2 ^ e then false
    else if 2 ^ e <? 2 * r then true
    else Z.odd q in
  (if up then q + 1 else q) * 2 ^ e.

(** The double that is nearest to the integer [z]: [z] itself up to
    [2^53]; beyond that the 53 leading bits are kept, rounded to
    nearest, ties to even; what rounds to [2^1024] or more is an
    infinity. *)
Definition double (z : Z) : number :=
  let a := Z.abs z in
  if a <=? 2 ^ 53 then Int z
  else
    let m := nearest a (Z.log2 a - 52) in
    if 2 ^ 1024 <=? m then Infinity (z <? 0) else Int (Z.sgn z * m).

Definition is_digit (c : ascii) : bool :=
  let n := nat_of_ascii c in (Nat.leb 48 n && Nat.leb n 57)%bool.

Definition is_word (c : ascii) : bool :=
  let n := nat_of_ascii c in
  (is_digit c
   || (Nat.leb 65 n && Nat.leb n 90)
   || (Nat.leb 97 n && Nat.leb n 122)
   || Nat.eqb n 95)%bool.

(** Value of a run of decimal digits, [None] when a character is not a
    digit. *)
Fixpoint digits_value (acc : Z) (s : string) : option Z :=
  match s with
  | "" => Some acc
  | String c rest =>
      if is_digit c
      then digits_value (10 * acc + (Z.of_nat (nat_of_ascii c) - 48)) rest
      else None
  end.

(** The value of a text that has digits only and at least one. *)
Definition unsigned (s : string) : number :=
  match s with
  | "" => NaN
  | _ =>
      match digits_value 0 s with
      | Some v => double v
      | None => NaN
      end
  end.

Definition negate (x : number) : number :=
  match x with
  | NaN => NaN
  | Int z => Int (- z)
  | Infinity negative => Infinity (negb negative)
  end.

(** [Number(x)] for the texts a capture group of digits can hold:
    [undefined] and any text that is not a signed run of digits give
    [NaN]; the empty string gives 0; a run of digits gives the double
    nearest to the integer it writes.  Fractions, exponents, hexadecimal
    literals and surrounding blanks are outside this model (it answers
    [NaN] for them). *)
Definition Number (x : option string) : number :=
  match x with
  | None => NaN
  | Some "" => Int 0
  | Some (String c rest as s) =>
      if Ascii.eqb c "-" then negate (unsigned rest)
      else if Ascii.eqb c "+" then unsigned rest
      else unsigned s
  end.

(** [isNaN(x) || x <= 0] *)
Definition nan_or_nonpositive (x : number) : bool :=
  match x with
  | NaN => true
  | Int z => z <=? 0
  | Infinity negative => negative
  end.

(** [x - k], where [k] is the integer that the double on the right
    holds: the difference is rounded to the nearest double; [NaN - k] is
    [NaN], and an infinity stays what it is. *)
Definition minus (x : number) (k : Z) : number :=
  match x with
  | NaN => NaN
  | Int z => double (z - k)
  | Infinity negative => Infinity negative
  end.

End JS.

(** ** [src/common.ts] *)

Module Common.
Import JS.

(** Modelled from the spec: [splitLines] of [src/common.ts], which is not
    part of the sources at hand, as both files call it, with trimming off
    and empty entries kept: it splits a text into its lines, a line being
    terminated by LF with an optional CR before it. *)
Definition splitLines (str : string) : list string := split_eol str.

End Common.

(** ** Regular expressions with named groups

    The fragment of the regular-expression language that the default
    linter pattern is written in, with the backtracking semantics of the
    host engine: alternatives are tried in order, quantifiers are greedy
    and give characters back one at a time, and [exec] returns the match
    that starts leftmost. *)

Module Re.

Inductive re : Type :=
| Class (p : ascii -> bool)        (* one character of a class *)
| Many (p : ascii -> bool)         (* [c*] on a class, greedy *)
| Many1 (p : ascii -> bool)        (* [c+] on a class, greedy *)
| Opt (p : ascii -> bool)          (* [c?] on a class, greedy *)
| Seq (r1 r2 : re)
| Alt (r1 r2 : re)
| Group (name : string) (r : re)   (* [(?<name>r)] *)
| Eos.                             (* [$] without the [m] flag *)

(** Captured groups, most recent first. *)
Definition captures := list (string * string).

Fixpoint many (p : ascii -> bool) (s : string)
         (k : string -> option captures) : option captures :=
  match s with
  | String c rest =>
      if p c
      then match many p rest k with
           | Some r => Some r
           | None => k s
           end
      else k s
  | "" => k s
  end.

(** [run r s caps k]: match [r] at the head of [s], then continue with
    [k] on what is left; [None] when every way of matching fails. *)
Fixpoint run (r : re) (s : string) (caps : captures)
         (k : string -> captures -> option captures) : option captures :=
  match r with
  | Class p =>
      match s with
      | String c rest => if p c then k rest caps else None
      | "" => None
      end
  | Many p => many p s (fun rest => k rest caps)
  | Many1 p =>
      match s with
      | String c rest =>
          if p c then many p rest (fun rest' => k rest' caps) else None
      | "" => None
      end
  | Opt p =>
      match s with
      | String c rest =>
          if p c
          then match k rest caps with
               | Some r => Some r
               | None => k s caps
               end
          else k s caps
      | "" => k s caps
      end
  | Seq r1 r2 => run r1 s caps (fun rest caps' => run r2 rest caps' k)
  | Alt r1 r2 =>
      match run r1 s caps k with
      | Some r => Some r
      | None => run r2 s caps k
      end
  | Group name r1 =>
      run r1 s caps
          (fun rest caps' =>
             k rest
               ((name, substring 0 (String.length s - String.length rest) s)
                  :: caps'))
  | Eos =>
      match s with
      | "" => k s caps
      | _ => None
      end
  end.

(** [regexp.exec(data)] with [lastIndex = 0]: the first start position,
    from the left, at which the pattern matches. *)
Fixpoint exec (r : re) (data : string) : option captures :=
  match run r data [] (fun _ caps => Some caps) with
  | Some caps => Some caps
  | None =>
      match data with
      | String _ rest => exec r rest
      | "" => None
      end
  end.

(** The value of a named group in the result of a match. *)
Fixpoint group (name : string) (caps : captures) : option string :=
  match caps with
  | [] => None
  | (n, v) :: rest => if String.eqb n name then Some v else group name rest
  end.

Definition chr (c : ascii) : re := Class (Ascii.eqb c).

Fixpoint all (p : ascii -> bool) (s : string) : bool :=
  match s with
  | "" => true
  | String c rest => (p c && all p rest)%bool
  end.

(** A text at whose head a run of the class [p] cannot go on. *)
Definition stops (p : ascii -> bool) (s : string) : bool :=
  match s with
  | "" => true
  | String c _ => negb (p c)
  end.

(** The language of a pattern: [Matches r w rest caps caps'] says that
    [r] can match the text [w] when [rest] follows it, and that the
    groups [caps] become [caps'] on the way. *)
Fixpoint Matches (r : re) (w rest : string) (caps caps' : captures) : Prop :=
  match r with
  | Class p => (exists c, w = String c "" /\ p c = true) /\ caps' = caps
  | Many p => all p w = true /\ caps' = caps
  | Many1 p => (w <> "" /\ all p w = true) /\ caps' = caps
  | Opt p =>
      (w = "" \/ exists c, w = String c "" /\ p c = true) /\ caps' = caps
  | Seq r1 r2 =>
      exists w1 w2 caps1,
        w = w1 ++ w2
        /\ Matches r1 w1 (w2 ++ rest) caps caps1
        /\ Matches r2 w2 rest caps1 caps'
  | Alt r1 r2 => Matches r1 w rest caps caps' \/ Matches r2 w rest caps caps'
  | Group name r1 =>
      exists caps1, Matches r1 w rest caps caps1 /\ caps' = (name, w) :: caps1
  | Eos => (w = "" /\ rest = "") /\ caps' = caps
  end.

(** [.]: any character but a line terminator. *)
Definition dot (c : ascii) : bool :=
  negb (Ascii.eqb c JS.LF || Ascii.eqb c JS.CR).

End Re.

(** ** [src/features/linters/baseLinter.ts] *)

Module IRegexGroup.
(** The named groups of a match; a group that took no part in the match
    is [undefined]. *)
Record t : Type := mk {
  line : option string;
  column : option string;
  code : option string;
  message : option string;
  type : option string;
  file : option string;
}.
End IRegexGroup.

Module ILintMessage.
Record t : Type := mk {
  code : option string;
  message : option string;
  column : JS.number;
  line : JS.number;
  type : option string;
  provider : string;
  file : option string;
}.
End ILintMessage.

Module Linter.
Import JS Common Re.

(** The default pattern: group [line] is [\d+], then a comma, group
    [column] is [-?\d+], a comma, group [type] is [\w+], a comma, group
    [code] is [\w+\d+], a colon, group [message] is any run of
    characters of one line, then an optional CR, then LF or the end of
    the input. *)
Definition REGEX : re :=
  Seq (Group "line" (Many1 is_digit))
 (Seq (chr ",")
 (Seq (Group "column" (Seq (Opt (Ascii.eqb "-")) (Many1 is_digit)))
 (Seq (chr ",")
 (Seq (Group "type" (Many1 is_word))
 (Seq (chr ",")
 (Seq (Group "code" (Seq (Many1 is_word) (Many1 is_digit)))
 (Seq (chr ":")
 (Seq (Group "message" (Many dot))
 (Seq (Opt (Ascii.eqb CR))
      (Alt (chr LF) Eos)))))))))).

(** The [regex: string] argument: a text the engine compiles, or one it
    rejects with a [SyntaxError]. *)
Inductive Pattern : Type :=
| Compiled (r : re)
| Malformed (error : string).

Definition groups (caps : captures) : IRegexGroup.t :=
  {| IRegexGroup.line := group "line" caps;
     IRegexGroup.column := group "column" caps;
     IRegexGroup.code := group "code" caps;
     IRegexGroup.message := group "message" caps;
     IRegexGroup.type := group "type" caps;
     IRegexGroup.file := group "file" caps |}.

Definition matchNamedRegEx (data : string) (regex : Pattern)
  : Completion (option IRegexGroup.t) :=
  match regex with
  | Malformed error => Throw (ThrownError error)
  | Compiled r =>
      match exec r data with
      | Some rawMatch => Normal (Some (groups rawMatch))
      | None => Normal None
      end
  end.

Definition parseLine (line : string) (regex : Pattern) (linterID : string)
           (colOffset : Z) : Completion (option ILintMessage.t) :=
  match matchNamedRegEx line regex with
  | Throw e => Throw e
  | Normal None => Normal None
  | Normal (Some match_) =>
      let match_line := Number (IRegexGroup.line match_) in
      let match_column := Number (IRegexGroup.column match_) in
      Normal (Some
        {| ILintMessage.code := IRegexGroup.code match_;
           ILintMessage.message := IRegexGroup.message match_;
           ILintMessage.column :=
             if nan_or_nonpositive match_column
             then Int 0
             else minus match_column colOffset;
           ILintMessage.line := match_line;
           ILintMessage.type := IRegexGroup.type match_;
           ILintMessage.provider := linterID;
           ILintMessage.file := IRegexGroup.file match_ |})
  end.

(** The output channel: the texts appended to it, oldest first. *)
Definition OutputChannel := list string.

Definition append (ch : OutputChannel) (s : string) : OutputChannel :=
  (ch ++ [s])%list.
Definition appendLine (ch : OutputChannel) (s : string) : OutputChannel :=
  (ch ++ [(s ++ String LF "")%string])%list.

Definition hashes : string := "##########".

Record ExecutionInfo : Type := {
  execPath : string;
  args : list string;
}.

Record ILinterInfo : Type := {
  id : string;
  isEnabled : string -> bool;
  getExecutionInfo : list string -> string -> ExecutionInfo;
}.

Record BaseLinter : Type := {
  info : ILinterInfo;
  columnOffset : Z;
  maxNumberOfProblems : Z;   (* [pythonSettings.linting.maxNumberOfProblems] *)
}.

(** The [catch] clause of the loop of [parseMessages]. *)
Definition log_parse_failure (this : BaseLinter) (ch : OutputChannel)
           (line : string) (err : Thrown) : OutputChannel :=
  let ch1 :=
    appendLine ch
      (hashes ++ " Linter " ++ id (info this) ++ " failed to parse the line:") in
  let ch2 := appendLine ch1 line in
  match err with
  | ThrownString s => appendLine ch2 s
  | ThrownError m => appendLine ch2 m
  | ThrownOther _ => ch2
  end.

(** The [for] loop of [parseMessages], [messages] being the array built
    so far. *)
Fixpoint parseMessages_loop (this : BaseLinter) (regEx : Pattern)
         (outputLines : list string) (messages : list ILintMessage.t)
         (ch : OutputChannel) : list ILintMessage.t * OutputChannel :=
  match outputLines with
  | [] => (messages, ch)
  | line :: rest =>
      match parseLine line regEx (id (info this)) (columnOffset this) with
      | Normal (Some msg) =>
          let messages' := (messages ++ [msg])%list in
          if Z.of_nat (List.length messages') >=? maxNumberOfProblems this
          then (messages', ch)
          else parseMessages_loop this regEx rest messages' ch
      | Normal None => parseMessages_loop this regEx rest messages ch
      | Throw err =>
          parseMessages_loop this regEx rest messages
            (log_parse_failure this ch line err)
      end
  end.

Definition parseMessages (this : BaseLinter) (output : string)
           (regEx : Pattern) (ch : OutputChannel)
  : Completion (list ILintMessage.t) * OutputChannel :=
  let '(messages, ch') :=
    parseMessages_loop this regEx (splitLines output) [] ch in
  (Normal messages, ch').

(** The messages of the lines that parse, in the order of the lines. *)
Definition matching (this : BaseLinter) (regEx : Pattern)
           (outputLines : list string) : list ILintMessage.t :=
  flat_map
    (fun line =>
       match parseLine line regEx (id (info this)) (columnOffset this) with
       | Normal (Some msg) => [msg]
       | _ => []
       end)
    outputLines.

(** Following the spec: the line of a finding in the default format,
    [<line>,<column>,<type>,<code>:<message>], with the numbers in
    decimal. *)
Definition decimal (n : nat) : string :=
  DecimalString.NilEmpty.string_of_uint (Nat.to_uint n).

Definition signed_decimal (z : Z) : string :=
  if z <? 0 then "-" ++ decimal (Z.abs_nat z) else decimal (Z.to_nat z).

Definition format (line : nat) (column : Z) (type code message : string)
  : string :=
  decimal line ++ "," ++ signed_decimal column ++ "," ++ type ++ ","
    ++ code ++ ":" ++ message.

(** A linter of ours, with a limit for the number of problems. *)
Definition flake8 (limit : Z) : BaseLinter :=
  {| info := {| id := "flake8";
                isEnabled := fun _ => true;
                getExecutionInfo := fun args _ =>
                  {| execPath := "flake8"; args := args |} |};
     columnOffset := 1;
     maxNumberOfProblems := limit |}.

Section Run.

(** The process service: what [exec] resolves with (the captured
    standard output) or what it rejects with. *)
Variable exec : ExecutionInfo -> Completion string.
(** [JSON.stringify] on an execution info. *)
Variable stringify : ExecutionInfo -> string.

Definition run (this : BaseLinter) (args : list string)
           (document_uri : string) (regEx : Pattern) (ch : OutputChannel)
  : Completion (list ILintMessage.t) * OutputChannel :=
  if negb (isEnabled (info this) document_uri)
  then (Normal [], ch)
  else
    let executionInfo := getExecutionInfo (info this) args document_uri in
    let ch1 :=
      appendLine ch (hashes ++ " Run linter " ++ id (info this) ++ ":") in
    let ch2 := appendLine ch1 (stringify executionInfo) in
    let ch3 := appendLine ch2 "" in
    match exec executionInfo with
    | Normal stdout =>
        let ch4 :=
          append ch3
            (hashes ++ " Linting Output - " ++ id (info this) ++ hashes
               ++ String LF "") in
        let ch5 := append ch4 stdout in
        let ch6 := appendLine ch5 "" in
        match parseMessages this stdout regEx ch6 with
        | (Normal messages, ch7) => (Normal messages, ch7)
        | (Throw error, ch7) =>
            let ch8 :=
              appendLine ch7 ("Linting with " ++ id (info this) ++ " failed:") in
            (Normal [],
             match error with
             | ThrownError m => appendLine ch8 m
             | _ => ch8
             end)
        end
    | Throw error =>
        let ch4 :=
          appendLine ch3 ("Linting with " ++ id (info this) ++ " failed:") in
        (Normal [],
         match error with
         | ThrownError m => appendLine ch4 m
         | _ => ch4
         end)
    end.

End Run.

End Linter.

(** ** JSON values and [JSON.parse] *)

Module Json.
Import JS.

(** A number keeps its decimal reading [mantissa * 10 ^ exponent]; no
    code modelled here reads one. *)
#[local] Unset Elimination Schemes.
Inductive JSON : Type :=
| JNull
| JBool (b : bool)
| JNumber (mantissa exponent : Z)
| JString (s : string)
| JArray (items : list JSON)
| JObject (members : list (string * JSON)).
#[local] Set Elimination Schemes.

(** The property [key] of an object; of two members with one key the
    later one is the value of the property. *)
Fixpoint lookup (key : string) (members : list (string * JSON))
  : option JSON :=
  match members with
  | [] => None
  | (k, v) :: rest =>
      match lookup key rest with
      | Some later => Some later
      | None => if String.eqb k key then Some v else None
      end
  end.

Definition TypeError : Thrown := ThrownError "TypeError".

(** [v.key] for a key that no prototype defines: reading a property of
    [undefined] or [null] throws, a primitive or an array has none. *)
Definition get (v : option JSON) (key : string) : Completion (option JSON) :=
  match v with
  | None => Throw TypeError
  | Some JNull => Throw TypeError
  | Some (JObject members) => Normal (lookup key members)
  | Some _ => Normal None
  end.

(** [typeof v === 'string' && v.length > 0] *)
Definition nonempty_string (v : option JSON) : option string :=
  match v with
  | Some (JString s) => if is_empty s then None else Some s
  | _ => None
  end.

(** [typeof v === 'string' && v === s] *)
Definition is_string (s : string) (v : option JSON) : bool :=
  match v with
  | Some (JString t) => String.eqb t s
  | _ => false
  end.

(** *** A reader for JSON texts

    [parse] follows the JSON grammar on texts of 8-bit characters; a
    [\u] escape above [00FF] has no character in this model and is
    refused.  It stands for [JSON.parse] wherever a concrete text is
    evaluated; [None] is a thrown [SyntaxError]. *)

Definition quote : ascii := ascii_of_nat 34.
Definition backslash : ascii := ascii_of_nat 92.

(** A text written with apostrophes where the JSON text has quotes. *)
Fixpoint text (s : string) : string :=
  match s with
  | "" => ""
  | String c rest =>
      String (if Ascii.eqb c "'" then quote else c) (text rest)
  end.

Definition is_ws (c : ascii) : bool :=
  let n := nat_of_ascii c in
  (Nat.eqb n 32 || Nat.eqb n 9 || Nat.eqb n 10 || Nat.eqb n 13)%bool.

Fixpoint skip_ws (s : string) : string :=
  match s with
  | String c rest => if is_ws c then skip_ws rest else s
  | "" => ""
  end.

Definition hex_value (c : ascii) : option nat :=
  let n := nat_of_ascii c in
  if (Nat.leb 48 n && Nat.leb n 57)%bool then Some (n - 48)%nat
  else if (Nat.leb 65 n && Nat.leb n 70)%bool then Some (n - 55)%nat
  else if (Nat.leb 97 n && Nat.leb n 102)%bool then Some (n - 87)%nat
  else None.

Definition hex4 (a b c d : ascii) : option nat :=
  match hex_value a, hex_value b, hex_value c, hex_value d with
  | Some x, Some y, Some z, Some w =>
      Some (((x * 16 + y) * 16 + z) * 16 + w)%nat
  | _, _, _, _ => None
  end.

Definition unescape (e : ascii) : option ascii :=
  if Ascii.eqb e quote then Some quote
  else if Ascii.eqb e backslash then Some backslash
  else if Ascii.eqb e "/" then Some "/"%char
  else if Ascii.eqb e "b" then Some (ascii_of_nat 8)
  else if Ascii.eqb e "f" then Some (ascii_of_nat 12)
  else if Ascii.eqb e "n" then Some LF
  else if Ascii.eqb e "r" then Some CR
  else if Ascii.eqb e "t" then Some (ascii_of_nat 9)
  else None.

Definition cons_char (c : ascii) (r : option (string * string))
  : option (string * string) :=
  match r with
  | Some (body, rest) => Some (String c body, rest)
  | None => None
  end.

(** The characters of a string after its opening quote: the string and
    what follows its closing quote. *)
Fixpoint parse_chars (s : string) : option (string * string) :=
  match s with
  | "" => None
  | String c rest =>
      if Ascii.eqb c quote then Some ("", rest)
      else if Ascii.eqb c backslash then
        match rest with
        | "" => None
        | String e rest1 =>
            if Ascii.eqb e "u" then
              match rest1 with
              | String h1 (String h2 (String h3 (String h4 rest2))) =>
                  match hex4 h1 h2 h3 h4 with
                  | Some n =>
                      if Nat.ltb n 256
                      then cons_char (ascii_of_nat n) (parse_chars rest2)
                      else None
                  | None => None
                  end
              | _ => None
              end
            else
              match unescape e with
              | Some ch => cons_char ch (parse_chars rest1)
              | None => None
              end
        end
      else if Nat.ltb (nat_of_ascii c) 32 then None
      else cons_char c (parse_chars rest)
  end.

(** The longest run of digits at the head of a text, and the rest. *)
Fixpoint digits (s : string) : string * string :=
  match s with
  | String c rest =>
      if is_digit c
      then let '(ds, r) := digits rest in (String c ds, r)
      else ("", s)
  | "" => ("", "")
  end.

Definition digits1 (s : string) : option (string * string) :=
  match digits s with
  | ("", _) => None
  | (ds, r) => Some (ds, r)
  end.

Definition value_of (ds : string) : Z :=
  match digits_value 0 ds with
  | Some v => v
  | None => 0
  end.

(** [-? int frac? exp?] where [int] has no leading zero. *)
Definition parse_number (s : string) : option (JSON * string) :=
  let '(negative, s1) :=
    match s with
    | String "-" r => (true, r)
    | _ => (false, s)
    end in
  match digits1 s1 with
  | None => None
  | Some (int, s2) =>
      match int with
      | String "0" (String _ _) => None
      | _ =>
          let '(frac, s3) :=
            match s2 with
            | String "." r =>
                match digits1 r with
                | Some (f, r') => (Some f, r')
                | None => (None, s2)
                end
            | _ => (Some "", s2)
            end in
          match frac with
          | None => None
          | Some f =>
              let '(exp, s4) :=
                match s3 with
                | String e r =>
                    if (Ascii.eqb e "e" || Ascii.eqb e "E")%bool then
                      match r with
                      | String "-" r' =>
                          match digits1 r' with
                          | Some (x, r'') => (Some (- value_of x), r'')
                          | None => (None, s3)
                          end
                      | String "+" r' =>
                          match digits1 r' with
                          | Some (x, r'') => (Some (value_of x), r'')
                          | None => (None, s3)
                          end
                      | _ =>
                          match digits1 r with
                          | Some (x, r'') => (Some (value_of x), r'')
                          | None => (None, s3)
                          end
                      end
                    else (Some 0, s3)
                | "" => (Some 0, s3)
                end in
              match exp with
              | None => None
              | Some x =>
                  let m := value_of (int ++ f) in
                  Some (JNumber (if negative then - m else m)
                                (x - Z.of_nat (String.length f)), s4)
              end
          end
      end
  end.

Definition literal (word : string) (v : JSON) (s : string)
  : option (JSON * string) :=
  if prefix word s
  then Some (v, substring (String.length word)
                          (String.length s - String.length word) s)
  else None.

Fixpoint parse_value (fuel : nat) (s : string) : option (JSON * string) :=
  match fuel with
  | O => None
  | S fuel' =>
      match s with
      | "" => None
      | String c rest =>
          if Ascii.eqb c "{" then
            match skip_ws rest with
            | String "}" r => Some (JObject [], r)
            | _ => parse_members fuel' rest []
            end
          else if Ascii.eqb c "[" then
            match skip_ws rest with
            | String "]" r => Some (JArray [], r)
            | _ => parse_elements fuel' rest []
            end
          else if Ascii.eqb c quote then
            match parse_chars rest with
            | Some (body, r) => Some (JString body, r)
            | None => None
            end
          else if Ascii.eqb c "t" then literal "true" (JBool true) s
          else if Ascii.eqb c "f" then literal "false" (JBool false) s
          else if Ascii.eqb c "n" then literal "null" JNull s
          else parse_number s
      end
  end
with parse_elements (fuel : nat) (s : string) (acc : list JSON)
     : option (JSON * string) :=
  match fuel with
  | O => None
  | S fuel' =>
      match parse_value fuel' (skip_ws s) with
      | None => None
      | Some (v, rest) =>
          match skip_ws rest with
          | String "," r => parse_elements fuel' r (acc ++ [v])%list
          | String "]" r => Some (JArray (acc ++ [v])%list, r)
          | _ => None
          end
      end
  end
with parse_members (fuel : nat) (s : string) (acc : list (string * JSON))
     : option (JSON * string) :=
  match fuel with
  | O => None
  | S fuel' =>
      match skip_ws s with
      | String c rest =>
          if Ascii.eqb c quote then
            match parse_chars rest with
            | None => None
            | Some (key, rest1) =>
                match skip_ws rest1 with
                | String ":" rest2 =>
                    match parse_value fuel' (skip_ws rest2) with
                    | None => None
                    | Some (v, rest3) =>
                        match skip_ws rest3 with
                        | String "," r =>
                            parse_members fuel' r (acc ++ [(key, v)])%list
                        | String "}" r =>
                            Some (JObject (acc ++ [(key, v)])%list, r)
                        | _ => None
                        end
                    end
                | _ => None
                end
            end
          else None
      | "" => None
      end
  end.

Definition parse (s : string) : option JSON :=
  match parse_value (2 * String.length s + 2) (skip_ws s) with
  | Some (v, rest) => if is_empty (skip_ws rest) then Some v else None
  | None => None
  end.

End Json.

(** ** [src/features/refactor.ts]: the worker session *)

Module Refactor.
Import JS Common Json.

(** *** Promises

    A promise is a cell that is settled at most once.  A session keeps
    its promises in a list and names one by its position. *)

Inductive Settled : Type :=
| Pending
| Resolved (value : option JSON)
| Rejected (reason : Thrown).

Fixpoint replace (n : nat) (x : Settled) (l : list Settled) : list Settled :=
  match l, n with
  | [], _ => []
  | _ :: rest, O => x :: rest
  | y :: rest, S n' => y :: replace n' x rest
  end.

(** Calling the [resolve] or [reject] function of promise [p]: it has an
    effect only while the promise is pending. *)
Definition settle (p : nat) (outcome : Settled) (l : list Settled)
  : list Settled :=
  match nth_error l p with
  | Some Pending => replace p outcome l
  | _ => l
  end.

(** *** The fields of the class *)

Record RefactorProxy : Type := mkProxy {
  _process : option nat;           (* the handle of the subprocess *)
  _previousOutData : string;
  _previousStdErrData : string;
  _startedSuccessfully : bool;
  _commandResolve : option nat;    (* the promise this function resolves *)
  _commandReject : option nat;     (* the promise this function rejects *)
  initialized : option nat;        (* the deferred of [initialize] *)
}.

(** [new RefactorProxy(...)] *)
Definition new_proxy : RefactorProxy :=
  {| _process := None; _previousOutData := ""; _previousStdErrData := "";
     _startedSuccessfully := false; _commandResolve := None;
     _commandReject := None; initialized := None |}.

Definition set_process (v : option nat) (p : RefactorProxy) :=
  mkProxy v (_previousOutData p) (_previousStdErrData p)
          (_startedSuccessfully p) (_commandResolve p) (_commandReject p)
          (initialized p).
Definition set_previousOutData (v : string) (p : RefactorProxy) :=
  mkProxy (_process p) v (_previousStdErrData p)
          (_startedSuccessfully p) (_commandResolve p) (_commandReject p)
          (initialized p).
Definition set_previousStdErrData (v : string) (p : RefactorProxy) :=
  mkProxy (_process p) (_previousOutData p) v
          (_startedSuccessfully p) (_commandResolve p) (_commandReject p)
          (initialized p).
Definition set_startedSuccessfully (v : bool) (p : RefactorProxy) :=
  mkProxy (_process p) (_previousOutData p) (_previousStdErrData p)
          v (_commandResolve p) (_commandReject p) (initialized p).
Definition set_commandResolve (v : option nat) (p : RefactorProxy) :=
  mkProxy (_process p) (_previousOutData p) (_previousStdErrData p)
          (_startedSuccessfully p) v (_commandReject p) (initialized p).
Definition set_commandReject (v : option nat) (p : RefactorProxy) :=
  mkProxy (_process p) (_previousOutData p) (_previousStdErrData p)
          (_startedSuccessfully p) (_commandResolve p) v (initialized p).
Definition set_initialized (v : option nat) (p : RefactorProxy) :=
  mkProxy (_process p) (_previousOutData p) (_previousStdErrData p)
          (_startedSuccessfully p) (_commandResolve p) (_commandReject p) v.

(** *** What a session acts on *)

(** A call of [sendCommand] that waits at [await this.initialize()]. *)
Record Call : Type := {
  awaits : nat;        (* the deferred it waits for *)
  result : nat;        (* the promise the call returned *)
  command : string;
}.

Record World : Type := mkWorld {
  promises : list Settled;
  spawned : nat;                   (* subprocesses started, numbered from 0 *)
  killed : list nat;               (* subprocesses that got [kill()] *)
  stdin : list (nat * string);     (* texts written, with the subprocess *)
  suspended : list Call;
}.

Definition new_world : World :=
  {| promises := []; spawned := 0; killed := []; stdin := [];
     suspended := [] |}.

Definition set_promises (v : list Settled) (w : World) :=
  mkWorld v (spawned w) (killed w) (stdin w) (suspended w).
Definition set_suspended (v : list Call) (w : World) :=
  mkWorld (promises w) (spawned w) (killed w) (stdin w) v.

Definition State : Type := RefactorProxy * World.

(** The subprocess that [dispose] kills, if the session has one. *)
Definition process_list (this : RefactorProxy) : list nat :=
  match _process this with
  | Some pid => [pid]
  | None => []
  end.

Section Proxy.

(** [JSON.parse]; [None] is a thrown [SyntaxError]. *)
Variable JSON_parse : string -> option JSON.
(** What string concatenation makes of a value that is no string. *)
Variable coerce : option JSON -> string.

Definition to_string (v : option JSON) : string :=
  match v with
  | Some (JString s) => s
  | _ => coerce v
  end.

(** [lines.map((resp) => JSON.parse(resp))]: [None] as soon as one
    line does not parse. *)
Fixpoint parse_each (lines : list string) : option (list JSON) :=
  match lines with
  | [] => Some []
  | l :: rest =>
      match JSON_parse l with
      | None => None
      | Some v =>
          match parse_each rest with
          | None => None
          | Some vs => Some (v :: vs)
          end
      end
  end.

(** [dataStr.split(/\r?\n/g).filter(...).map(...)] *)
Definition parse_lines (dataStr : string) : option (list JSON) :=
  parse_each (non_empty (split_eol dataStr)).

Definition dispose (st : State) : State :=
  let '(this, w) := st in
  let w' :=
    match _process this with
    | Some pid =>
        mkWorld (promises w) (spawned w) (killed w ++ [pid])%list
                (stdin w) (suspended w)
    | None => w                     (* the [TypeError] is caught *)
    end in
  (set_process None this, w').

Definition onData (data : string) (st : State) : Completion unit * State :=
  let '(this, w) := st in
  match _commandResolve this with
  | None => (Normal tt, st)
  | Some resolve =>
      let dataStr := _previousOutData this ++ data in
      let this1 := set_previousOutData dataStr this in
      match parse_lines dataStr with
      | None => (Normal tt, (this1, w))
      | Some response =>
          let this2 := set_previousOutData "" this1 in
          let '(this3, w3) := dispose (this2, w) in
          let w4 :=
            set_promises
              (settle resolve (Resolved (hd_error response)) (promises w3))
              w3 in
          (Normal tt, (set_commandResolve None this3, w4))
      end
  end.

(** The [message] of the first record after the [if] that fills in a
    missing one. *)
Definition summary (first : option JSON) : Completion string :=
  match get first "message" with
  | Throw e => Throw e
  | Normal message =>
      match nonempty_string message with
      | Some m => Normal m
      | None =>
          match get first "traceback" with
          | Throw e => Throw e
          | Normal (Some (JString traceback)) =>
              match pop (splitLines traceback) with
              | Some last => Normal last
              | None => Normal (coerce None)
              end
          | Normal _ => Throw TypeError     (* nothing to split *)
          end
      end
  end.

Definition reject (p : option nat) (reason : Thrown) (st : State)
  : Completion unit * State :=
  let '(this, w) := st in
  match p with
  | None => (Throw TypeError, st)
  | Some r =>
      (Normal tt,
       (this, set_promises (settle r (Rejected reason) (promises w)) w))
  end.

Definition handleStdError (data : string) (st : State)
  : Completion unit * State :=
  let '(this, w) := st in
  let dataStr := _previousStdErrData this ++ data in
  let this1 := set_previousStdErrData dataStr this in
  match parse_lines dataStr with
  | None => (Normal tt, (this1, w))
  | Some errorResponse =>
      let this2 := set_previousStdErrData "" this1 in
      let first := hd_error errorResponse in
      match summary first with
      | Throw e => (Throw e, (this2, w))
      | Normal message =>
          match get first "traceback" with
          | Throw e => (Throw e, (this2, w))
          | Normal traceback =>
              let errorMessage :=
                message ++ String LF "" ++ to_string traceback in
              if _startedSuccessfully this2 then
                reject (_commandReject this2)
                       (ThrownString ("Refactor failed. " ++ errorMessage))
                       (this2, w)
              else
                match get first "type" with
                | Throw e => (Throw e, (this2, w))
                | Normal type =>
                    if is_string "ModuleNotFoundError" type
                    then reject (initialized this2)
                                (ThrownString "Not installed") (this2, w)
                    else reject (initialized this2)
                                (ThrownString
                                   ("Refactor failed. " ++ errorMessage))
                                (this2, w)
                end
          end
      end
  end.

(** The chunks of the standard output given to [onData] one after the
    other. *)
Definition feed (chunks : list string) (st : State) : State :=
  fold_left (fun st' data => snd (onData data st')) chunks st.

(** The text of the chunks, one after the other. *)
Fixpoint join (chunks : list string) : string :=
  match chunks with
  | [] => ""
  | data :: rest => data ++ join rest
  end.

(** No chunk completes the text: after each of them, the buffer [buf]
    with the chunks so far has a line that does not parse. *)
Fixpoint incomplete (buf : string) (chunks : list string) : Prop :=
  match chunks with
  | [] => True
  | data :: rest =>
      parse_lines (buf ++ data) = None /\ incomplete (buf ++ data) rest
  end.

Definition handleError (error : Thrown) (st : State)
  : Completion unit * State :=
  let '(this, w) := st in
  if _startedSuccessfully this
  then reject (_commandReject this) error st
  else reject (initialized this) error st.

Inductive Source : Type := stdout | stderr.

(** The function [initialize] subscribes to the output of the
    subprocess. *)
Definition on_output (source : Source) (out : string) (st : State)
  : Completion unit * State :=
  let '(this, w) := st in
  match source with
  | stdout =>
      if (negb (_startedSuccessfully this) && startsWith "STARTED" out)%bool
      then
        let this1 := set_startedSuccessfully true this in
        match initialized this1 with
        | None => (Throw TypeError, (this1, w))
        | Some d =>
            (Normal tt,
             (this1,
              set_promises (settle d (Resolved None) (promises w)) w))
        end
      else onData out st
  | stderr => handleStdError out st
  end.

(** [initialize]: a new deferred and a new subprocess; the deferred is
    what the caller waits for. *)
Definition initialize (st : State) : nat * State :=
  let '(this, w) := st in
  let d := List.length (promises w) in
  let pid := spawned w in
  (d,
   (set_process (Some pid) (set_initialized (Some d) this),
    mkWorld (promises w ++ [Pending])%list (S pid) (killed w) (stdin w)
            (suspended w))).

(** [sendCommand] up to its [await]: the promise it returns, and the
    call left waiting for [initialize]. *)
Definition sendCommand (command : string) (st : State) : nat * State :=
  let '(this, w) := st in
  let r := List.length (promises w) in
  let w1 := set_promises (promises w ++ [Pending])%list w in
  let '(d, (this2, w2)) := initialize (this, w1) in
  (r,
   (this2,
    set_suspended
      (suspended w2 ++ [{| awaits := d; result := r; command := command |}])%list
      w2)).

(** [sendCommand] after its [await]: the executor of the new promise.
    The promise the call returned takes the outcome of that promise,
    so both are one cell here. *)
Definition resume (c : Call) (st : State) : State :=
  let '(this, w) := st in
  let this1 :=
    set_commandReject (Some (result c))
      (set_commandResolve (Some (result c)) this) in
  match _process this1 with
  | Some pid =>
      (this1,
       mkWorld (promises w) (spawned w) (killed w)
               (stdin w ++ [(pid, (command c ++ String LF "")%string)])%list
               (suspended w))
  | None =>
      (this1,
       set_promises (settle (result c) (Rejected TypeError) (promises w)) w)
  end.

(** The continuations that are due once a handler has returned: each
    waiting call whose deferred is settled goes on or fails. *)
Fixpoint run_calls (calls : list Call) (st : State) : State :=
  match calls with
  | [] => st
  | c :: rest =>
      let '(this, w) := st in
      match nth_error (promises w) (awaits c) with
      | Some (Resolved _) => run_calls rest (resume c st)
      | Some (Rejected reason) =>
          run_calls rest
            (this,
             set_promises
               (settle (result c) (Rejected reason) (promises w)) w)
      | _ =>
          let '(this', w') := run_calls rest st in
          (this', set_suspended (c :: suspended w') w')
      end
  end.

Definition run_microtasks (st : State) : State :=
  let '(this, w) := st in
  run_calls (suspended w) (this, set_suspended [] w).

(** What the subprocess and its transport do to a session. *)
Inductive Event : Type :=
| Output (source : Source) (out : string)
| Fault (error : Thrown).

Definition deliver (e : Event) (st : State) : State :=
  run_microtasks
    (snd match e with
         | Output source out => on_output source out st
         | Fault error => handleError error st
         end).

(** The exported commands: each one creates a session of its own and
    sends it one command. *)
Definition open_session (command : string) : State :=
  snd (sendCommand command (new_proxy, new_world)).

(** The sessions of the module, in the order of their creation. *)
Inductive Action : Type :=
| Invoke (command : string)
| Deliver (session : nat) (e : Event).

Fixpoint update (n : nat) (f : State -> State) (l : list State)
  : list State :=
  match l, n with
  | [], _ => []
  | st :: rest, O => f st :: rest
  | st :: rest, S n' => st :: update n' f rest
  end.

Definition step (sessions : list State) (a : Action) : list State :=
  match a with
  | Invoke command => (sessions ++ [open_session command])%list
  | Deliver n e => update n (deliver e) sessions
  end.

Definition run_actions (actions : list Action) : list State :=
  fold_left step actions [].

End Proxy.

(** What holds of a session that the module has created: it started one
    subprocess, the command written and the call still waiting are one at
    most, and the continuation it holds, if any, is the one of that call,
    whose promise is the first of the session. *)
Definition one_command (st : State) : Prop :=
  spawned (snd st) = 1%nat
  /\ (List.length (stdin (snd st)) + List.length (suspended (snd st)) <= 1)%nat
  /\ Forall (fun c => result c = 0%nat) (suspended (snd st))
  /\ (_commandResolve (fst st) = None
      \/ _commandResolve (fst st) = Some 0%nat).

(** What a handler of the output leaves alone: the subprocesses started,
    the commands written and the calls that wait; the continuation it
    keeps or drops. *)
Definition handler_frame (st st' : State) : Prop :=
  spawned (snd st') = spawned (snd st)
  /\ stdin (snd st') = stdin (snd st)
  /\ suspended (snd st') = suspended (snd st)
  /\ (_commandResolve (fst st') = _commandResolve (fst st)
      \/ _commandResolve (fst st') = None).

(** The examples below have a string wherever a text is put together, so
    that nothing is coerced in them. *)
Definition no_coercion (v : option JSON) : string := "".

(** A session whose subprocess has said that it is ready, and which has
    written its command. *)
Definition busy_session : State :=
  deliver Json.parse no_coercion
          (Output stdout ("STARTED" ++ String LF ""))
          (open_session "{}").

End Refactor.

(** ** [src/features/refactor.ts]: offsets and the application of a diff *)

Module Operations.
Import JS.

Record Position : Type := { line : nat; character : nat }.

(** The text document of the editor: its text and its [offsetAt]. *)
Record TextDocument : Type := {
  getText : string;
  offsetAt : Position -> nat;
}.

(** The offsets at which the lines after the first one start; a line ends
    with LF, with CR LF or with CR. *)
Fixpoint line_starts (pos : nat) (s : string) : list nat :=
  match s with
  | "" => []
  | String "010" rest => S pos :: line_starts (S pos) rest
  | String "013" (String "010" rest) =>
      S (S pos) :: line_starts (S (S pos)) rest
  | String "013" rest => S pos :: line_starts (S pos) rest
  | String _ rest => line_starts (S pos) rest
  end.

(** The loop of the editor library that moves an offset back over the
    line terminator in front of it, [steps] characters at most. *)
Fixpoint ensureBeforeEOL (text : string) (steps offset : nat) : nat :=
  match steps with
  | O => offset
  | S steps' =>
      match get (offset - 1) text with
      | Some c =>
          if (Ascii.eqb c LF || Ascii.eqb c CR)%bool
          then ensureBeforeEOL text steps' (offset - 1)
          else offset
      | None => offset
      end
  end.

(** A document over a text, with the [offsetAt] of the editor library:
    the start of the line plus the character, kept inside the line and
    in front of its line terminator. *)
Definition document_of (text : string) : TextDocument :=
  {| getText := text;
     offsetAt := fun position =>
       let lineOffsets := (0 :: line_starts 0 text)%nat in
       match nth_error lineOffsets (line position) with
       | None => String.length text
       | Some lineOffset =>
           let nextLineOffset :=
             match nth_error lineOffsets (S (line position)) with
             | Some next => next
             | None => String.length text
             end in
           let offset :=
             Nat.min (lineOffset + character position) nextLineOffset in
           ensureBeforeEOL text (offset - lineOffset) offset
       end |}.

Fixpoint count_crlf (s : string) : nat :=
  match s with
  | String "013" (String "010" rest) => S (count_crlf rest)
  | String _ rest => count_crlf rest
  | "" => 0%nat
  end.

(** Modelled from the spec: [getWindowsLineEndingCount] of
    [src/common.ts], which is not part of the sources at hand: "the count
    of extra line-ending characters preceding the position", one for
    each CR LF in the text before [offset]. *)
Definition getWindowsLineEndingCount (document : TextDocument)
           (offset : nat) : nat :=
  count_crlf (substring 0 offset (getText document)).

(** [isWindows] is [process.platform === 'win32']. *)
Definition getOffsetAt (isWindows : bool) (document : TextDocument)
           (position : Position) : Z :=
  if isWindows then Z.of_nat (offsetAt document position)
  else
    let offset := offsetAt document position in
    let winEols := getWindowsLineEndingCount document offset in
    Z.of_nat offset - Z.of_nat winEols.

Record TextEdit : Type := {
  start_line : nat;        (* [edit.range.start.line] *)
  newText : string;
}.

(** The editor as the two functions see it. *)
Record Editor : Type := mkEditor {
  content : list string;             (* the lines of the document *)
  applied : list (list TextEdit);    (* calls of [applyEdits] *)
  outputChannel : list string;
  errorMessages : list string;       (* [window.showErrorMessage] *)
  jumps : list (option Position);    (* [workspace.jumpTo] *)
}.

Inductive Returned : Type :=
| Undefined
| EmptyArray
| Place (newWordPosition : option Position).

Section Apply.

(** The translation of a unified diff into edits, and the editor's
    application of edits to the lines of a document. *)
Variable getTextEditsFromPatch :
  string -> string -> Completion (list TextEdit).
Variable applyEdits :
  list string -> list TextEdit -> Completion (list string).
Variable getDocumentContent : list string -> string.
(** How the promise of [workspace.jumpTo] is settled: fulfilled, or
    rejected with an error. *)
Variable jumpTo : option Position -> Completion unit.

Definition error_text (error : Thrown) : string :=
  match error with
  | ThrownString s => s
  | ThrownError m => m
  | ThrownOther rendering => rendering
  end.

(** The [catch] clause of both functions. *)
Definition report (title intro notice : string) (error : Thrown)
           (ed : Editor) : Editor :=
  mkEditor (content ed) (applied ed)
    (outputChannel ed
       ++ [("##########" ++ title ++ "##########" ++ String LF "")%string;
           (intro ++ String LF "" ++ error_text error ++ String LF "")%string;
           String LF ""])%list
    (errorMessages ed ++ [notice])%list
    (jumps ed).

(** [await doc.applyEdits(edits)] *)
Definition apply (edits : list TextEdit) (ed : Editor)
  : Completion unit * Editor :=
  match applyEdits (content ed) edits with
  | Throw e => (Throw e, ed)
  | Normal lines =>
      (Normal tt,
       mkEditor lines (applied ed ++ [edits])%list (outputChannel ed)
                (errorMessages ed) (jumps ed))
  end.

(** [resp] is what awaiting the promise of the diff gives. *)
Definition applyImports (resp : Completion string) (ed : Editor)
  : Completion Returned * Editor :=
  let attempt : Completion Returned * Editor :=
    match resp with
    | Throw e => (Throw e, ed)
    | Normal diff =>
        if is_empty diff then (Normal Undefined, ed)
        else
          match getTextEditsFromPatch (getDocumentContent (content ed)) diff with
          | Throw e => (Throw e, ed)
          | Normal edits =>
              match apply edits ed with
              | (Throw e, ed') => (Throw e, ed')
              | (Normal _, ed') => (Normal Undefined, ed')
              end
          end
    end in
  match attempt with
  | (Throw error, ed') =>
      (Throw error,
       report "Rope Output" "Error in add import:"
              "Cannot perform addImport using selected element(s)."
              error ed')
  | done => done
  end.

(** The [forEach] over the edits: the least start line, [-1] if there
    is no edit. *)
Definition first_change (edits : list TextEdit) : Z :=
  fold_left
    (fun changeStartsAtLine edit =>
       if ((changeStartsAtLine =? -1)
           || (changeStartsAtLine >? Z.of_nat (start_line edit)))%bool
       then Z.of_nat (start_line edit)
       else changeStartsAtLine)
    edits (-1).

(** The [for] loop over the lines from [lineNumber] on. *)
Fixpoint find_word (newName : string) (lineNumber : nat)
         (lines : list string) : option Position :=
  match lines with
  | [] => None
  | l :: rest =>
      match indexOf newName l with
      | Some indexOfWord =>
          Some {| line := lineNumber; character := indexOfWord |}
      | None => find_word newName (S lineNumber) rest
      end
  end.

(** What the [try] block of [extractName] hands back: a value, or the
    promise of the jump, which it returns without awaiting it. *)
Inductive Attempt : Type :=
| Value (returned : Returned)
| Jump (newWordPosition : option Position).

Definition extractName (newName : string)
           (renameResponse : Completion string) (ed : Editor)
  : Completion Returned * Editor :=
  let attempt : Completion Attempt * Editor :=
    match renameResponse with
    | Throw e => (Throw e, ed)
    | Normal diff =>
        if is_empty diff then (Normal (Value EmptyArray), ed)
        else
          match getTextEditsFromPatch (getDocumentContent (content ed)) diff with
          | Throw e => (Throw e, ed)
          | Normal edits =>
              let changeStartsAtLine := first_change edits in
              match apply edits ed with
              | (Throw e, ed') => (Throw e, ed')
              | (Normal _, ed') =>
                  if changeStartsAtLine >=? 0 then
                    let from := Z.to_nat changeStartsAtLine in
                    let newWordPosition :=
                      find_word newName from (skipn from (content ed')) in
                    (Normal (Jump newWordPosition),
                     mkEditor (content ed') (applied ed')
                              (outputChannel ed') (errorMessages ed')
                              (jumps ed' ++ [newWordPosition])%list)
                  else (Normal (Value Undefined), ed')
              end
          end
    end in
  match attempt with
  | (Throw error, ed') =>
      (Throw error,
       report "Refactor Output" "Error in refactoring:"
              "Cannot perform refactoring using selected element(s)."
              error ed')
  | (Normal (Value returned), ed') => (Normal returned, ed')
  | (Normal (Jump newWordPosition), ed') =>
      (* the promise of the jump settles after the [try] block is left:
         its rejection is the rejection of [extractName], and the
         [catch] clause does not see it *)
      match jumpTo newWordPosition with
      | Normal _ => (Normal (Place newWordPosition), ed')
      | Throw error => (Throw error, ed')
      end
  end.

End Apply.

End Operations.

(** ** Notions that the properties are stated with *)

Module Notions.
Import JS Json Refactor.

(** The last character of a text. *)
Fixpoint last_char (s : string) : option ascii :=
  match s with
  | "" => None
  | String c rest =>
      match rest with
      | "" => Some c
      | _ => last_char rest
      end
  end.

Definition ends_with_CR (s : string) : bool :=
  match last_char s with
  | Some c => Ascii.eqb c CR
  | None => false
  end.

Definition not_digit (c : ascii) : bool := negb (is_digit c).

(** The records of two texts, one after the other; none if a line of
    either text does not parse. *)
Definition both (x y : option (list JSON)) : option (list JSON) :=
  match x, y with
  | Some a, Some b => Some (a ++ b)%list
  | _, _ => None
  end.

(** [l'] has every promise of [l] that is settled, with its outcome. *)
Definition keeps_settled (l l' : list Settled) : Prop :=
  forall i s, nth_error l i = Some s -> s <> Pending -> nth_error l' i = Some s.

(** What the code around a proxy can do with it: call [sendCommand], as
    each of the three public methods does, or let an event of the
    subprocess reach it. *)
Inductive Use : Type :=
| Send (command : string)
| Happen (e : Event).

Definition use (JSON_parse : string -> option JSON)
           (coerce : option JSON -> string) (st : State) (u : Use) : State :=
  match u with
  | Send command => snd (sendCommand command st)
  | Happen e => deliver JSON_parse coerce e st
  end.

(** A proxy after a sequence of uses, from its creation on. *)
Definition uses (JSON_parse : string -> option JSON)
           (coerce : option JSON -> string) (us : list Use) : State :=
  fold_left (use JSON_parse coerce) us (new_proxy, new_world).

(** The uses that matter to what a proxy writes: a call, and a chunk of
    the standard output that begins with the ready sentinel. *)
Definition is_start (u : Use) : bool :=
  match u with
  | Happen (Output stdout out) => startsWith "STARTED" out
  | _ => false
  end.

Definition is_send (u : Use) : bool :=
  match u with
  | Send _ => true
  | Happen _ => false
  end.

(** The number of calls among the uses: each call starts a subprocess,
    and the subprocesses are numbered from 0. *)
Definition sends (us : list Use) : nat := List.length (filter is_send us).

(** The handler of an event, before the calls that wait go on. *)
Definition handle (JSON_parse : string -> option JSON)
           (coerce : option JSON -> string) (e : Event) (st : State) : State :=
  snd match e with
      | Output source out => on_output JSON_parse coerce source out st
      | Fault error => handleError error st
      end.

(** What holds of a proxy that has not started, after the uses [us]:
    it has no continuation, its subprocess is the one of the last call,
    and the call that waits for its latest startup is the last call. *)
Definition before_start (us : list Use) (st : State) : Prop :=
  _commandResolve (fst st) = None
  /\ _process (fst st) = match sends us with O => None | S n => Some n end
  /\ spawned (snd st) = sends us
  /\ forall c, In c (suspended (snd st)) ->
               Some (awaits c) = initialized (fst st) ->
               exists pre mid,
                 us = (pre ++ Send (command c) :: mid)%list
                 /\ existsb is_send mid = false.

(** What a proxy has written after the uses [us]: nothing, or the
    command of the last call made before the first chunk that announces
    the start, to the subprocess of that call. *)
Definition written_by_the_latest_call (us : list Use)
           (written : list (nat * string)) : Prop :=
  written = []
  \/ exists pre command mid out post,
      us = (pre ++ Send command :: mid
              ++ Happen (Output stdout out) :: post)%list
      /\ existsb is_start pre = false
      /\ existsb is_send mid = false
      /\ existsb is_start mid = false
      /\ startsWith "STARTED" out = true
      /\ written = [(sends pre, (command ++ String LF "")%string)].

(** A waiting call has the promise it returned at an even position, its
    deferred at an odd one, and the deferred is pending. *)
Definition waiting_well (l : list Settled) (c : Call) : Prop :=
  Nat.even (result c) = true
  /\ Nat.odd (awaits c) = true
  /\ nth_error l (awaits c) = Some Pending.

(** What every use keeps of a proxy. *)
Definition single_use (st : State) : Prop :=
  Nat.even (List.length (promises (snd st))) = true
  /\ Forall (waiting_well (promises (snd st))) (suspended (snd st))
  /\ NoDup (map awaits (suspended (snd st)))
  /\ (forall r, _commandResolve (fst st) = Some r -> Nat.even r = true)
  /\ (forall r, _commandReject (fst st) = Some r -> Nat.even r = true)
  /\ (_startedSuccessfully (fst st) = false -> stdin (snd st) = [])
  /\ (List.length (stdin (snd st)) <= 1)%nat.

(** What a handler of an event does to a session, before the calls that
    wait go on: it settles one promise at most, and resolves one at an
    odd position only when it starts the session. *)
Definition handler_effect (st st1 : State) : Prop :=
  stdin (snd st1) = stdin (snd st)
  /\ suspended (snd st1) = suspended (snd st)
  /\ (_commandResolve (fst st1) = _commandResolve (fst st)
      \/ _commandResolve (fst st1) = None)
  /\ _commandReject (fst st1) = _commandReject (fst st)
  /\ (_startedSuccessfully (fst st) = true ->
      _startedSuccessfully (fst st1) = true)
  /\ (promises (snd st1) = promises (snd st)
      \/ exists i outcome,
          promises (snd st1) = settle i outcome (promises (snd st))
          /\ ((exists reason, outcome = Rejected reason)
              \/ Nat.even i = true
              \/ (_startedSuccessfully (fst st) = false
                  /\ _startedSuccessfully (fst st1) = true))).

(** What the calls that go on leave of a session. *)
Definition calls_effect (calls : list Call) (st st' : State) : Prop :=
  (forall i, Nat.odd i = true ->
             nth_error (promises (snd st')) i = nth_error (promises (snd st)) i)
  /\ List.length (promises (snd st')) = List.length (promises (snd st))
  /\ _startedSuccessfully (fst st') = _startedSuccessfully (fst st)
  /\ (forall c, In c (suspended (snd st')) ->
                In c (suspended (snd st))
                \/ (In c calls
                    /\ nth_error (promises (snd st)) (awaits c)
                       = Some Pending))
  /\ (NoDup (map awaits (calls ++ suspended (snd st))) ->
      NoDup (map awaits (suspended (snd st'))))
  /\ (forall r, _commandResolve (fst st') = Some r ->
                _commandResolve (fst st) = Some r \/ Nat.even r = true)
  /\ (forall r, _commandReject (fst st') = Some r ->
                _commandReject (fst st) = Some r \/ Nat.even r = true).

(** An editor with a function of two lines, a translation that makes of
    a diff one edit at the second line, and an application that puts the
    new texts in front of that line. *)
Definition sample_editor : Operations.Editor :=
  Operations.mkEditor ["def f():"; "    return 1 + 2"] [] [] [] [].

Definition sample_patch (before diff : string)
  : Completion (list Operations.TextEdit) :=
  Normal [{| Operations.start_line := 1; Operations.newText := diff |}].

Definition sample_applyEdits (lines : list string)
           (edits : list Operations.TextEdit) : Completion (list string) :=
  Normal (firstn 1 lines ++ map Operations.newText edits ++ skipn 1 lines)%list.

Definition sample_content (lines : list string) : string :=
  String.concat (String LF "") lines.

(** A jump that is fulfilled, and one that is rejected. *)
Definition sample_jump (position : option Operations.Position)
  : Completion unit := Normal tt.

Definition failing_jump (position : option Operations.Position)
  : Completion unit := Throw (ThrownError "no window").

(** A session whose command has been answered. *)
Definition finished_session : State :=
  deliver Json.parse no_coercion
          (Output stdout (text "{'results':[{'diff':'x'}]}" ++ String LF ""))
          busy_session.

End Notions.

(** * Properties *)

(** ** The pattern engine finds only what the pattern describes *)

Module ReFacts.
Import JS Re.

Lemma length_append (a b : string) :
  String.length (a ++ b) = (String.length a + String.length b)%nat.
Proof.
  induction a as [|c a IH]; simpl; [reflexivity | now rewrite IH].
Qed.

Lemma append_empty_r (a : string) : a ++ "" = a.
Proof.
  induction a as [|c a IH]; simpl; [reflexivity | now rewrite IH].
Qed.

Lemma append_assoc (a b c : string) : (a ++ b) ++ c = a ++ (b ++ c).
Proof.
  induction a as [|x a IH]; simpl; [reflexivity | now rewrite IH].
Qed.

Lemma substring_head (w s : string) :
  substring 0 (String.length w) (w ++ s) = w.
Proof.
  induction w as [|c w IH]; simpl.
  - destruct s; reflexivity.
  - now rewrite IH.
Qed.

Lemma captured_text (w s : string) :
  substring 0 (String.length (w ++ s) - String.length s) (w ++ s) = w.
Proof.
  rewrite length_append.
  replace (String.length w + String.length s - String.length s)%nat
    with (String.length w) by lia.
  apply substring_head.
Qed.

Lemma many_sound (p : ascii -> bool) (k : string -> option captures)
      (res : captures) :
  forall s, many p s k = Some res ->
  exists w s', s = w ++ s' /\ all p w = true /\ k s' = Some res.
Proof.
  induction s as [|c s IH]; simpl; intros H.
  - exists "", "". auto.
  - destruct (p c) eqn:Hc.
    + destruct (many p s k) as [r|] eqn:Hm.
      * destruct (IH H) as (w & s' & -> & Hw & Hk).
        exists (String c w), s'. simpl. rewrite Hc, Hw. auto.
      * exists "", (String c s). auto.
    + exists "", (String c s). auto.
Qed.

Lemma run_sound (r : re) :
  forall s caps k res,
    run r s caps k = Some res ->
    exists w s' caps',
      s = w ++ s' /\ Matches r w s' caps caps' /\ k s' caps' = Some res.
Proof.
  induction r as [p|p|p|p|r1 IH1 r2 IH2|r1 IH1 r2 IH2|name r1 IH1|];
    intros s caps k res H; simpl in H.
  - destruct s as [|c s]; [discriminate|].
    destruct (p c) eqn:Hc; [|discriminate].
    exists (String c ""), s, caps. simpl. eauto 7.
  - apply many_sound in H. destruct H as (w & s' & -> & Hw & Hk).
    exists w, s', caps. simpl. auto.
  - destruct s as [|c s]; [discriminate|].
    destruct (p c) eqn:Hc; [|discriminate].
    apply many_sound in H. destruct H as (w & s' & -> & Hw & Hk).
    exists (String c w), s', caps. simpl. rewrite Hc, Hw.
    repeat split; auto. discriminate.
  - destruct s as [|c s].
    + exists "", "", caps. simpl. auto.
    + destruct (p c) eqn:Hc.
      * destruct (k s caps) as [r|] eqn:Hk.
        -- inversion H; subst.
           exists (String c ""), s, caps. simpl. eauto 8.
        -- exists "", (String c s), caps. simpl. auto.
      * exists "", (String c s), caps. simpl. auto.
  - apply IH1 in H. destruct H as (w1 & s1 & caps1 & -> & M1 & H).
    apply IH2 in H. destruct H as (w2 & s2 & caps2 & -> & M2 & H).
    exists (w1 ++ w2), s2, caps2. rewrite append_assoc.
    repeat split; auto. simpl. exists w1, w2, caps1. auto.
  - destruct (run r1 s caps k) as [r|] eqn:H1.
    + inversion H; subst. apply IH1 in H1.
      destruct H1 as (w & s' & caps' & -> & M & Hk).
      exists w, s', caps'. simpl. auto.
    + apply IH2 in H. destruct H as (w & s' & caps' & -> & M & Hk).
      exists w, s', caps'. simpl. auto.
  - apply IH1 in H. destruct H as (w & s' & caps1 & -> & M & Hk).
    rewrite captured_text in Hk.
    exists w, s', ((name, w) :: caps1). simpl. eauto.
  - destruct s; [|discriminate].
    exists "", "", caps. simpl. auto.
Qed.

Lemma exec_sound (r : re) (caps : captures) :
  forall data, exec r data = Some caps ->
  exists before w rest,
    data = before ++ w ++ rest /\ Matches r w rest [] caps.
Proof.
  induction data as [|c data IH]; simpl; intros H.
  - destruct (run r "" [] (fun _ caps0 => Some caps0)) as [x|] eqn:Hr;
      [|discriminate].
    inversion H; subst. apply run_sound in Hr.
    destruct Hr as (w & s' & caps' & E & M & Hk). inversion Hk; subst.
    exists "", w, s'. auto.
  - destruct (run r (String c data) [] (fun _ caps0 => Some caps0))
      as [x|] eqn:Hr.
    + inversion H; subst. apply run_sound in Hr.
      destruct Hr as (w & s' & caps' & E & M & Hk). inversion Hk; subst.
      exists "", w, s'. auto.
    + destruct (IH H) as (before & w & rest & -> & M).
      exists (String c before), w, rest. auto.
Qed.

End ReFacts.

(** ** The linter output pipeline *)

Module LinterFacts.
Import JS Common Re Linter ReFacts.

Lemma digit_value_range (c : ascii) :
  is_digit c = true -> 0 <= Z.of_nat (nat_of_ascii c) - 48 <= 9.
Proof.
  unfold is_digit. intros H. apply andb_prop in H. destruct H as [H1 H2].
  apply Nat.leb_le in H1. apply Nat.leb_le in H2. lia.
Qed.

Lemma digits_value_all (s : string) :
  all is_digit s = true ->
  forall acc, 0 <= acc -> exists v, digits_value acc s = Some v /\ 0 <= v.
Proof.
  induction s as [|c s IH]; cbn [digits_value all]; intros H acc Hacc.
  - eauto.
  - apply andb_prop in H. destruct H as [Hc Hs]. rewrite Hc.
    apply IH; [assumption|]. pose proof (digit_value_range c Hc). lia.
Qed.

(** Up to [2^53] a double holds every integer. *)
Lemma double_safe (z : Z) : Z.abs z <= 2 ^ 53 -> double z = Int z.
Proof.
  intros H. unfold double. apply Z.leb_le in H. now rewrite H.
Qed.

Lemma nearest_pos (a e : Z) : 0 <= e -> 2 ^ e <= a -> 0 < nearest a e.
Proof.
  intros He Ha. unfold nearest.
  assert (P : 0 < 2 ^ e) by (apply Z.pow_pos_nonneg; lia).
  assert (Q : 1 <= a / 2 ^ e) by (apply Z.div_le_lower_bound; lia).
  destruct (if 2 * (a mod 2 ^ e) <? 2 ^ e then false
            else if 2 ^ e <? 2 * (a mod 2 ^ e) then true
                 else Z.odd (a / 2 ^ e)); nia.
Qed.

Lemma nearest_large_pos (z : Z) :
  2 ^ 53 < Z.abs z -> 0 < nearest (Z.abs z) (Z.log2 (Z.abs z) - 52).
Proof.
  intros H. assert (L : 53 <= Z.log2 (Z.abs z)).
  { apply Z.log2_le_pow2; lia. }
  apply nearest_pos; [lia|].
  destruct (Z.log2_spec (Z.abs z)) as [A _]; [lia|].
  transitivity (2 ^ Z.log2 (Z.abs z)); [|exact A].
  apply Z.pow_le_mono_r; lia.
Qed.

(** Rounding is symmetric. *)
Lemma double_opp (z : Z) : double (- z) = negate (double z).
Proof.
  unfold double. rewrite Z.abs_opp.
  destruct (Z.leb_spec (Z.abs z) (2 ^ 53)) as [|H]; [reflexivity|].
  assert (z <> 0) by (intros ->; cbn in H; lia).
  destruct (2 ^ 1024 <=? _); cbn [negate].
  - f_equal.
    destruct (Z.ltb_spec (- z) 0), (Z.ltb_spec z 0); try reflexivity; lia.
  - f_equal. rewrite Z.sgn_opp. lia.
Qed.

(** Rounding keeps the sign. *)
Lemma double_nonpositive (z : Z) :
  nan_or_nonpositive (double z) = (z <=? 0).
Proof.
  unfold double.
  destruct (Z.leb_spec (Z.abs z) (2 ^ 53)) as [|H]; [reflexivity|].
  pose proof (nearest_large_pos z H) as P.
  assert (Hz : z <> 0) by (intros ->; cbn in H; lia).
  destruct (2 ^ 1024 <=? _); cbn [nan_or_nonpositive].
  - destruct (Z.ltb_spec z 0), (Z.leb_spec z 0); try reflexivity; lia.
  - destruct (Z.leb_spec z 0) as [Hn|Hp].
    + rewrite Z.sgn_neg by lia. apply Z.leb_le. lia.
    + rewrite Z.sgn_pos by lia. apply Z.leb_gt. lia.
Qed.

(** A difference within [2^53] is exact. *)
Lemma minus_safe (z k : Z) :
  Z.abs (z - k) <= 2 ^ 53 -> minus (Int z) k = Int (z - k).
Proof.
  intros H. cbn [minus]. now apply double_safe.
Qed.

Lemma unsigned_digits (s : string) :
  s <> "" -> all is_digit s = true ->
  exists v, unsigned s = double v /\ 0 <= v.
Proof.
  intros Hne H. destruct (digits_value_all s H 0 (Z.le_refl 0)) as (v & Hv & Hpos).
  exists v. unfold unsigned. rewrite Hv. destruct s; [congruence | auto].
Qed.

Lemma Number_digits (s : string) :
  s <> "" -> all is_digit s = true ->
  exists v, Number (Some s) = double v /\ 0 <= v.
Proof.
  intros Hne H. destruct s as [|c s]; [congruence|].
  simpl in H. apply andb_prop in H. destruct H as [Hc Hs].
  unfold Number.
  destruct (Ascii.eqb_spec c "-") as [->|_]; [discriminate|].
  destruct (Ascii.eqb_spec c "+") as [->|_]; [discriminate|].
  apply unsigned_digits; [discriminate|]. simpl. now rewrite Hc, Hs.
Qed.

Lemma Number_signed_digits (sign ds : string) :
  (sign = "" \/ exists c, sign = String c "" /\ Ascii.eqb "-" c = true) ->
  ds <> "" -> all is_digit ds = true ->
  exists v, Number (Some (sign ++ ds)) = double v.
Proof.
  intros [->|(c & -> & Hc)] Hne H.
  - destruct (Number_digits ds Hne H) as (v & Hv & _). simpl. eauto.
  - apply Ascii.eqb_eq in Hc. subst c.
    destruct (unsigned_digits ds Hne H) as (v & Hv & _).
    destruct ds as [|d ds]; [congruence|].
    exists (- v). change (Number (Some (String "-" (String d ds)))
                          = double (- v)).
    unfold Number. rewrite Ascii.eqb_refl. now rewrite Hv, double_opp.
Qed.

Ltac break :=
  repeat match goal with
         | H : exists _, _ |- _ => destruct H
         | H : _ /\ _ |- _ => destruct H
         end.

(** What a match of the default pattern captures. *)
Lemma REGEX_captures (line : string) (caps : captures) :
  exec REGEX line = Some caps ->
  exists l c t code m,
    caps = [("message", m); ("code", code); ("type", t); ("column", c);
            ("line", l)]
    /\ (exists v, Number (Some l) = double v /\ 0 <= v)
    /\ (exists v, Number (Some c) = double v).
Proof.
  intros H. apply exec_sound in H.
  destruct H as (before & w & rest & _ & M).
  unfold REGEX, chr in M. cbn [Matches] in M. break.
  match goal with
  | H : (_ /\ _ = _) \/ _ |- _ => destruct H
  end; break; subst.
  all: do 5 eexists; split; [reflexivity|]; split;
    [apply Number_digits; assumption
    |apply Number_signed_digits; assumption].
Qed.

(** C2, as amended.  For every line that the default pattern matches and
    every column offset [k]: the captured line and column are the doubles
    nearest to the integers [l] and [c] that their digits write, never
    [NaN], and [l] is not negative; the message has the captured line,
    type, code and message unchanged and no file; its column is the
    difference of the captured column and [k] when [c] is positive (with
    no lower bound at 0), and 0 when [c] is zero or negative, whatever
    [k] is.  Up to [2^53] nothing is rounded: the line is [l], and the
    column of a positive [c] is [c - k]. *)
Theorem parseLine_default_pattern
        (line linterID : string) (k : Z) (g : IRegexGroup.t) :
  matchNamedRegEx line (Compiled REGEX) = Normal (Some g) ->
  exists l c,
    Number (IRegexGroup.line g) = double l /\ 0 <= l
    /\ Number (IRegexGroup.column g) = double c
    /\ parseLine line (Compiled REGEX) linterID k
       = Normal (Some
           {| ILintMessage.code := IRegexGroup.code g;
              ILintMessage.message := IRegexGroup.message g;
              ILintMessage.column :=
                if 0 <? c then minus (double c) k else Int 0;
              ILintMessage.line := double l;
              ILintMessage.type := IRegexGroup.type g;
              ILintMessage.provider := linterID;
              ILintMessage.file := None |})
    /\ (l <= 2 ^ 53 -> double l = Int l)
    /\ (0 < c <= 2 ^ 53 -> Z.abs (c - k) <= 2 ^ 53 ->
        minus (double c) k = Int (c - k)).
Proof.
  intros H. unfold parseLine. rewrite H.
  unfold matchNamedRegEx in H.
  destruct (exec REGEX line) as [caps|] eqn:E; [|discriminate].
  inversion H; subst g; clear H.
  apply REGEX_captures in E.
  destruct E as (l & c & t & code & m & -> & (vl & Hl & Hpos) & (vc & Hc)).
  exists vl, vc.
  assert (G : groups [("message", m); ("code", code); ("type", t);
                      ("column", c); ("line", l)]
              = IRegexGroup.mk (Some l) (Some c) (Some code) (Some m)
                               (Some t) None) by reflexivity.
  rewrite G.
  cbn [IRegexGroup.line IRegexGroup.column IRegexGroup.code
       IRegexGroup.message IRegexGroup.type IRegexGroup.file].
  rewrite Hl, Hc, double_nonpositive.
  split; [reflexivity|]. split; [assumption|]. split; [reflexivity|].
  split; [|split].
  - destruct (Z.leb_spec vc 0); destruct (Z.ltb_spec 0 vc); try lia;
      reflexivity.
  - intros Hb. apply double_safe. lia.
  - intros Hb Hd. rewrite double_safe by lia. now apply minus_safe.
Qed.

Lemma parseLine_default_pattern_witness :
  let g := {| IRegexGroup.line := Some "12";
              IRegexGroup.column := Some "7";
              IRegexGroup.code := Some "E501";
              IRegexGroup.message := Some "line too long";
              IRegexGroup.type := Some "Error";
              IRegexGroup.file := None |} in
  matchNamedRegEx "12,7,Error,E501:line too long" (Compiled REGEX)
    = Normal (Some g)
  /\ exists l c,
      Number (IRegexGroup.line g) = double l /\ 0 <= l
      /\ Number (IRegexGroup.column g) = double c
      /\ parseLine "12,7,Error,E501:line too long" (Compiled REGEX)
                   "flake8" 1
         = Normal (Some
             {| ILintMessage.code := IRegexGroup.code g;
                ILintMessage.message := IRegexGroup.message g;
                ILintMessage.column :=
                  if 0 <? c then minus (double c) 1 else Int 0;
                ILintMessage.line := double l;
                ILintMessage.type := IRegexGroup.type g;
                ILintMessage.provider := "flake8";
                ILintMessage.file := None |})
      /\ (l <= 2 ^ 53 -> double l = Int l)
      /\ (0 < c <= 2 ^ 53 -> Z.abs (c - 1) <= 2 ^ 53 ->
          minus (double c) 1 = Int (c - 1)).
Proof.
  intros g. split.
  - reflexivity.
  - apply (parseLine_default_pattern
             "12,7,Error,E501:line too long" "flake8" 1 g).
    reflexivity.
Defined.

(** Beyond [2^53] the numbers are rounded as the host rounds them: the
    line [2^53 + 1] is read as [2^53], the column [2^53 + 2] less the
    offset 1 is [2^53], and a line of 310 digits is infinite. *)
Example parseLine_rounds_large_numbers :
  parseLine "9007199254740993,9007199254740994,E,E1:x" (Compiled REGEX)
            "flake8" 1
  = Normal (Some
      {| ILintMessage.code := Some "E1";
         ILintMessage.message := Some "x";
         ILintMessage.column := Int 9007199254740992;
         ILintMessage.line := Int 9007199254740992;
         ILintMessage.type := Some "E";
         ILintMessage.provider := "flake8";
         ILintMessage.file := None |})
  /\ double (10 ^ 309) = Infinity false.
Proof.
  split; vm_compute; reflexivity.
Qed.

(** C2 as stated fails: with the column 1 and the offset 2 the message
    has the column [1 - 2 = -1], not [max (1 - 2) 0 = 0]. *)
Lemma parseLine_offset_not_clamped :
  parseLine "3,1,Error,E501:x" (Compiled REGEX) "flake8" 2
  = Normal (Some
      {| ILintMessage.code := Some "E501";
         ILintMessage.message := Some "x";
         ILintMessage.column := Int (-1);
         ILintMessage.line := Int 3;
         ILintMessage.type := Some "Error";
         ILintMessage.provider := "flake8";
         ILintMessage.file := None |})
  /\ Int (-1) <> Int (Z.max (1 - 2) 0).
Proof.
  split; [reflexivity | discriminate].
Qed.

(** *** The default pattern reads back what the format writes *)

Lemma many_stops (p : ascii -> bool) (s : string)
      (k : string -> option captures) :
  stops p s = true -> many p s k = k s.
Proof.
  destruct s as [|c s]; cbn; [reflexivity|].
  intros H. apply negb_true_iff in H. now rewrite H.
Qed.

(** A greedy run that the rest of the pattern accepts whole. *)
Lemma many_greedy (p : ascii -> bool) (k : string -> option captures)
      (r : captures) :
  forall w rest,
    all p w = true -> stops p rest = true -> k rest = Some r ->
    many p (w ++ rest) k = Some r.
Proof.
  induction w as [|c w IH]; intros rest Hw Hs Hk.
  - cbn [String.append]. now rewrite many_stops.
  - cbn in Hw. apply andb_prop in Hw. destruct Hw as [Hc Hw].
    cbn [String.append many]. rewrite Hc. now rewrite (IH rest Hw Hs Hk).
Qed.

(** A greedy run that has to give its last character back. *)
Lemma many_gives_back (p : ascii -> bool) (k : string -> option captures)
      (r : captures) (d : ascii) :
  forall w rest,
    all p w = true -> p d = true -> stops p rest = true ->
    k rest = None -> k (String d rest) = Some r ->
    many p (w ++ String d rest) k = Some r.
Proof.
  induction w as [|c w IH]; intros rest Hw Hd Hs Hn Hk.
  - cbn [String.append many]. rewrite Hd.
    rewrite many_stops by assumption. now rewrite Hn.
  - cbn in Hw. apply andb_prop in Hw. destruct Hw as [Hc Hw].
    cbn [String.append many]. rewrite Hc.
    now rewrite (IH rest Hw Hd Hs Hn Hk).
Qed.

Lemma run_group_many1 (name : string) (p : ascii -> bool) (c : ascii)
      (w rest : string) (caps r : captures)
      (k : string -> captures -> option captures) :
  p c = true -> all p w = true -> stops p rest = true ->
  k rest ((name, String c w) :: caps) = Some r ->
  Re.run (Group name (Many1 p)) (String c w ++ rest) caps k = Some r.
Proof.
  intros Hc Hw Hs Hk. cbn [Re.run String.append]. rewrite Hc.
  apply many_greedy; try assumption.
  change (String c (w ++ rest)) with (String c w ++ rest).
  now rewrite captured_text.
Qed.

Lemma stops_digit_of_word (rest : string) :
  stops is_word rest = true -> stops is_digit rest = true.
Proof.
  destruct rest as [|c rest]; [reflexivity|]. cbn. unfold is_word.
  destruct (is_digit c); [discriminate | reflexivity].
Qed.

(** The group [code]: the run of word characters takes the whole code,
    finds no digit after it, and gives the last digit back. *)
Lemma run_group_code (name : string) (c d : ascii) (body rest : string)
      (caps r : captures) (k : string -> captures -> option captures) :
  is_word c = true -> all is_word body = true -> is_digit d = true ->
  stops is_word rest = true ->
  k rest ((name, String c (body ++ String d "")) :: caps) = Some r ->
  Re.run (Group name (Seq (Many1 is_word) (Many1 is_digit)))
         (String c (body ++ String d "") ++ rest) caps k
  = Some r.
Proof.
  intros Hc Hb Hd Hs Hk. cbn [Re.run String.append]. rewrite Hc.
  rewrite append_assoc. cbn [String.append].
  apply many_gives_back; try assumption.
  - unfold is_word. now rewrite Hd.
  - destruct rest as [|x rest]; [reflexivity|].
    apply stops_digit_of_word in Hs. cbn in Hs.
    apply negb_true_iff in Hs. now rewrite Hs.
  - rewrite Hd. rewrite many_stops by now apply stops_digit_of_word.
    replace (String c (body ++ String d rest))
      with (String c (body ++ String d "") ++ rest)
      by (cbn [String.append]; now rewrite append_assoc).
    now rewrite captured_text.
Qed.

Lemma all_digits_uint (d : Decimal.uint) :
  all is_digit (DecimalString.NilEmpty.string_of_uint d) = true.
Proof.
  induction d; cbn [DecimalString.NilEmpty.string_of_uint all];
    try rewrite IHd; reflexivity.
Qed.

Lemma decimal_shape (n : nat) :
  exists c s,
    decimal n = String c s /\ is_digit c = true /\ all is_digit s = true.
Proof.
  unfold decimal. pose proof (all_digits_uint (Nat.to_uint n)) as H.
  assert (Hn : Nat.to_uint n <> Decimal.Nil).
  { rewrite <- (DecimalNat.Unsigned.of_to n) at 1.
    rewrite DecimalNat.Unsigned.to_of. apply DecimalFacts.unorm_nonnil. }
  destruct (Nat.to_uint n); try congruence;
    cbn [DecimalString.NilEmpty.string_of_uint all] in *;
    apply andb_prop in H; destruct H; eauto.
Qed.

Lemma digits_value_uint (d : Decimal.uint) :
  forall acc,
    digits_value (Z.of_nat acc) (DecimalString.NilEmpty.string_of_uint d)
    = Some (Z.of_nat (Nat.of_uint_acc d acc)).
Proof.
  induction d; intros acc;
    cbn [DecimalString.NilEmpty.string_of_uint digits_value Nat.of_uint_acc];
    try reflexivity.
  all: rewrite Nat.tail_mul_spec.
  all: match goal with
       | |- context [is_digit ?c] => change (is_digit c) with true
       end; cbv iota.
  all: rewrite <- IHd; f_equal.
  all: match goal with
       | |- context [nat_of_ascii ?c] =>
           let v := eval vm_compute in (nat_of_ascii c) in
           change (nat_of_ascii c) with v
       end; lia.
Qed.

Lemma digits_value_decimal (n : nat) :
  digits_value 0 (decimal n) = Some (Z.of_nat n).
Proof.
  unfold decimal. change 0 with (Z.of_nat 0). rewrite digits_value_uint.
  f_equal. f_equal. apply DecimalNat.Unsigned.of_to.
Qed.

Lemma Number_decimal (n : nat) :
  Number (Some (decimal n)) = double (Z.of_nat n).
Proof.
  destruct (decimal_shape n) as (c & s & E & Hc & Hs).
  pose proof (digits_value_decimal n) as V. rewrite E in *.
  unfold Number.
  destruct (Ascii.eqb_spec c "-") as [->|_]; [discriminate|].
  destruct (Ascii.eqb_spec c "+") as [->|_]; [discriminate|].
  unfold unsigned. now rewrite V.
Qed.

Lemma Number_signed_decimal (z : Z) :
  Number (Some (signed_decimal z)) = double z.
Proof.
  unfold signed_decimal. destruct (Z.ltb_spec z 0).
  - destruct (decimal_shape (Z.abs_nat z)) as (c & s & E & Hc & Hs).
    pose proof (digits_value_decimal (Z.abs_nat z)) as V. rewrite E in *.
    cbn [String.append]. unfold Number. rewrite Ascii.eqb_refl.
    unfold unsigned. rewrite V. rewrite <- double_opp. f_equal. lia.
  - rewrite Number_decimal. f_equal. lia.
Qed.

(** The group [column] on a number in decimal, with or without sign. *)
Lemma run_group_column (name : string) (z : Z) (rest : string)
      (caps r : captures) (k : string -> captures -> option captures) :
  stops is_digit rest = true ->
  k rest ((name, signed_decimal z) :: caps) = Some r ->
  Re.run (Group name (Seq (Opt (Ascii.eqb "-")) (Many1 is_digit)))
         (signed_decimal z ++ rest) caps k
  = Some r.
Proof.
  intros Hs Hk. unfold signed_decimal in *.
  destruct (decimal_shape (Z.abs_nat z)) as (c1 & s1 & E1 & Hc1 & Hs1).
  destruct (decimal_shape (Z.to_nat z)) as (c2 & s2 & E2 & Hc2 & Hs2).
  destruct (z <? 0).
  - rewrite E1 in *. cbn [Re.run String.append]. rewrite Ascii.eqb_refl.
    rewrite Hc1.
    rewrite (many_greedy is_digit _ r s1 rest Hs1 Hs); [reflexivity|].
    change (String "-" (String c1 (s1 ++ rest)))
      with (String "-" (String c1 s1) ++ rest).
    now rewrite captured_text.
  - rewrite E2 in *. cbn [Re.run String.append].
    assert (Hm : Ascii.eqb "-" c2 = false).
    { destruct (Ascii.eqb_spec "-" c2) as [<-|]; [discriminate|reflexivity]. }
    rewrite Hm, Hc2.
    apply many_greedy; try assumption.
    change (String c2 (s2 ++ rest)) with (String c2 s2 ++ rest).
    now rewrite captured_text.
Qed.

Lemma run_seq (a b : re) (s : string) (caps : captures)
      (k : string -> captures -> option captures) :
  Re.run (Seq a b) s caps k
  = Re.run a s caps (fun rest caps' => Re.run b rest caps' k).
Proof. reflexivity. Qed.

Lemma run_chr (c : ascii) (s : string) (caps : captures)
      (k : string -> captures -> option captures) :
  Re.run (chr c) (String c "" ++ s) caps k = k s caps.
Proof.
  cbn. now rewrite Ascii.eqb_refl.
Qed.

Lemma exec_at_start (r : re) (data : string) (caps : captures) :
  Re.run r data [] (fun _ c => Some c) = Some caps ->
  Re.exec r data = Some caps.
Proof.
  intros H. destruct data; cbn [Re.exec]; now rewrite H.
Qed.

(** The default pattern on a line of the default format: it matches at
    the start of the line and captures the five fields as written. *)
Lemma REGEX_reads_format (line : nat) (column : Z) (type message : string)
      (t c d : ascii) (type' body : string) :
  is_word t = true -> all is_word type' = true ->
  is_word c = true -> all is_word body = true -> is_digit d = true ->
  all dot message = true ->
  Re.exec REGEX
          (format line column (String t type')
                  (String c (body ++ String d "")) message)
  = Some [("message", message);
          ("code", String c (body ++ String d ""));
          ("type", String t type');
          ("column", signed_decimal column);
          ("line", decimal line)].
Proof.
  intros Ht Ht' Hc Hb Hd Hm. apply exec_at_start.
  unfold REGEX, format.
  destruct (decimal_shape line) as (l0 & ls & El & Hl0 & Hls). rewrite El.
  rewrite run_seq.
  apply run_group_many1; try assumption; [reflexivity|].
  rewrite run_seq, run_chr, run_seq.
  apply run_group_column; [reflexivity|].
  rewrite run_seq, run_chr, run_seq.
  apply run_group_many1; try assumption; [reflexivity|].
  rewrite run_seq, run_chr, run_seq.
  apply run_group_code; try assumption; [reflexivity|].
  rewrite run_seq, run_chr, run_seq.
  rewrite <- (append_empty_r message) at 1.
  cbn [Re.run]. apply many_greedy; [assumption | reflexivity |].
  rewrite captured_text. reflexivity.
Qed.

(** X2.  The round trip of a finding: written in the default format, with
    a line that is not negative, a type that is a word, a code that is a
    word of two characters or more and ends with a digit, and a message
    of one line, and with the line, the column and the column less the
    offset within [2^53], it is read back as it was written, but for the
    column, which is [column - k] when positive and 0 otherwise. *)
Lemma parseLine_format (line : nat) (column k : Z) (linterID message : string)
      (t c d : ascii) (type' body : string) :
  is_word t = true -> all is_word type' = true ->
  is_word c = true -> all is_word body = true -> is_digit d = true ->
  all dot message = true ->
  Z.of_nat line <= 2 ^ 53 -> Z.abs column <= 2 ^ 53 ->
  Z.abs (column - k) <= 2 ^ 53 ->
  parseLine (format line column (String t type')
                    (String c (body ++ String d "")) message)
            (Compiled REGEX) linterID k
  = Normal (Some
      {| ILintMessage.code := Some (String c (body ++ String d ""));
         ILintMessage.message := Some message;
         ILintMessage.column := Int (if 0 <? column then column - k else 0);
         ILintMessage.line := Int (Z.of_nat line);
         ILintMessage.type := Some (String t type');
         ILintMessage.provider := linterID;
         ILintMessage.file := None |}).
Proof.
  intros Ht Ht' Hc Hb Hd Hm Bl Bc Bk. unfold parseLine, matchNamedRegEx.
  rewrite REGEX_reads_format by assumption.
  match goal with
  | |- context [groups ?caps] =>
      change (groups caps)
        with (IRegexGroup.mk (Some (decimal line))
                (Some (signed_decimal column))
                (Some (String c (body ++ String d "")))
                (Some message) (Some (String t type')) None)
  end.
  cbn [IRegexGroup.line IRegexGroup.column IRegexGroup.code
       IRegexGroup.message IRegexGroup.type IRegexGroup.file].
  rewrite Number_decimal, Number_signed_decimal.
  rewrite (double_safe (Z.of_nat line)) by lia.
  rewrite (double_safe column) by assumption.
  cbn [nan_or_nonpositive].
  destruct (Z.leb_spec column 0); destruct (Z.ltb_spec 0 column); try lia;
    [reflexivity|].
  now rewrite minus_safe.
Qed.

Section Batch.

Variable this : BaseLinter.
Variable regEx : Pattern.

Let limit : nat := Z.to_nat (Z.max (maxNumberOfProblems this) 1).

(** The loop adds the matching lines to the messages it has, up to the
    limit, which is the configured maximum or 1 if that is less. *)
Lemma parseMessages_loop_spec (outputLines : list string) :
  forall messages ch,
    Z.of_nat (List.length messages) < maxNumberOfProblems this
    \/ messages = [] ->
    fst (parseMessages_loop this regEx outputLines messages ch)
    = (messages
         ++ firstn (limit - List.length messages)
                   (matching this regEx outputLines))%list.
Proof.
  induction outputLines as [|line rest IH]; intros messages ch Hinv.
  - simpl. now rewrite firstn_nil, app_nil_r.
  - cbn [parseMessages_loop matching flat_map].
    destruct (parseLine line regEx (id (info this)) (columnOffset this))
      as [[msg|]|err]; cbn [app]; try (apply IH; assumption).
    assert (Hn : exists n, (limit - List.length messages)%nat = S n).
    { exists (limit - List.length messages - 1)%nat. subst limit.
      destruct Hinv as [Hlt| ->]; simpl List.length; lia. }
    destruct Hn as [n Hn]. rewrite Hn. cbn [firstn].
    rewrite length_app. cbn [List.length].
    destruct (Z.geb_spec (Z.of_nat (List.length messages + 1))
                         (maxNumberOfProblems this)) as [Hge|Hlt].
    + assert (n = 0%nat) as ->.
      { subst limit. destruct Hinv as [Hlt| ->];
          simpl List.length in *; lia. }
      reflexivity.
    + rewrite IH by (left; rewrite length_app; simpl; lia).
      rewrite <- app_assoc, length_app. cbn [List.length app].
      replace (limit - (List.length messages + 1))%nat with n by lia.
      reflexivity.
Qed.

(** The messages are the first matching lines, in the order of the
    output, up to the limit. *)
Lemma parseMessages_first_matches (output : string) (ch : OutputChannel) :
  fst (parseMessages this output regEx ch)
  = Normal (firstn limit (matching this regEx (splitLines output))).
Proof.
  unfold parseMessages.
  pose proof (parseMessages_loop_spec (splitLines output) [] ch
                                      (or_intror eq_refl)) as H.
  destruct (parseMessages_loop this regEx (splitLines output) [] ch)
    as [messages ch'].
  simpl in H. subst messages. simpl. now rewrite Nat.sub_0_r.
Qed.

Lemma parseMessages_bound (output : string) (ch : OutputChannel) :
  exists messages,
    fst (parseMessages this output regEx ch) = Normal messages
    /\ Z.of_nat (List.length messages)
       <= Z.max (maxNumberOfProblems this) 1.
Proof.
  rewrite parseMessages_first_matches. eexists. split; [reflexivity|].
  rewrite length_firstn. subst limit. lia.
Qed.



End Batch.

(** Lines with a field missing or a line number that is no number do
    not match. *)
Example malformed_lines_do_not_match :
  parseLine "12,3,Error" (Compiled REGEX) "flake8" 1 = Normal None
  /\ parseLine "abc,3,Error,E501:x" (Compiled REGEX) "flake8" 1 = Normal None
  /\ parseLine "" (Compiled REGEX) "flake8" 1 = Normal None.
Proof.
  repeat split; reflexivity.
Qed.

(** A pattern that the engine rejects makes every line throw; the loop
    logs each line and goes on, with no message. *)
Example malformed_pattern_is_logged :
  parseMessages (flake8 100) ("a" ++ String LF "b") (Malformed "bad") []
  = (Normal [],
     [("########## Linter flake8 failed to parse the line:"
         ++ String LF "")%string;
      ("a" ++ String LF "")%string; ("bad" ++ String LF "")%string;
      ("########## Linter flake8 failed to parse the line:"
         ++ String LF "")%string;
      ("b" ++ String LF "")%string; ("bad" ++ String LF "")%string]).
Proof.
  reflexivity.
Qed.


(** C3 at the maximum 0: the one matching line of the output is
    returned, one message more than the maximum allows. *)
Theorem parseMessages_over_zero_limit :
  maxNumberOfProblems (flake8 0) = 0
  /\ parseMessages (flake8 0) "1,1,Error,E501:x" (Compiled REGEX) []
     = (Normal [{| ILintMessage.code := Some "E501";
                   ILintMessage.message := Some "x";
                   ILintMessage.column := Int 0;
                   ILintMessage.line := Int 1;
                   ILintMessage.type := Some "Error";
                   ILintMessage.provider := "flake8";
                   ILintMessage.file := None |}],
        []).
Proof.
  split; reflexivity.
Qed.

(** C7.  When the tool is enabled and its execution fails, [run] returns
    the empty sequence normally; the failure goes to the output channel
    (with the message of the error, if it is an [Error]) after the
    lines that announce the run. *)
Theorem run_execution_failure
        (exec : ExecutionInfo -> Completion string)
        (stringify : ExecutionInfo -> string)
        (this : BaseLinter) (args : list string) (uri : string)
        (regEx : Pattern) (ch : OutputChannel) (error : Thrown) :
  isEnabled (info this) uri = true ->
  exec (getExecutionInfo (info this) args uri) = Throw error ->
  run exec stringify this args uri regEx ch
  = (Normal [],
     (ch ++ [(hashes ++ " Run linter " ++ id (info this) ++ ":"
                ++ String LF "")%string;
             (stringify (getExecutionInfo (info this) args uri)
                ++ String LF "")%string;
             String LF "";
             ("Linting with " ++ id (info this) ++ " failed:"
                ++ String LF "")%string]
         ++ match error with
            | ThrownError m => [(m ++ String LF "")%string]
            | _ => []
            end)%list).
Proof.
  intros Henabled Hexec. unfold run. rewrite Henabled, Hexec.
  cbn [negb]. unfold appendLine. f_equal.
  rewrite !ReFacts.append_assoc.
  destruct error; rewrite <- ?app_assoc; reflexivity.
Qed.

Lemma run_execution_failure_witness :
  let exec := fun _ : ExecutionInfo =>
                @Throw string (ThrownError "spawn flake8 ENOENT") in
  let stringify := fun i : ExecutionInfo => execPath i in
  isEnabled (info (flake8 100)) "file:///a.py" = true
  /\ exec (getExecutionInfo (info (flake8 100)) [] "file:///a.py")
     = Throw (ThrownError "spawn flake8 ENOENT")
  /\ fst (run exec stringify (flake8 100) [] "file:///a.py"
              (Compiled REGEX) [])
     = Normal [].
Proof.
  intros exec stringify.
  split; [reflexivity|]. split; [reflexivity|].
  rewrite (run_execution_failure exec stringify (flake8 100) []
             "file:///a.py" (Compiled REGEX) []
             (ThrownError "spawn flake8 ENOENT")
             eq_refl eq_refl).
  reflexivity.
Defined.

End LinterFacts.

(** ** The refactor worker session *)

Module RefactorFacts.
Import JS Common Json Refactor.

Section Session.

Variable JSON_parse : string -> option JSON.
Variable coerce : option JSON -> string.

Local Abbreviation onData := (Refactor.onData JSON_parse).
Local Abbreviation feed := (Refactor.feed JSON_parse).
Local Abbreviation parse_lines := (Refactor.parse_lines JSON_parse).
Local Abbreviation incomplete := (Refactor.incomplete JSON_parse).
Local Abbreviation handleStdError :=
  (Refactor.handleStdError JSON_parse coerce).

Lemma feed_cons (data : string) (rest : list string) (st : State) :
  feed (data :: rest) st = feed rest (snd (onData data st)).
Proof. reflexivity. Qed.

Lemma feed_last (chunks : list string) (last : string) (st : State) :
  feed (chunks ++ [last]) st = snd (onData last (feed chunks st)).
Proof. unfold Refactor.feed. now rewrite fold_left_app. Qed.

(** A chunk that leaves a line of the buffer unparsed is kept in the
    buffer, and nothing else changes. *)
Lemma onData_partial (this : RefactorProxy) (w : World) (resolve : nat)
      (data : string) :
  _commandResolve this = Some resolve ->
  parse_lines (_previousOutData this ++ data) = None ->
  onData data (this, w)
  = (Normal tt,
     (set_previousOutData (_previousOutData this ++ data) this, w)).
Proof.
  intros Hres Hparse. unfold Refactor.onData. now rewrite Hres, Hparse.
Qed.

(** A chunk that makes every line of the buffer parse ends the
    command. *)
Lemma onData_complete (this : RefactorProxy) (w : World) (resolve : nat)
      (data : string) (response : list JSON) :
  _commandResolve this = Some resolve ->
  parse_lines (_previousOutData this ++ data) = Some response ->
  onData data (this, w)
  = (Normal tt,
     (set_commandResolve None
        (set_process None (set_previousOutData "" this)),
      mkWorld (settle resolve (Resolved (hd_error response)) (promises w))
              (spawned w) (killed w ++ process_list this)%list
              (stdin w) (suspended w))).
Proof.
  intros Hres Hparse. unfold Refactor.onData. rewrite Hres, Hparse.
  unfold dispose, process_list. destruct this as [[pid|] o e s r j i];
    cbn; [reflexivity|].
  rewrite app_nil_r. destruct w; reflexivity.
Qed.

Lemma feed_incomplete (chunks : list string) :
  forall (this : RefactorProxy) (w : World) (resolve : nat),
    _commandResolve this = Some resolve ->
    incomplete (_previousOutData this) chunks ->
    feed chunks (this, w)
    = (set_previousOutData (_previousOutData this ++ join chunks) this, w).
Proof.
  induction chunks as [|data rest IH]; intros this w resolve Hres Hinc.
  - cbn. rewrite ReFacts.append_empty_r. destruct this; reflexivity.
  - destruct Hinc as [Hparse Hinc]. rewrite feed_cons.
    rewrite (onData_partial this w resolve data Hres Hparse).
    cbn [snd].
    rewrite (IH _ w resolve); [|exact Hres|exact Hinc].
    cbn [join]. rewrite <- ReFacts.append_assoc.
    destruct this; reflexivity.
Qed.

(** A response in several chunks.  While a command waits, chunks whose
    accumulated text has a line that does not parse only grow the
    buffer: the session and the promise of the command are as before.
    With the chunk that makes every non-empty line of the accumulated
    text parse, when there is such a line, the buffer is emptied, the
    subprocess is killed, the continuation is dropped and the promise of
    the command is resolved with the first record. *)
Theorem onData_chunked_response
        (this : RefactorProxy) (w : World) (resolve : nat)
        (chunks : list string) (last : string)
        (record : JSON) (more : list JSON) :
  _commandResolve this = Some resolve ->
  incomplete (_previousOutData this) chunks ->
  parse_lines (_previousOutData this ++ join chunks ++ last)
  = Some (record :: more) ->
  feed chunks (this, w)
  = (set_previousOutData (_previousOutData this ++ join chunks) this, w)
  /\ feed (chunks ++ [last]) (this, w)
     = (set_commandResolve None
          (set_process None (set_previousOutData "" this)),
        mkWorld (settle resolve (Resolved (Some record)) (promises w))
                (spawned w) (killed w ++ process_list this)%list
                (stdin w) (suspended w)).
Proof.
  intros Hres Hinc Hparse.
  pose proof (feed_incomplete chunks this w resolve Hres Hinc) as Hfeed.
  split; [exact Hfeed|].
  rewrite feed_last, Hfeed.
  rewrite (onData_complete _ w resolve last (record :: more)).
  - destruct this; reflexivity.
  - exact Hres.
  - cbn. now rewrite ReFacts.append_assoc.
Qed.

Lemma split_eol_nonempty (s : string) : split_eol s <> [].
Proof.
  destruct s as [|c s]; cbn [split_eol]; [discriminate|].
  destruct (Ascii.eqb c LF); [discriminate|].
  destruct s as [|c' s'].
  - cbn. discriminate.
  - destruct (Ascii.eqb c CR && Ascii.eqb c' LF)%bool; [discriminate|].
    unfold cons_head. destruct (split_eol (String c' s')); discriminate.
Qed.

Lemma pop_last {A : Type} (l : list A) (d : A) :
  l <> [] -> pop l = Some (List.last l d).
Proof.
  induction l as [|x l IH]; [congruence|]. intros _.
  destruct l as [|y l]; [reflexivity|].
  cbn [pop List.last]. apply IH. discriminate.
Qed.

(** The summary of a record with no usable message is the last line of
    its traceback. *)
Lemma summary_of_traceback (members : list (string * JSON))
      (traceback : string) :
  nonempty_string (lookup "message" members) = None ->
  lookup "traceback" members = Some (JString traceback) ->
  summary coerce (Some (JObject members))
  = Normal (List.last (splitLines traceback) "").
Proof.
  intros Hm Ht. unfold summary. cbn [get]. rewrite Hm, Ht.
  rewrite (pop_last _ "") by apply split_eol_nonempty. reflexivity.
Qed.

(** C4, as amended.  Before the ready sentinel, when the standard error
    accumulates into lines that all parse and the first record is an
    object that has a message that is a string and not empty, or else a
    traceback that is a string: the startup fails as [Not installed]
    exactly when the [type] of the record is the string
    [ModuleNotFoundError]; with any other type, or none, it fails with
    [Refactor failed.], the summary (the message, or else the last line
    of the traceback) and the traceback.  The buffer is emptied in both
    cases. *)
Theorem handleStdError_before_start
        (this : RefactorProxy) (w : World) (d : nat) (data : string)
        (members : list (string * JSON)) (rest : list JSON)
        (message : string) :
  _startedSuccessfully this = false ->
  initialized this = Some d ->
  parse_lines (_previousStdErrData this ++ data)
  = Some (JObject members :: rest) ->
  (nonempty_string (lookup "message" members) = Some message
   \/ (nonempty_string (lookup "message" members) = None
       /\ exists traceback,
           lookup "traceback" members = Some (JString traceback)
           /\ message = List.last (splitLines traceback) "")) ->
  handleStdError data (this, w)
  = (Normal tt,
     (set_previousStdErrData "" this,
      set_promises
        (settle d
           (Rejected
              (ThrownString
                 (if is_string "ModuleNotFoundError" (lookup "type" members)
                  then "Not installed"
                  else "Refactor failed. " ++ message ++ String LF ""
                         ++ to_string coerce (lookup "traceback" members))))
           (promises w))
        w)).
Proof.
  intros Hstarted Hinit Hparse Hrecord.
  assert (Hsum : summary coerce (Some (JObject members)) = Normal message).
  { destruct Hrecord as [Hm | (Hm & traceback & Ht & ->)].
    - unfold summary. cbn [get]. now rewrite Hm.
    - now apply summary_of_traceback. }
  unfold Refactor.handleStdError.
  rewrite Hparse. cbn [hd_error]. rewrite Hsum. cbn [get].
  destruct this as [p o e st r j i]. cbn in Hstarted, Hinit. subst st i.
  cbn. destruct (is_string "ModuleNotFoundError" (lookup "type" members));
    reflexivity.
Qed.

(** C5, as amended.  While a command is outstanding, a record of the
    standard error whose message is absent, no string or empty, and whose
    traceback is a string, rejects the command with [Refactor failed.]
    followed by the last line of the traceback, a line feed and the whole
    traceback. *)
Theorem handleStdError_command_failure
        (this : RefactorProxy) (w : World) (r : nat) (data : string)
        (members : list (string * JSON)) (rest : list JSON)
        (traceback : string) :
  _startedSuccessfully this = true ->
  _commandReject this = Some r ->
  parse_lines (_previousStdErrData this ++ data)
  = Some (JObject members :: rest) ->
  nonempty_string (lookup "message" members) = None ->
  lookup "traceback" members = Some (JString traceback) ->
  handleStdError data (this, w)
  = (Normal tt,
     (set_previousStdErrData "" this,
      set_promises
        (settle r
           (Rejected
              (ThrownString
                 ("Refactor failed. "
                    ++ List.last (splitLines traceback) ""
                    ++ String LF "" ++ traceback)))
           (promises w))
        w)).
Proof.
  intros Hstarted Hreject Hparse Hm Ht. unfold Refactor.handleStdError.
  rewrite Hparse. cbn [hd_error].
  rewrite (summary_of_traceback members traceback Hm Ht).
  cbn [get]. rewrite Ht.
  destruct this as [p o e st res j i]. cbn in Hstarted, Hreject. subst st j.
  reflexivity.
Qed.

End Session.

Lemma onData_chunked_response_witness :
  let this := fst busy_session in
  let w := snd busy_session in
  let chunks := [text "{'results'"] in
  let last := text ":[{'diff':'x'}]}" ++ String LF "" in
  let record := JObject [("results", JArray [JObject [("diff", JString "x")]])] in
  _commandResolve this = Some 0%nat
  /\ incomplete Json.parse (_previousOutData this) chunks
  /\ parse_lines Json.parse (_previousOutData this ++ join chunks ++ last)
     = Some [record]
  /\ feed Json.parse chunks (this, w)
     = (set_previousOutData (_previousOutData this ++ join chunks) this, w)
  /\ feed Json.parse (chunks ++ [last]) (this, w)
     = (set_commandResolve None
          (set_process None (set_previousOutData "" this)),
        mkWorld (settle 0 (Resolved (Some record)) (promises w))
                (spawned w) (killed w ++ process_list this)%list
                (stdin w) (suspended w)).
Proof.
  intros this w chunks last record.
  split; [reflexivity|]. split; [split; [reflexivity|exact I]|].
  split; [reflexivity|].
  apply (onData_chunked_response Json.parse this w 0 chunks last record []).
  - reflexivity.
  - split; [reflexivity|exact I].
  - reflexivity.
Defined.

(** C1 at a chunk that is a line feed.  The buffer then has no line that
    is not empty, so nothing of it is a record; all the same the command
    is resolved, with [undefined], the continuation is dropped and the
    subprocess is killed, and the response that comes after it is not
    delivered.  The line feed of the ready sentinel, read apart from the
    sentinel, is such a chunk. *)
Theorem blank_chunk_ends_the_command :
  let blank := String LF "" in
  let response := text "{'results':[{'diff':'x'}]}" ++ String LF "" in
  let st := deliver Json.parse no_coercion (Output stdout blank) busy_session in
  non_empty (split_eol blank) = []
  /\ nth_error (promises (snd busy_session)) 0 = Some Pending
  /\ nth_error (promises (snd st)) 0 = Some (Resolved None)
  /\ _commandResolve (fst st) = None
  /\ killed (snd st) = [0%nat]
  /\ deliver Json.parse no_coercion (Output stdout response) st = st
  /\ deliver Json.parse no_coercion (Output stdout blank)
             (deliver Json.parse no_coercion (Output stdout "STARTED")
                      (open_session "{}"))
     = st.
Proof.
  repeat split; reflexivity.
Qed.

(** The two writes of the scenario, through the subscription of
    [initialize]: the promise of the command ends resolved with the
    record, the subprocess killed. *)
Example two_writes_resolve_the_command :
  let st :=
    deliver Json.parse no_coercion
      (Output stdout (text ":[{'diff':'x'}]}" ++ String LF ""))
      (deliver Json.parse no_coercion (Output stdout (text "{'results'"))
               busy_session) in
  nth_error (promises (snd st)) 0
  = Some (Resolved
            (Some (JObject
                     [("results", JArray [JObject [("diff", JString "x")]])])))
  /\ _previousOutData (fst st) = ""
  /\ killed (snd st) = [0%nat].
Proof.
  repeat split; reflexivity.
Qed.

Lemma handleStdError_before_start_witness :
  let this := fst (open_session "{}") in
  let w := snd (open_session "{}") in
  let data :=
    text "{'message':'','traceback':'Traceback...\nModuleNotFoundError: no module rope','type':'ModuleNotFoundError'}" in
  let traceback :=
    "Traceback..." ++ String LF "ModuleNotFoundError: no module rope" in
  let members :=
    [("message", JString ""); ("traceback", JString traceback);
     ("type", JString "ModuleNotFoundError")] in
  let message := "ModuleNotFoundError: no module rope" in
  _startedSuccessfully this = false
  /\ initialized this = Some 1%nat
  /\ parse_lines Json.parse (_previousStdErrData this ++ data)
     = Some [JObject members]
  /\ nonempty_string (lookup "message" members) = None
  /\ lookup "traceback" members = Some (JString traceback)
  /\ message = List.last (splitLines traceback) ""
  /\ handleStdError Json.parse no_coercion data (this, w)
     = (Normal tt,
        (set_previousStdErrData "" this,
         set_promises
           (settle 1 (Rejected (ThrownString "Not installed")) (promises w))
           w)).
Proof.
  intros this w data traceback members message.
  split; [reflexivity|]. split; [reflexivity|]. split; [reflexivity|].
  split; [reflexivity|]. split; [reflexivity|]. split; [reflexivity|].
  exact (handleStdError_before_start
           Json.parse no_coercion this w 1 data members [] message
           eq_refl eq_refl eq_refl
           (or_intror
              (conj eq_refl
                    (ex_intro _ traceback (conj eq_refl eq_refl))))).
Defined.

(** A record with the type and nothing else: the handler throws where it
    splits the traceback, and the startup is not failed at all. *)
Example startup_record_with_type_only :
  let st :=
    deliver Json.parse no_coercion
      (Output stderr (text "{'type':'ModuleNotFoundError'}"))
      (open_session "{}") in
  fst (handleStdError Json.parse no_coercion
         (text "{'type':'ModuleNotFoundError'}") (open_session "{}"))
  = Throw TypeError
  /\ promises (snd st) = [Pending; Pending].
Proof.
  split; reflexivity.
Qed.

(** C4 as stated fails: the record of the scenario has no [type], and the
    startup, with the command that waits for it, fails with the text that
    begins with [Refactor failed.], not with [Not installed]. *)
Lemma startup_record_without_type :
  let st :=
    deliver Json.parse no_coercion
      (Output stderr
         (text "{'message':'','traceback':'Traceback...\nModuleNotFoundError: no module rope'}"))
      (open_session "{}") in
  let generic :=
    ThrownString
      ("Refactor failed. ModuleNotFoundError: no module rope"
         ++ String LF "Traceback..."
         ++ String LF "ModuleNotFoundError: no module rope") in
  initialized (fst st) = Some 1%nat
  /\ _startedSuccessfully (fst st) = false
  /\ nth_error (promises (snd st)) 1 = Some (Rejected generic)
  /\ nth_error (promises (snd st)) 0 = Some (Rejected generic)
  /\ generic <> ThrownString "Not installed".
Proof.
  repeat split; try reflexivity. discriminate.
Qed.

(** Read with a line break in place of the escape, the text of the
    scenario is two lines that do not parse: the startup stays pending
    and the text stays in the buffer. *)
Example startup_record_with_line_break :
  let data :=
    text "{'message':'','traceback':'Traceback..." ++ String LF ""
      ++ text "ModuleNotFoundError: no module rope'}" in
  let st :=
    deliver Json.parse no_coercion (Output stderr data) (open_session "{}") in
  promises (snd st) = [Pending; Pending]
  /\ _previousStdErrData (fst st) = data.
Proof.
  split; reflexivity.
Qed.

Lemma handleStdError_command_failure_witness :
  let this := fst busy_session in
  let w := snd busy_session in
  let data := text "{'traceback':'first\nsecond'}" in
  let traceback := "first" ++ String LF "second" in
  let members := [("traceback", JString traceback)] in
  _startedSuccessfully this = true
  /\ _commandReject this = Some 0%nat
  /\ parse_lines Json.parse (_previousStdErrData this ++ data)
     = Some [JObject members]
  /\ nonempty_string (lookup "message" members) = None
  /\ lookup "traceback" members = Some (JString traceback)
  /\ handleStdError Json.parse no_coercion data (this, w)
     = (Normal tt,
        (set_previousStdErrData "" this,
         set_promises
           (settle 0
              (Rejected
                 (ThrownString
                    ("Refactor failed. "
                       ++ List.last (splitLines traceback) ""
                       ++ String LF "" ++ traceback)))
              (promises w))
           w)).
Proof.
  intros this w data traceback members.
  split; [reflexivity|]. split; [reflexivity|]. split; [reflexivity|].
  split; [reflexivity|]. split; [reflexivity|].
  apply (handleStdError_command_failure
           Json.parse no_coercion this w 0 data members [] traceback);
    reflexivity.
Defined.

(** C5 as stated fails: for a record with the traceback of two lines
    [first] and [second] and no message, the summary is [second], the
    last line, and the command is rejected with a text that starts with
    [Refactor failed.]; it is not rejected with the first line, a line
    feed and the traceback. *)
Lemma summary_is_not_the_first_line :
  let traceback := "first" ++ String LF "second" in
  let st :=
    deliver Json.parse no_coercion
      (Output stderr (text "{'traceback':'first\nsecond'}")) busy_session in
  summary no_coercion (Some (JObject [("traceback", JString traceback)]))
  = Normal "second"
  /\ nth_error (promises (snd st)) 0
     = Some (Rejected
               (ThrownString
                  ("Refactor failed. second" ++ String LF "" ++ traceback)))
  /\ nth_error (promises (snd st)) 0
     <> Some (Rejected
                (ThrownString ("first" ++ String LF "" ++ traceback))).
Proof.
  repeat split; try reflexivity. discriminate.
Qed.

Section Invariant.

Variable JSON_parse : string -> option JSON.
Variable coerce : option JSON -> string.

Lemma handler_frame_refl (st : State) : handler_frame st st.
Proof. unfold handler_frame. auto. Qed.

Lemma reject_frame (p : option nat) (reason : Thrown) (st : State) :
  handler_frame st (snd (reject p reason st)).
Proof.
  destruct st as [this w]. unfold reject.
  destruct p; cbn; unfold handler_frame; cbn; auto.
Qed.

Lemma onData_frame (data : string) (st : State) :
  handler_frame st (snd (onData JSON_parse data st)).
Proof.
  destruct st as [this w]. unfold onData.
  destruct (_commandResolve this) as [resolve|] eqn:Hres;
    [|apply handler_frame_refl].
  destruct (parse_lines JSON_parse (_previousOutData this ++ data)).
  - unfold handler_frame, dispose. cbn.
    destruct (_process this); cbn; auto.
  - unfold handler_frame. cbn. auto.
Qed.

Lemma handleStdError_frame (data : string) (st : State) :
  handler_frame st (snd (handleStdError JSON_parse coerce data st)).
Proof.
  destruct st as [this w]. unfold handleStdError.
  destruct (parse_lines JSON_parse (_previousStdErrData this ++ data))
    as [errorResponse|]; [|unfold handler_frame; cbn; auto].
  destruct (summary coerce (hd_error errorResponse));
    [|unfold handler_frame; cbn; auto].
  destruct (get (hd_error errorResponse) "traceback");
    [|unfold handler_frame; cbn; auto].
  match goal with
  | |- context [if ?b then _ else _] => destruct b
  end.
  - match goal with
    | |- handler_frame _ (snd (reject ?p ?r (?t, w))) =>
        pose proof (reject_frame p r (t, w)) as H
    end.
    unfold handler_frame in *. cbn in *. exact H.
  - destruct (get (hd_error errorResponse) "type");
      [|unfold handler_frame; cbn; auto].
    match goal with
    | |- context [if ?b then _ else _] => destruct b
    end;
      match goal with
      | |- handler_frame _ (snd (reject ?p ?r (?t, w))) =>
          pose proof (reject_frame p r (t, w)) as H
      end;
      unfold handler_frame in *; cbn in *; exact H.
Qed.

Lemma handleError_frame (error : Thrown) (st : State) :
  handler_frame st (snd (handleError error st)).
Proof.
  destruct st as [this w]. unfold handleError.
  destruct (_startedSuccessfully this); apply reject_frame.
Qed.

Lemma on_output_frame (source : Source) (out : string) (st : State) :
  handler_frame st (snd (on_output JSON_parse coerce source out st)).
Proof.
  destruct st as [this w]. unfold on_output. destruct source.
  - match goal with
    | |- context [if ?b then _ else _] => destruct b
    end.
    + destruct this as [p o e s r j [d|]]; unfold handler_frame; cbn; auto.
    + apply onData_frame.
  - apply handleStdError_frame.
Qed.

(** The calls that go on after a handler: each one leaves the waiting list
    and writes one command at most. *)
Lemma run_calls_spec (calls : list Call) :
  forall st : State,
    spawned (snd (run_calls calls st)) = spawned (snd st)
    /\ (List.length (stdin (snd (run_calls calls st)))
        + List.length (suspended (snd (run_calls calls st)))
        <= List.length (stdin (snd st)) + List.length (suspended (snd st))
           + List.length calls)%nat
    /\ (forall P : Call -> Prop,
          Forall P calls -> Forall P (suspended (snd st)) ->
          Forall P (suspended (snd (run_calls calls st))))
    /\ (_commandResolve (fst (run_calls calls st)) = _commandResolve (fst st)
        \/ exists c, In c calls
                     /\ _commandResolve (fst (run_calls calls st))
                        = Some (result c)).
Proof.
  induction calls as [|c rest IH]; intros [this w].
  - cbn. repeat split; auto. lia.
  - cbn [run_calls].
    destruct (nth_error (promises w) (awaits c)) as [[| v | reason]|].
    + destruct (IH (this, w)) as (H1 & H2 & H3 & H4).
      destruct (run_calls rest (this, w)) as [this' w'] eqn:E.
      cbn in *. repeat split; auto.
      * lia.
      * intros P HP Hs. inversion HP; subst. constructor; auto.
      * destruct H4 as [H4 | (c' & Hin & H4)]; eauto.
    + destruct (IH (resume c (this, w))) as (H1 & H2 & H3 & H4).
      assert (R : spawned (snd (resume c (this, w))) = spawned w
                  /\ (List.length (stdin (snd (resume c (this, w))))
                      <= List.length (stdin w) + 1)%nat
                  /\ suspended (snd (resume c (this, w))) = suspended w
                  /\ _commandResolve (fst (resume c (this, w)))
                     = Some (result c)).
      { unfold resume. cbn. destruct (_process this); cbn;
          repeat split; auto; try lia.
        rewrite length_app. cbn. lia. }
      destruct R as (R1 & R2 & R3 & R4).
      cbn [fst snd List.length]. repeat split.
      * congruence.
      * rewrite R3 in H2. lia.
      * intros P HP Hs. inversion HP; subst. apply H3; auto.
        now rewrite R3.
      * right. destruct H4 as [H4 | (c' & Hin & H4)].
        -- exists c. split; [now left | congruence].
        -- exists c'. split; [now right | assumption].
    + destruct (IH (this,
                    set_promises
                      (settle (result c) (Rejected reason) (promises w)) w))
        as (H1 & H2 & H3 & H4).
      cbn [fst snd List.length] in *. repeat split; auto.
      * cbn in H2. lia.
      * intros P HP Hs. inversion HP; subst. apply H3; auto.
      * destruct H4 as [H4 | (c' & Hin & H4)]; eauto.
        right. exists c'. split; [now right | assumption].
    + destruct (IH (this, w)) as (H1 & H2 & H3 & H4).
      destruct (run_calls rest (this, w)) as [this' w'] eqn:E.
      cbn in *. repeat split; auto.
      * lia.
      * intros P HP Hs. inversion HP; subst. constructor; auto.
      * destruct H4 as [H4 | (c' & Hin & H4)]; eauto.
Qed.

Lemma deliver_one_command (e : Event) (st : State) :
  one_command st -> one_command (deliver JSON_parse coerce e st).
Proof.
  intros (Hsp & Hlen & Hall & Hres). unfold deliver.
  assert (F : handler_frame st
                (snd match e with
                     | Output source out =>
                         on_output JSON_parse coerce source out st
                     | Fault error => handleError error st
                     end)).
  { destruct e; [apply on_output_frame | apply handleError_frame]. }
  destruct (snd match e with
                | Output source out =>
                    on_output JSON_parse coerce source out st
                | Fault error => handleError error st
                end) as [this1 w1].
  destruct F as (F1 & F2 & F3 & F4). cbn [fst snd] in *.
  unfold run_microtasks.
  destruct (run_calls_spec (suspended w1) (this1, set_suspended [] w1))
    as (H1 & H2 & H3 & H4).
  cbn [fst snd set_suspended spawned stdin suspended List.length] in *.
  unfold one_command. repeat split.
  - congruence.
  - rewrite <- F2, <- F3 in Hlen. lia.
  - apply H3; [rewrite F3; assumption | constructor].
  - destruct H4 as [H4 | (c & Hin & H4)].
    + rewrite H4. destruct F4 as [F4|F4]; rewrite F4; auto.
    + right. rewrite H4. f_equal. rewrite F3 in Hin.
      rewrite Forall_forall in Hall. now apply Hall.
Qed.

Lemma open_session_one_command (command : string) :
  one_command (open_session command).
Proof.
  unfold one_command. cbn. repeat split; auto.
Qed.

Lemma update_Forall (P : State -> Prop) (f : State -> State) :
  (forall st, P st -> P (f st)) ->
  forall (l : list State) (n : nat), Forall P l -> Forall P (update n f l).
Proof.
  intros Hf. induction l as [|st l IH]; intros n H.
  - destruct n; constructor.
  - inversion H; subst. destruct n; cbn; constructor; auto.
Qed.

Lemma step_one_command (sessions : list State) (a : Action) :
  Forall one_command sessions ->
  Forall one_command (step JSON_parse coerce sessions a).
Proof.
  intros H. destruct a as [command | n e]; cbn [step].
  - apply Forall_app. split; [assumption|].
    constructor; [apply open_session_one_command | constructor].
  - apply update_Forall; [|assumption].
    intros st. apply deliver_one_command.
Qed.

Lemma fold_step_one_command (actions : list Action) :
  forall sessions,
    Forall one_command sessions ->
    Forall one_command (fold_left (step JSON_parse coerce) actions sessions).
Proof.
  induction actions as [|a actions IH]; intros sessions H; cbn.
  - assumption.
  - apply IH. now apply step_one_command.
Qed.

(** C6.  Whatever the commands that are invoked and whatever the
    subprocesses send, in whatever order: each session of the module has
    started one subprocess, that is, it was sent one command; that
    command was written at most once; and the continuation the session
    holds is none, or the one of this command.  No second command
    reaches a session, none can replace the continuation of the first. *)
Theorem one_command_in_flight (actions : list Action) :
  Forall
    (fun st : State =>
       spawned (snd st) = 1%nat
       /\ (List.length (stdin (snd st)) <= 1)%nat
       /\ (_commandResolve (fst st) = None
           \/ _commandResolve (fst st) = Some 0%nat))
    (run_actions JSON_parse coerce actions).
Proof.
  unfold run_actions.
  pose proof (fold_step_one_command actions [] (Forall_nil _)) as H.
  eapply Forall_impl; [|exact H].
  intros st (Hsp & Hlen & _ & Hres). repeat split; auto. lia.
Qed.

End Invariant.

(** The class has no guard of its own: a second [sendCommand] on a
    session starts a second subprocess and leaves two calls waiting.  No
    code of the module makes that call; each command has its session. *)
Example second_sendCommand_is_not_refused :
  let st := snd (sendCommand "second" (open_session "first")) in
  spawned (snd st) = 2%nat /\ List.length (suspended (snd st)) = 2%nat.
Proof.
  split; reflexivity.
Qed.

End RefactorFacts.

(** ** Offsets and the application of a diff *)

Module OperationsFacts.
Import JS Operations.

(** On a Windows host the offset is the one of the document. *)
Lemma getOffsetAt_on_windows (document : TextDocument) (position : Position) :
  getOffsetAt true document position = Z.of_nat (offsetAt document position).
Proof. reflexivity. Qed.

(** On any other host the offset is lowered by one for each CR LF before
    it. *)
Lemma getOffsetAt_elsewhere (document : TextDocument) (position : Position) :
  getOffsetAt false document position
  = Z.of_nat (offsetAt document position)
    - Z.of_nat (getWindowsLineEndingCount document
                  (offsetAt document position)).
Proof. reflexivity. Qed.

(** C9 on a Windows host, for a document with a CR LF before the
    position: the offset of the document is 3 and one CR LF stands before
    it, but the result is 3, not 2; the reduction is made on the other
    hosts only. *)
Theorem getOffsetAt_windows_keeps_crlf :
  let document := document_of ("a" ++ String CR (String LF "b")) in
  let position := {| line := 1; character := 0 |} in
  offsetAt document position = 3%nat
  /\ getWindowsLineEndingCount document 3 = 1%nat
  /\ getOffsetAt true document position = 3
  /\ getOffsetAt false document position = 2.
Proof.
  repeat split; reflexivity.
Qed.

Section Apply.

Variable getTextEditsFromPatch :
  string -> string -> Completion (list TextEdit).
Variable applyEdits : list string -> list TextEdit -> Completion (list string).
Variable getDocumentContent : list string -> string.
Variable jumpTo : option Position -> Completion unit.

(** C10.  With the empty diff both functions return normally and leave
    the editor as it is: no edit is applied, the document keeps its
    lines, nothing is logged or shown, and there is no jump. *)
Theorem empty_diff_changes_nothing (newName : string) (ed : Editor) :
  applyImports getTextEditsFromPatch applyEdits getDocumentContent
               (Normal "") ed
  = (Normal Undefined, ed)
  /\ extractName getTextEditsFromPatch applyEdits getDocumentContent jumpTo
                newName (Normal "") ed
     = (Normal EmptyArray, ed).
Proof.
  split; reflexivity.
Qed.

(** Any other diff reaches the translation of the patch. *)
Lemma applyImports_translates (diff : string) (ed : Editor)
      (error : Thrown) :
  diff <> "" ->
  getTextEditsFromPatch (getDocumentContent (content ed)) diff = Throw error ->
  fst (applyImports getTextEditsFromPatch applyEdits getDocumentContent
                    (Normal diff) ed)
  = Throw error.
Proof.
  intros Hne Hthrow. unfold applyImports.
  destruct diff as [|c diff]; [congruence|]. cbn [is_empty].
  now rewrite Hthrow.
Qed.

End Apply.

End OperationsFacts.

(** ** More on the linter output pipeline *)

Module LinterLaws.
Import JS Common Re Linter ReFacts LinterFacts Notions.

Lemma parseLine_format_witness :
  is_word "E" = true /\ all is_word "rror" = true
  /\ is_word "E" = true /\ all is_word "50" = true /\ is_digit "1" = true
  /\ all dot "line too long" = true
  /\ Z.of_nat 12 <= 2 ^ 53 /\ Z.abs 7 <= 2 ^ 53 /\ Z.abs (7 - 1) <= 2 ^ 53
  /\ parseLine (format 12 7 "Error" "E501" "line too long")
               (Compiled REGEX) "flake8" 1
     = Normal (Some
         {| ILintMessage.code := Some "E501";
            ILintMessage.message := Some "line too long";
            ILintMessage.column := Int 6;
            ILintMessage.line := Int 12;
            ILintMessage.type := Some "Error";
            ILintMessage.provider := "flake8";
            ILintMessage.file := None |}).
Proof.
  do 6 (split; [reflexivity|]).
  do 3 (split; [vm_compute; discriminate|]).
  apply (parseLine_format 12 7 1 "flake8" "line too long" "E" "E" "1"
                          "rror" "50");
    try reflexivity; vm_compute; discriminate.
Defined.

(** X1.  The messages of an output are the messages of its matching
    lines, in the order of the lines, cut after the configured maximum,
    or after the first one when the maximum is below 1. *)
Theorem parseMessages_first_matching_lines
        (this : BaseLinter) (regEx : Pattern) (output : string)
        (ch : OutputChannel) :
  fst (parseMessages this output regEx ch)
  = Normal (firstn (Z.to_nat (Z.max (maxNumberOfProblems this) 1))
                   (matching this regEx (splitLines output))).
Proof.
  apply parseMessages_first_matches.
Qed.

Lemma all_app (p : ascii -> bool) (a b : string) :
  all p (a ++ b) = (all p a && all p b)%bool.
Proof.
  induction a as [|c a IH]; cbn [String.append all]; [reflexivity|].
  now rewrite IH, andb_assoc.
Qed.

Lemma all_digit_word (s : string) :
  all is_digit s = true -> all is_word s = true.
Proof.
  induction s as [|c s IH]; cbn [all]; [reflexivity|].
  intros H. apply andb_prop in H. destruct H as [Hc Hs].
  unfold is_word. rewrite Hc. cbn. now apply IH.
Qed.

Lemma last_char_app (a b : string) :
  b <> "" -> last_char (a ++ b) = last_char b.
Proof.
  intros Hb. induction a as [|c a IH]; [reflexivity|].
  cbn [String.append last_char]. rewrite IH.
  destruct (a ++ b) eqn:E; [|reflexivity].
  destruct a; cbn in E; [congruence | discriminate].
Qed.

Lemma last_char_all (p : ascii -> bool) (s : string) :
  s <> "" -> all p s = true -> exists d, last_char s = Some d /\ p d = true.
Proof.
  induction s as [|c s IH]; [congruence|]. intros _ H.
  cbn [all] in H. apply andb_prop in H. destruct H as [Hc Hs].
  destruct s as [|c' s'].
  - exists c. auto.
  - destruct (IH ltac:(discriminate) Hs) as (d & Hd & Hp).
    exists d. split; [exact Hd | exact Hp].
Qed.

(** What the groups of a match of the default pattern look like. *)
Lemma REGEX_capture_shapes (line : string) (caps : captures) :
  Re.exec REGEX line = Some caps ->
  exists l c t code m,
    caps = [("message", m); ("code", code); ("type", t); ("column", c);
            ("line", l)]
    /\ (l <> "" /\ all is_digit l = true)
    /\ (t <> "" /\ all is_word t = true)
    /\ ((2 <= String.length code)%nat /\ all is_word code = true
        /\ exists d, last_char code = Some d /\ is_digit d = true)
    /\ all dot m = true.
Proof.
  intros H. apply exec_sound in H.
  destruct H as (before & w & rest & _ & M).
  unfold REGEX, chr in M. cbn [Matches] in M. break.
  match goal with
  | H : (_ /\ _ = _) \/ _ |- _ => destruct H
  end; break; subst.
  all: do 5 eexists; split; [reflexivity|].
  all: repeat split; try assumption.
  all: try match goal with
           | |- (2 <= String.length (?a ++ ?b))%nat =>
               rewrite length_append;
               destruct a; [congruence|]; destruct b; [congruence|];
               cbn [String.length]; lia
           | |- all is_word (?a ++ ?b) = true =>
               rewrite all_app;
               apply andb_true_intro; split;
               [assumption | now apply all_digit_word]
           | |- exists d, last_char (?a ++ ?b) = Some d /\ _ =>
               rewrite last_char_app by assumption;
               now apply last_char_all
           end.
Qed.

(** What is taken from a double that holds an integer is such a
    double again, or an infinity: never [NaN]. *)
Lemma minus_double (z k : Z) : exists c, minus (double z) k = double c.
Proof.
  unfold double at 1.
  destruct (Z.abs z <=? 2 ^ 53); [exists (z - k); reflexivity|].
  destruct (2 ^ 1024 <=? _); [|eexists; reflexivity].
  destruct (z <? 0); [exists (- 2 ^ 1024) | exists (2 ^ 1024)];
    vm_compute; reflexivity.
Qed.

(** X3.  Every message that [parseLine] makes with the default pattern
    has a line that is a number and not negative, a column that is a
    number, a type that is a word, a code that is a word of two
    characters or more whose last one is a digit, a text with no CR or LF
    in it, the provider it was given and no file.  The numbers are the
    doubles nearest to integers: never [NaN]. *)
Theorem default_pattern_message_shape
        (line linterID : string) (k : Z) (msg : ILintMessage.t) :
  parseLine line (Compiled REGEX) linterID k = Normal (Some msg) ->
  exists l c t code m,
    (ILintMessage.line msg = double l /\ 0 <= l)
    /\ ILintMessage.column msg = double c
    /\ (ILintMessage.type msg = Some t /\ t <> "" /\ all is_word t = true)
    /\ (ILintMessage.code msg = Some code
        /\ (2 <= String.length code)%nat /\ all is_word code = true
        /\ exists d, last_char code = Some d /\ is_digit d = true)
    /\ (ILintMessage.message msg = Some m /\ all dot m = true)
    /\ ILintMessage.provider msg = linterID
    /\ ILintMessage.file msg = None.
Proof.
  unfold parseLine, matchNamedRegEx.
  destruct (Re.exec REGEX line) as [caps|] eqn:E; [|discriminate].
  intros H. inversion H; subst msg; clear H.
  destruct (REGEX_captures line caps E)
    as (l0 & c0 & t0 & code0 & m0 & Hcaps & (vl & Hl & Hpos) & (vc & Hc)).
  destruct (REGEX_capture_shapes line caps E)
    as (l & c & t & code & m & -> & _ & Ht & Hcode & Hm).
  inversion Hcaps; subst l0 c0 t0 code0 m0.
  repeat match goal with
         | |- context [group ?n ?caps] =>
             let v := eval cbv in (group n caps) in
             change (group n caps) with v
         end.
  cbn [ILintMessage.line ILintMessage.column ILintMessage.code
       ILintMessage.message ILintMessage.type ILintMessage.file
       ILintMessage.provider].
  rewrite Hl, Hc.
  destruct (minus_double vc k) as (c' & Hc').
  exists vl, (if nan_or_nonpositive (double vc) then 0 else c'), t, code, m.
  destruct Hcode as (Hlen & Hword & d & Hd & Hp).
  repeat split; try tauto.
  - destruct (nan_or_nonpositive (double vc)); [reflexivity | exact Hc'].
  - exists d. auto.
Qed.

Lemma default_pattern_message_shape_witness :
  let msg :=
    {| ILintMessage.code := Some "E501";
       ILintMessage.message := Some "line too long";
       ILintMessage.column := Int 6;
       ILintMessage.line := Int 12;
       ILintMessage.type := Some "Error";
       ILintMessage.provider := "flake8";
       ILintMessage.file := None |} in
  parseLine "12,7,Error,E501:line too long" (Compiled REGEX) "flake8" 1
  = Normal (Some msg)
  /\ exists l c t code m,
      (ILintMessage.line msg = double l /\ 0 <= l)
      /\ ILintMessage.column msg = double c
      /\ (ILintMessage.type msg = Some t /\ t <> "" /\ all is_word t = true)
      /\ (ILintMessage.code msg = Some code
          /\ (2 <= String.length code)%nat /\ all is_word code = true
          /\ exists d, last_char code = Some d /\ is_digit d = true)
      /\ (ILintMessage.message msg = Some m /\ all dot m = true)
      /\ ILintMessage.provider msg = "flake8"
      /\ ILintMessage.file msg = None.
Proof.
  intros msg. split; [reflexivity|].
  apply (default_pattern_message_shape
           "12,7,Error,E501:line too long" "flake8" 1 msg).
  reflexivity.
Defined.

Lemma run_REGEX_not_at_digit (c : ascii) (s : string) (caps : captures)
      (k : string -> captures -> option captures) :
  is_digit c = false -> Re.run REGEX (String c s) caps k = None.
Proof.
  intros H. unfold REGEX. rewrite run_seq. cbn [Re.run]. now rewrite H.
Qed.

Lemma exec_REGEX_skips (before line : string) :
  all not_digit before = true ->
  Re.exec REGEX (before ++ line) = Re.exec REGEX line.
Proof.
  induction before as [|c before IH]; [reflexivity|].
  cbn [all]. intros H. apply andb_prop in H. destruct H as [Hc Hb].
  unfold not_digit in Hc. apply negb_true_iff in Hc.
  cbn [String.append Re.exec].
  rewrite run_REGEX_not_at_digit by assumption. now apply IH.
Qed.

(** A line without a digit is malformed for the default pattern: it has
    no line number, and [parseLine] returns [undefined] for it. *)
Lemma parseLine_without_digit (line linterID : string) (k : Z) :
  all not_digit line = true ->
  parseLine line (Compiled REGEX) linterID k = Normal None.
Proof.
  intros H. unfold parseLine, matchNamedRegEx.
  rewrite <- (append_empty_r line), exec_REGEX_skips by assumption.
  reflexivity.
Qed.

(** X4.  The default pattern is looked for anywhere in the line: text
    without a digit in front of a line changes nothing of what
    [parseLine] returns for it. *)
Theorem parseLine_skips_leading_text
        (before line linterID : string) (k : Z) :
  all not_digit before = true ->
  parseLine (before ++ line) (Compiled REGEX) linterID k
  = parseLine line (Compiled REGEX) linterID k.
Proof.
  intros H. unfold parseLine, matchNamedRegEx.
  now rewrite exec_REGEX_skips.
Qed.

Lemma parseLine_skips_leading_text_witness :
  all not_digit "stdin: " = true
  /\ parseLine ("stdin: " ++ "12,7,Error,E501:line too long")
               (Compiled REGEX) "flake8" 1
     = parseLine "12,7,Error,E501:line too long" (Compiled REGEX) "flake8" 1.
Proof.
  split; [reflexivity|].
  apply (parseLine_skips_leading_text
           "stdin: " "12,7,Error,E501:line too long" "flake8" 1).
  reflexivity.
Defined.

(** X5.  When the tool is enabled and its execution succeeds, [run]
    returns what [parseMessages] finds in the standard output: the first
    matching lines, up to the maximum. *)
Theorem run_returns_the_matches_of_stdout
        (exec : ExecutionInfo -> Completion string)
        (stringify : ExecutionInfo -> string)
        (this : BaseLinter) (args : list string) (uri : string)
        (regEx : Pattern) (ch : OutputChannel) (stdout : string) :
  isEnabled (info this) uri = true ->
  exec (getExecutionInfo (info this) args uri) = Normal stdout ->
  fst (Linter.run exec stringify this args uri regEx ch)
  = Normal (firstn (Z.to_nat (Z.max (maxNumberOfProblems this) 1))
                   (matching this regEx (splitLines stdout))).
Proof.
  intros Henabled Hexec. unfold Linter.run. rewrite Henabled, Hexec.
  cbn [negb]. cbv zeta.
  match goal with
  | |- context [parseMessages ?a ?b ?c ?d] =>
      pose proof (parseMessages_first_matches a c b d) as H;
      destruct (parseMessages a b c d) as [[messages|e] ch']
  end; cbn [fst] in *; [exact H | discriminate].
Qed.

Lemma run_returns_the_matches_of_stdout_witness :
  let exec := fun _ : ExecutionInfo =>
                Normal ("1,2,Error,E501:a" ++ String LF "note") in
  let stringify := fun i : ExecutionInfo => execPath i in
  isEnabled (info (flake8 100)) "file:///a.py" = true
  /\ exec (getExecutionInfo (info (flake8 100)) [] "file:///a.py")
     = Normal ("1,2,Error,E501:a" ++ String LF "note")
  /\ fst (Linter.run exec stringify (flake8 100) [] "file:///a.py"
                     (Compiled REGEX) [])
     = Normal (firstn (Z.to_nat (Z.max (maxNumberOfProblems (flake8 100)) 1))
                      (matching (flake8 100) (Compiled REGEX)
                                (splitLines
                                   ("1,2,Error,E501:a" ++ String LF "note")))).
Proof.
  intros exec stringify.
  split; [reflexivity|]. split; [reflexivity|].
  apply (run_returns_the_matches_of_stdout
           exec stringify (flake8 100) [] "file:///a.py" (Compiled REGEX) []
           ("1,2,Error,E501:a" ++ String LF "note"));
    reflexivity.
Defined.

Lemma parseMessages_loop_rejected (this : BaseLinter) (error : string) :
  forall (outputLines : list string) (messages : list ILintMessage.t)
         (ch : OutputChannel),
    parseMessages_loop this (Malformed error) outputLines messages ch
    = (messages,
       (ch ++ flat_map
                (fun line =>
                   [(hashes ++ " Linter " ++ id (info this)
                       ++ " failed to parse the line:" ++ String LF "")%string;
                    (line ++ String LF "")%string;
                    (error ++ String LF "")%string])
                outputLines)%list).
Proof.
  induction outputLines as [|line rest IH]; intros messages ch.
  - cbn. now rewrite List.app_nil_r.
  - cbn [parseMessages_loop parseLine matchNamedRegEx flat_map].
    rewrite IH. unfold log_parse_failure, appendLine.
    rewrite !append_assoc, <- !List.app_assoc. reflexivity.
Qed.

(** X6.  With a pattern that the engine rejects, every line of the
    output throws when it is parsed: no message is returned, and for
    each line, in order, the output channel gets the notice of the
    failure, the line and the text of the error. *)
Theorem parseMessages_rejected_pattern
        (this : BaseLinter) (output error : string) (ch : OutputChannel) :
  parseMessages this output (Malformed error) ch
  = (Normal [],
     (ch ++ flat_map
              (fun line =>
                 [(hashes ++ " Linter " ++ id (info this)
                     ++ " failed to parse the line:" ++ String LF "")%string;
                  (line ++ String LF "")%string;
                  (error ++ String LF "")%string])
              (splitLines output))%list).
Proof.
  unfold parseMessages. now rewrite parseMessages_loop_rejected.
Qed.

End LinterLaws.

(** ** More on the refactor worker session *)

Module SessionLaws.
Import JS Common Json Refactor RefactorFacts Notions.

Section Handlers.

Variable JSON_parse : string -> option JSON.
Variable coerce : option JSON -> string.

(** X7.  A chunk that leaves nothing but empty lines in the buffer ends
    the command all the same: every line of it parses, as there is none,
    and the command is resolved with [undefined], the first element of
    an empty array; the buffer is emptied and the subprocess killed. *)
Theorem onData_blank_text_resolves_undefined
        (this : RefactorProxy) (w : World) (resolve : nat) (data : string) :
  _commandResolve this = Some resolve ->
  non_empty (split_eol (_previousOutData this ++ data)) = [] ->
  onData JSON_parse data (this, w)
  = (Normal tt,
     (set_commandResolve None
        (set_process None (set_previousOutData "" this)),
      mkWorld (settle resolve (Resolved None) (promises w))
              (spawned w) (killed w ++ process_list this)%list
              (stdin w) (suspended w))).
Proof.
  intros Hres Hblank.
  apply (onData_complete JSON_parse this w resolve data []); [exact Hres|].
  unfold parse_lines. now rewrite Hblank.
Qed.

Lemma onData_without_command (data : string) (this : RefactorProxy)
      (w : World) :
  _commandResolve this = None ->
  onData JSON_parse data (this, w) = (Normal tt, (this, w)).
Proof.
  intros H. unfold onData. now rewrite H.
Qed.

(** X8.  Once the session has started and holds no continuation, what
    the subprocess writes on its standard output is dropped, chunk after
    chunk: nothing is kept in the buffer, so a command that comes later
    never sees it, and nothing else changes. *)
Theorem output_without_command_is_dropped
        (chunks : list string) (this : RefactorProxy) (w : World) :
  _startedSuccessfully this = true ->
  _commandResolve this = None ->
  fold_left (fun st out => snd (on_output JSON_parse coerce stdout out st))
            chunks (this, w)
  = (this, w).
Proof.
  intros Hstarted Hres. induction chunks as [|out rest IH]; [reflexivity|].
  cbn [fold_left]. unfold on_output at 2. rewrite Hstarted. cbn [negb andb].
  rewrite onData_without_command by assumption. exact IH.
Qed.

(** X9.  A chunk of the standard error that leaves nothing but empty
    lines in the buffer makes the handler throw: there is no first
    record to read a message from.  The buffer is emptied, and neither
    the startup nor the command is rejected. *)
Theorem handleStdError_blank_text_throws
        (this : RefactorProxy) (w : World) (data : string) :
  non_empty (split_eol (_previousStdErrData this ++ data)) = [] ->
  handleStdError JSON_parse coerce data (this, w)
  = (Throw TypeError, (set_previousStdErrData "" this, w)).
Proof.
  intros Hblank. unfold handleStdError, parse_lines. rewrite Hblank.
  cbn. destruct this; reflexivity.
Qed.

(** X10.  A record with a message that is a string and not empty keeps
    it: while a command is outstanding, the command is rejected with
    [Refactor failed.], the message, a line feed and the traceback as a
    text, whatever the lines of the traceback are. *)
Theorem handleStdError_keeps_the_message
        (this : RefactorProxy) (w : World) (r : nat) (data : string)
        (members : list (string * JSON)) (rest : list JSON)
        (message : string) :
  _startedSuccessfully this = true ->
  _commandReject this = Some r ->
  parse_lines JSON_parse (_previousStdErrData this ++ data)
  = Some (JObject members :: rest) ->
  lookup "message" members = Some (JString message) ->
  message <> "" ->
  handleStdError JSON_parse coerce data (this, w)
  = (Normal tt,
     (set_previousStdErrData "" this,
      set_promises
        (settle r
           (Rejected
              (ThrownString
                 ("Refactor failed. " ++ message ++ String LF ""
                    ++ to_string coerce (lookup "traceback" members))))
           (promises w))
        w)).
Proof.
  intros Hstarted Hreject Hparse Hm Hne. unfold handleStdError.
  rewrite Hparse. cbn [hd_error]. unfold summary. cbn [get]. rewrite Hm.
  cbn [nonempty_string]. destruct message as [|c message]; [congruence|].
  cbn [is_empty].
  destruct this as [p o e st res j i]. cbn in Hstarted, Hreject. subst st j.
  reflexivity.
Qed.

(** X11.  A record that has neither a usable message nor a traceback
    that is a string, such as one with a type and nothing else, makes
    the handler throw where it splits the traceback: nothing is
    rejected, before the start not even a [ModuleNotFoundError], and the
    buffer is emptied. *)
Theorem handleStdError_without_traceback_throws
        (this : RefactorProxy) (w : World) (data : string)
        (members : list (string * JSON)) (rest : list JSON) :
  parse_lines JSON_parse (_previousStdErrData this ++ data)
  = Some (JObject members :: rest) ->
  nonempty_string (lookup "message" members) = None ->
  (forall traceback, lookup "traceback" members <> Some (JString traceback)) ->
  handleStdError JSON_parse coerce data (this, w)
  = (Throw TypeError, (set_previousStdErrData "" this, w)).
Proof.
  intros Hparse Hm Ht. unfold handleStdError. rewrite Hparse.
  cbn [hd_error]. unfold summary. cbn [get]. rewrite Hm.
  destruct (lookup "traceback" members) as [[| | | s | |]|];
    try (destruct this; reflexivity).
  exfalso. now apply (Ht s).
Qed.

(** X12.  The standard error may come in pieces: when the first piece
    leaves a line of the buffer unparsed, handling the second piece
    after it is the same as handling the two pieces as one. *)
Theorem handleStdError_in_two_pieces
        (this : RefactorProxy) (w : World) (data1 data2 : string) :
  parse_lines JSON_parse (_previousStdErrData this ++ data1) = None ->
  handleStdError JSON_parse coerce data2
    (snd (handleStdError JSON_parse coerce data1 (this, w)))
  = handleStdError JSON_parse coerce (data1 ++ data2) (this, w).
Proof.
  intros Hpartial. unfold handleStdError at 2. rewrite Hpartial.
  cbn [snd]. unfold handleStdError.
  cbn [_previousStdErrData set_previousStdErrData].
  rewrite ReFacts.append_assoc.
  destruct this; reflexivity.
Qed.

(** X13.  [dispose] kills the subprocess once: it forgets the handle, and
    a second call finds none and changes nothing. *)
Theorem dispose_twice (st : State) :
  dispose (dispose st) = dispose st
  /\ _process (fst (dispose st)) = None
  /\ killed (snd (dispose st))
     = (killed (snd st) ++ process_list (fst st))%list.
Proof.
  destruct st as [[[pid|] o e s r j i] w]; cbn; repeat split.
  now rewrite List.app_nil_r.
Qed.

(** X14.  The ready sentinel: on a session that waits for its start, a
    chunk of the standard output that begins with [STARTED] starts the
    session, and the command that waited is written to the subprocess,
    once, with a line feed after it.  The chunk is used up whole: what
    follows [STARTED] in it is not kept in the buffer. *)
Theorem sentinel_starts_the_command (command out : string) :
  startsWith "STARTED" out = true ->
  deliver JSON_parse coerce (Output stdout out) (open_session command)
  = ({| _process := Some 0%nat; _previousOutData := "";
        _previousStdErrData := ""; _startedSuccessfully := true;
        _commandResolve := Some 0%nat; _commandReject := Some 0%nat;
        initialized := Some 1%nat |},
     {| promises := [Pending; Resolved None]; spawned := 1; killed := [];
        stdin := [(0%nat, (command ++ String LF "")%string)];
        suspended := [] |}).
Proof.
  intros H. unfold deliver, open_session, on_output.
  cbn -[startsWith]. rewrite H. reflexivity.
Qed.

(** X15.  A fault of the transport before the start rejects the startup,
    and with it the command that waited for the start, with the error of
    the fault; the command is never written, and no subprocess is
    killed. *)
Theorem fault_before_start_rejects_the_command
        (command : string) (error : Thrown) :
  deliver JSON_parse coerce (Fault error) (open_session command)
  = ({| _process := Some 0%nat; _previousOutData := "";
        _previousStdErrData := ""; _startedSuccessfully := false;
        _commandResolve := None; _commandReject := None;
        initialized := Some 1%nat |},
     {| promises := [Rejected error; Rejected error]; spawned := 1;
        killed := []; stdin := []; suspended := [] |}).
Proof.
  reflexivity.
Qed.

Lemma keeps_settled_refl (l : list Settled) : keeps_settled l l.
Proof. unfold keeps_settled. auto. Qed.

Lemma keeps_settled_trans (l1 l2 l3 : list Settled) :
  keeps_settled l1 l2 -> keeps_settled l2 l3 -> keeps_settled l1 l3.
Proof. unfold keeps_settled. auto. Qed.

Lemma nth_error_replace_other (x : Settled) :
  forall (l : list Settled) (p i : nat),
    i <> p -> nth_error (replace p x l) i = nth_error l i.
Proof.
  induction l as [|y l IH]; intros p i Hne; destruct p, i; cbn;
    try reflexivity; try congruence.
  apply IH. congruence.
Qed.

Lemma settle_keeps (p : nat) (outcome : Settled) (l : list Settled) :
  keeps_settled l (settle p outcome l).
Proof.
  unfold keeps_settled, settle. intros i s Hi Hs.
  destruct (nth_error l p) as [[| v | reason]|] eqn:Hp; try exact Hi.
  rewrite nth_error_replace_other; [exact Hi|].
  intros ->. rewrite Hp in Hi. congruence.
Qed.

Lemma reject_keeps (p : option nat) (reason : Thrown) (st : State) :
  keeps_settled (promises (snd st))
                (promises (snd (snd (reject p reason st)))).
Proof.
  destruct st as [this w]. unfold reject.
  destruct p; cbn; [apply settle_keeps | apply keeps_settled_refl].
Qed.

Lemma onData_keeps (data : string) (st : State) :
  keeps_settled (promises (snd st))
                (promises (snd (snd (onData JSON_parse data st)))).
Proof.
  destruct st as [this w]. unfold onData.
  destruct (_commandResolve this); [|apply keeps_settled_refl].
  destruct (parse_lines JSON_parse (_previousOutData this ++ data));
    [|apply keeps_settled_refl].
  unfold dispose. cbn. destruct (_process this); cbn; apply settle_keeps.
Qed.

Lemma handleStdError_keeps (data : string) (st : State) :
  keeps_settled
    (promises (snd st))
    (promises (snd (snd (handleStdError JSON_parse coerce data st)))).
Proof.
  destruct st as [this w]. unfold handleStdError.
  destruct (parse_lines JSON_parse (_previousStdErrData this ++ data))
    as [errorResponse|]; [|apply keeps_settled_refl].
  destruct (summary coerce (hd_error errorResponse));
    [|apply keeps_settled_refl].
  destruct (get (hd_error errorResponse) "traceback");
    [|apply keeps_settled_refl].
  match goal with
  | |- context [if ?b then _ else _] => destruct b
  end.
  - match goal with
    | |- context [reject ?p ?r (?t, w)] => apply (reject_keeps p r (t, w))
    end.
  - destruct (get (hd_error errorResponse) "type");
      [|apply keeps_settled_refl].
    match goal with
    | |- context [if ?b then _ else _] => destruct b
    end;
      match goal with
      | |- context [reject ?p ?r (?t, w)] => apply (reject_keeps p r (t, w))
      end.
Qed.

Lemma handleError_keeps (error : Thrown) (st : State) :
  keeps_settled (promises (snd st))
                (promises (snd (snd (handleError error st)))).
Proof.
  destruct st as [this w]. unfold handleError.
  destruct (_startedSuccessfully this); apply reject_keeps.
Qed.

Lemma on_output_keeps (source : Source) (out : string) (st : State) :
  keeps_settled
    (promises (snd st))
    (promises (snd (snd (on_output JSON_parse coerce source out st)))).
Proof.
  destruct st as [this w]. unfold on_output. destruct source.
  - match goal with
    | |- context [if ?b then _ else _] => destruct b
    end.
    + destruct this as [p o e s r j [d|]]; cbn;
        [apply settle_keeps | apply keeps_settled_refl].
    + apply onData_keeps.
  - apply handleStdError_keeps.
Qed.

Lemma run_calls_keeps (calls : list Call) :
  forall st : State,
    keeps_settled (promises (snd st)) (promises (snd (run_calls calls st))).
Proof.
  induction calls as [|c rest IH]; intros [this w].
  - apply keeps_settled_refl.
  - cbn [run_calls].
    destruct (nth_error (promises w) (awaits c)) as [[| v | reason]|].
    + pose proof (IH (this, w)) as H.
      destruct (run_calls rest (this, w)) as [this' w']. exact H.
    + eapply keeps_settled_trans; [|apply IH].
      unfold resume. cbn. destruct (_process this); cbn;
        [apply keeps_settled_refl | apply settle_keeps].
    + eapply keeps_settled_trans; [|apply IH]. cbn. apply settle_keeps.
    + pose proof (IH (this, w)) as H.
      destruct (run_calls rest (this, w)) as [this' w']. exact H.
Qed.

Lemma deliver_keeps (e : Event) (st : State) :
  keeps_settled (promises (snd st))
                (promises (snd (deliver JSON_parse coerce e st))).
Proof.
  unfold deliver.
  assert (H : keeps_settled
                (promises (snd st))
                (promises
                   (snd (snd match e with
                             | Output source out =>
                                 on_output JSON_parse coerce source out st
                             | Fault error => handleError error st
                             end)))).
  { destruct e; [apply on_output_keeps | apply handleError_keeps]. }
  destruct (snd match e with
                | Output source out =>
                    on_output JSON_parse coerce source out st
                | Fault error => handleError error st
                end) as [this1 w1].
  eapply keeps_settled_trans; [exact H|].
  unfold run_microtasks.
  apply (run_calls_keeps (suspended w1) (this1, set_suspended [] w1)).
Qed.

(** X16.  The outcome of a promise is final: whatever the subprocess
    sends and whatever fault comes after a startup or a command has been
    resolved or rejected, its outcome stays what it was.  A late error
    record cannot turn a delivered response into a failure. *)
Theorem settled_outcome_is_final
        (e : Event) (st : State) (i : nat) (s : Settled) :
  nth_error (promises (snd st)) i = Some s ->
  s <> Pending ->
  nth_error (promises (snd (deliver JSON_parse coerce e st))) i = Some s.
Proof.
  intros Hi Hs. exact (deliver_keeps e st i s Hi Hs).
Qed.

Lemma run_calls_process (calls : list Call) :
  forall st : State,
    _process (fst (run_calls calls st)) = _process (fst st)
    /\ killed (snd (run_calls calls st)) = killed (snd st).
Proof.
  induction calls as [|c rest IH]; intros [this w]; [auto|].
  cbn [run_calls].
  destruct (nth_error (promises w) (awaits c)) as [[| v | reason]|].
  - pose proof (IH (this, w)) as H.
    destruct (run_calls rest (this, w)) as [this' w']. exact H.
  - destruct (IH (resume c (this, w))) as [H1 H2]. rewrite H1, H2.
    unfold resume. destruct this as [[pid|] o e s r j i]; cbn;
      split; reflexivity.
  - match goal with
    | |- context [run_calls rest ?st] => destruct (IH st) as [H1 H2]
    end.
    rewrite H1, H2. split; reflexivity.
  - pose proof (IH (this, w)) as H.
    destruct (run_calls rest (this, w)) as [this' w']. exact H.
Qed.

Lemma reject_process (p : option nat) (reason : Thrown) (st : State) :
  _process (fst (snd (reject p reason st))) = _process (fst st)
  /\ killed (snd (snd (reject p reason st))) = killed (snd st).
Proof.
  destruct st as [this w]. unfold reject. destruct p; cbn; auto.
Qed.

Lemma handleStdError_process (data : string) (st : State) :
  _process (fst (snd (handleStdError JSON_parse coerce data st)))
  = _process (fst st)
  /\ killed (snd (snd (handleStdError JSON_parse coerce data st)))
     = killed (snd st).
Proof.
  destruct st as [this w]. unfold handleStdError.
  destruct (parse_lines JSON_parse (_previousStdErrData this ++ data))
    as [errorResponse|]; [|cbn; auto].
  destruct (summary coerce (hd_error errorResponse)); [|cbn; auto].
  destruct (get (hd_error errorResponse) "traceback"); [|cbn; auto].
  match goal with
  | |- context [if ?b then _ else _] => destruct b
  end.
  - match goal with
    | |- context [reject ?p ?r (?t, w)] =>
        pose proof (reject_process p r (t, w)) as H
    end. cbn in *. exact H.
  - destruct (get (hd_error errorResponse) "type"); [|cbn; auto].
    match goal with
    | |- context [if ?b then _ else _] => destruct b
    end;
      match goal with
      | |- context [reject ?p ?r (?t, w)] =>
          pose proof (reject_process p r (t, w)) as H
      end; cbn in *; exact H.
Qed.

(** X17.  Only a complete response ends a subprocess.  An error record
    on the standard error, whole or in part, and a fault of the
    transport leave the handle of the subprocess where it is and kill
    nothing, also when they reject the command. *)
Theorem errors_kill_no_subprocess (st : State) :
  (forall out,
      _process (fst (deliver JSON_parse coerce (Output stderr out) st))
      = _process (fst st)
      /\ killed (snd (deliver JSON_parse coerce (Output stderr out) st))
         = killed (snd st))
  /\ (forall error,
        _process (fst (deliver JSON_parse coerce (Fault error) st))
        = _process (fst st)
        /\ killed (snd (deliver JSON_parse coerce (Fault error) st))
           = killed (snd st)).
Proof.
  split; intros x; unfold deliver, run_microtasks.
  - cbn [on_output].
    assert (H := handleStdError_process x st).
    replace (on_output JSON_parse coerce stderr x st)
      with (handleStdError JSON_parse coerce x st)
      by (destruct st; reflexivity).
    destruct (snd (handleStdError JSON_parse coerce x st)) as [this1 w1].
    destruct (run_calls_process (suspended w1) (this1, set_suspended [] w1))
      as [H1 H2].
    rewrite H1, H2. exact H.
  - assert (H : _process (fst (snd (handleError x st))) = _process (fst st)
                /\ killed (snd (snd (handleError x st))) = killed (snd st)).
    { destruct st as [this w]. unfold handleError.
      destruct (_startedSuccessfully this); apply reject_process. }
    destruct (snd (handleError x st)) as [this1 w1].
    destruct (run_calls_process (suspended w1) (this1, set_suspended [] w1))
      as [H1 H2].
    rewrite H1, H2. exact H.
Qed.

Lemma cons_head_app (c : ascii) (l1 l2 : list string) :
  l1 <> [] -> cons_head c (l1 ++ l2)%list = (cons_head c l1 ++ l2)%list.
Proof.
  destruct l1; [congruence | reflexivity].
Qed.

Lemma split_eol_step (c : ascii) (rest : string) :
  split_eol (String c rest)
  = if Ascii.eqb c LF then "" :: split_eol rest
    else match rest with
         | String c' rest' =>
             if (Ascii.eqb c CR && Ascii.eqb c' LF)%bool
             then "" :: split_eol rest'
             else cons_head c (split_eol rest)
         | "" => cons_head c (split_eol rest)
         end.
Proof. reflexivity. Qed.

(** A CR LF between two texts separates their lines. *)
Lemma split_eol_crlf (a : string) :
  (forall b, split_eol (a ++ String CR (String LF b))
             = (split_eol a ++ split_eol b)%list)
  /\ (forall c b, split_eol (String c a ++ String CR (String LF b))
                  = (split_eol (String c a) ++ split_eol b)%list).
Proof.
  induction a as [|x a [IH1 IH2]].
  - split; [reflexivity|]. intros c b. cbn [String.append].
    rewrite !split_eol_step. destruct (Ascii.eqb c LF); [reflexivity|].
    cbn. rewrite Bool.andb_false_r. reflexivity.
  - split; [apply IH2|]. intros c b.
    change (String c (String x a) ++ String CR (String LF b))
      with (String c (String x (a ++ String CR (String LF b)))).
    rewrite (split_eol_step c (String x (a ++ _))).
    rewrite (split_eol_step c (String x a)).
    destruct (Ascii.eqb c LF).
    + change (String x (a ++ String CR (String LF b)))
        with (String x a ++ String CR (String LF b)).
      now rewrite IH2.
    + destruct (Ascii.eqb c CR && Ascii.eqb x LF)%bool.
      * now rewrite IH1.
      * change (String x (a ++ String CR (String LF b)))
          with (String x a ++ String CR (String LF b)).
        rewrite IH2. apply cons_head_app. apply split_eol_nonempty.
Qed.

Lemma ends_with_CR_tail (c x : ascii) (a : string) :
  ends_with_CR (String c (String x a)) = ends_with_CR (String x a).
Proof. reflexivity. Qed.

(** A LF between two texts separates their lines, unless it makes a
    CR LF with the end of the first text. *)
Lemma split_eol_lf (a : string) :
  (ends_with_CR a = false ->
   forall b, split_eol (a ++ String LF b) = (split_eol a ++ split_eol b)%list)
  /\ (forall c, ends_with_CR (String c a) = false ->
       forall b, split_eol (String c a ++ String LF b)
                 = (split_eol (String c a) ++ split_eol b)%list).
Proof.
  induction a as [|x a [IH1 IH2]].
  - split; [reflexivity|]. intros c Hc b. cbn [String.append].
    rewrite !split_eol_step. destruct (Ascii.eqb c LF); [reflexivity|].
    unfold ends_with_CR in Hc. cbn in Hc. rewrite Hc.
    reflexivity.
  - split; [apply IH2|]. intros c Hc b.
    rewrite ends_with_CR_tail in Hc.
    change (String c (String x a) ++ String LF b)
      with (String c (String x (a ++ String LF b))).
    rewrite (split_eol_step c (String x (a ++ _))).
    rewrite (split_eol_step c (String x a)).
    destruct (Ascii.eqb c LF).
    + change (String x (a ++ String LF b)) with (String x a ++ String LF b).
      now rewrite IH2.
    + destruct (Ascii.eqb c CR && Ascii.eqb x LF)%bool eqn:Hpair.
      * rewrite IH1; [reflexivity|].
        destruct a as [|y a]; [reflexivity|].
        rewrite <- Hc. reflexivity.
      * change (String x (a ++ String LF b)) with (String x a ++ String LF b).
        rewrite IH2 by assumption.
        apply cons_head_app. apply split_eol_nonempty.
Qed.

Lemma non_empty_app (l1 l2 : list string) :
  non_empty (l1 ++ l2) = (non_empty l1 ++ non_empty l2)%list.
Proof. unfold non_empty. apply filter_app. Qed.

Lemma parse_each_app (l1 l2 : list string) :
  parse_each JSON_parse (l1 ++ l2)
  = both (parse_each JSON_parse l1) (parse_each JSON_parse l2).
Proof.
  induction l1 as [|l l1 IH]; cbn [parse_each app].
  - unfold both. destruct (parse_each JSON_parse l2); reflexivity.
  - destruct (JSON_parse l); [|reflexivity]. rewrite IH.
    unfold both.
    destruct (parse_each JSON_parse l1), (parse_each JSON_parse l2);
      reflexivity.
Qed.

(** X18.  The lines of the two buffers are told apart by LF and by CR LF
    alike: the records of a text, a line end and a second text are the
    records of the first text followed by those of the second, and none
    if a line of either does not parse.  (A text that ends with CR is
    set aside: its CR would pair with the LF.) *)
Theorem records_of_two_texts (a b : string) :
  ends_with_CR a = false ->
  parse_lines JSON_parse (a ++ String LF b)
  = both (parse_lines JSON_parse a) (parse_lines JSON_parse b)
  /\ parse_lines JSON_parse (a ++ String CR (String LF b))
     = both (parse_lines JSON_parse a) (parse_lines JSON_parse b).
Proof.
  intros Ha. unfold parse_lines.
  rewrite (proj1 (split_eol_lf a) Ha b), (proj1 (split_eol_crlf a) b).
  rewrite non_empty_app, parse_each_app. auto.
Qed.

End Handlers.

Lemma records_of_two_texts_witness :
  let a := text "{'a':1}" in
  let b := text "{'b':2}" in
  ends_with_CR a = false
  /\ (parse_lines Json.parse (a ++ String LF b)
      = both (parse_lines Json.parse a) (parse_lines Json.parse b)
      /\ parse_lines Json.parse (a ++ String CR (String LF b))
         = both (parse_lines Json.parse a) (parse_lines Json.parse b)).
Proof.
  intros a b. split; [reflexivity|].
  apply (records_of_two_texts Json.parse a b). reflexivity.
Defined.

Lemma onData_blank_text_resolves_undefined_witness :
  let this := fst busy_session in
  let w := snd busy_session in
  _commandResolve this = Some 0%nat
  /\ non_empty (split_eol (_previousOutData this ++ String LF "")) = []
  /\ onData Json.parse (String LF "") (this, w)
     = (Normal tt,
        (set_commandResolve None
           (set_process None (set_previousOutData "" this)),
         mkWorld (settle 0 (Resolved None) (promises w))
                 (spawned w) (killed w ++ process_list this)%list
                 (stdin w) (suspended w))).
Proof.
  intros this w. split; [reflexivity|]. split; [reflexivity|].
  apply (onData_blank_text_resolves_undefined
           Json.parse this w 0 (String LF "")); reflexivity.
Defined.

Lemma output_without_command_is_dropped_witness :
  let this := fst finished_session in
  let w := snd finished_session in
  _startedSuccessfully this = true
  /\ _commandResolve this = None
  /\ fold_left
       (fun st out => snd (on_output Json.parse no_coercion stdout out st))
       ["late"; "STARTED"] (this, w)
     = (this, w).
Proof.
  intros this w. split; [reflexivity|]. split; [reflexivity|].
  apply (output_without_command_is_dropped
           Json.parse no_coercion ["late"; "STARTED"] this w); reflexivity.
Defined.

Lemma handleStdError_blank_text_throws_witness :
  let this := fst busy_session in
  let w := snd busy_session in
  non_empty (split_eol (_previousStdErrData this ++ String LF "")) = []
  /\ handleStdError Json.parse no_coercion (String LF "") (this, w)
     = (Throw TypeError, (set_previousStdErrData "" this, w)).
Proof.
  intros this w. split; [reflexivity|].
  apply (handleStdError_blank_text_throws
           Json.parse no_coercion this w (String LF "")); reflexivity.
Defined.

Lemma handleStdError_keeps_the_message_witness :
  let this := fst busy_session in
  let w := snd busy_session in
  let data := text "{'message':'no such name','traceback':'a\nb'}" in
  let members :=
    [("message", JString "no such name");
     ("traceback", JString ("a" ++ String LF "b"))] in
  _startedSuccessfully this = true
  /\ _commandReject this = Some 0%nat
  /\ parse_lines Json.parse (_previousStdErrData this ++ data)
     = Some [JObject members]
  /\ lookup "message" members = Some (JString "no such name")
  /\ "no such name" <> ""
  /\ handleStdError Json.parse no_coercion data (this, w)
     = (Normal tt,
        (set_previousStdErrData "" this,
         set_promises
           (settle 0
              (Rejected
                 (ThrownString
                    ("Refactor failed. " ++ "no such name" ++ String LF ""
                       ++ to_string no_coercion
                            (lookup "traceback" members))))
              (promises w))
           w)).
Proof.
  intros this w data members.
  split; [reflexivity|]. split; [reflexivity|]. split; [reflexivity|].
  split; [reflexivity|]. split; [discriminate|].
  apply (handleStdError_keeps_the_message
           Json.parse no_coercion this w 0 data members [] "no such name");
    try reflexivity.
  discriminate.
Defined.

Lemma handleStdError_without_traceback_throws_witness :
  let this := fst (open_session "{}") in
  let w := snd (open_session "{}") in
  let data := text "{'type':'ModuleNotFoundError'}" in
  let members := [("type", JString "ModuleNotFoundError")] in
  parse_lines Json.parse (_previousStdErrData this ++ data)
  = Some [JObject members]
  /\ nonempty_string (lookup "message" members) = None
  /\ (forall traceback,
        lookup "traceback" members <> Some (JString traceback))
  /\ handleStdError Json.parse no_coercion data (this, w)
     = (Throw TypeError, (set_previousStdErrData "" this, w)).
Proof.
  intros this w data members.
  split; [reflexivity|]. split; [reflexivity|].
  split; [intros traceback; discriminate|].
  apply (handleStdError_without_traceback_throws
           Json.parse no_coercion this w data members []);
    try reflexivity.
  intros traceback. discriminate.
Defined.

Lemma handleStdError_in_two_pieces_witness :
  let this := fst busy_session in
  let w := snd busy_session in
  let data1 := text "{'message':'m'," in
  let data2 := text "'traceback':'t'}" in
  parse_lines Json.parse (_previousStdErrData this ++ data1) = None
  /\ handleStdError Json.parse no_coercion data2
       (snd (handleStdError Json.parse no_coercion data1 (this, w)))
     = handleStdError Json.parse no_coercion (data1 ++ data2) (this, w).
Proof.
  intros this w data1 data2. split; [reflexivity|].
  apply (handleStdError_in_two_pieces
           Json.parse no_coercion this w data1 data2).
  reflexivity.
Defined.

Lemma sentinel_starts_the_command_witness :
  startsWith "STARTED" ("STARTED" ++ String LF "and more") = true
  /\ deliver Json.parse no_coercion
             (Output stdout ("STARTED" ++ String LF "and more"))
             (open_session "{}")
     = ({| _process := Some 0%nat; _previousOutData := "";
           _previousStdErrData := ""; _startedSuccessfully := true;
           _commandResolve := Some 0%nat; _commandReject := Some 0%nat;
           initialized := Some 1%nat |},
        {| promises := [Pending; Resolved None]; spawned := 1; killed := [];
           stdin := [(0%nat, ("{}" ++ String LF "")%string)];
           suspended := [] |}).
Proof.
  split; [reflexivity|].
  apply (sentinel_starts_the_command
           Json.parse no_coercion "{}" ("STARTED" ++ String LF "and more")).
  reflexivity.
Defined.

Lemma settled_outcome_is_final_witness :
  let e := Output stderr (text "{'message':'late','traceback':'t'}") in
  let s :=
    Resolved
      (Some (JObject [("results", JArray [JObject [("diff", JString "x")]])])) in
  nth_error (promises (snd finished_session)) 0 = Some s
  /\ s <> Pending
  /\ nth_error
       (promises (snd (deliver Json.parse no_coercion e finished_session))) 0
     = Some s.
Proof.
  intros e s. split; [reflexivity|]. split; [discriminate|].
  apply (settled_outcome_is_final Json.parse no_coercion e finished_session
                                  0 s).
  - reflexivity.
  - discriminate.
Defined.

End SessionLaws.

(** ** More on the application of a diff *)

Module EditLaws.
Import JS Operations Notions.

Section Apply.

Variable getTextEditsFromPatch :
  string -> string -> Completion (list TextEdit).
Variable applyEdits : list string -> list TextEdit -> Completion (list string).
Variable getDocumentContent : list string -> string.
Variable jumpTo : option Position -> Completion unit.

(** X19.  [applyImports] fails as a whole or not at all.  When it throws,
    whether the command was rejected, the diff could not be translated
    or the edits could not be applied, the document and the record of
    applied edits are as before, the user gets the one notice about
    [addImport] and the log gets three entries, and what is thrown is the
    error that was caught.  When it returns, nothing is shown or
    logged. *)
Theorem applyImports_fails_whole (resp : Completion string) (ed : Editor) :
  match applyImports getTextEditsFromPatch applyEdits getDocumentContent
                     resp ed with
  | (Throw error, ed') =>
      content ed' = content ed
      /\ applied ed' = applied ed
      /\ jumps ed' = jumps ed
      /\ errorMessages ed'
         = (errorMessages ed
              ++ ["Cannot perform addImport using selected element(s)."])%list
      /\ outputChannel ed'
         = (outputChannel ed
              ++ [("##########Rope Output##########" ++ String LF "")%string;
                  ("Error in add import:" ++ String LF ""
                     ++ error_text error ++ String LF "")%string;
                  String LF ""])%list
  | (Normal returned, ed') =>
      returned = Undefined
      /\ errorMessages ed' = errorMessages ed
      /\ outputChannel ed' = outputChannel ed
      /\ jumps ed' = jumps ed
  end.
Proof.
  unfold applyImports, apply.
  destruct resp as [diff|e]; [|cbn; auto 6].
  destruct (is_empty diff); [cbn; auto|].
  destruct (getTextEditsFromPatch (getDocumentContent (content ed)) diff)
    as [edits|e]; [|cbn; auto 6].
  destruct (applyEdits (content ed) edits) as [lines|e]; cbn; auto 6.
Qed.

(** X20.  [extractName] fails in one of two ways.  An error inside the
    [try] block (a rejected response, a diff that cannot be translated,
    edits that cannot be applied) is caught: the document, the record of
    applied edits and the cursor are as before, the user gets the one
    notice about the refactoring, the log gets three entries, and the
    error is thrown again.  A rejected jump is not caught: the edits
    have been applied and the jump asked for, nothing is shown or
    logged, and [extractName] is rejected with the error of the jump.
    When it returns, nothing is shown or logged. *)
Theorem extractName_failures
        (newName : string) (renameResponse : Completion string)
        (ed : Editor) :
  match extractName getTextEditsFromPatch applyEdits getDocumentContent
                    jumpTo newName renameResponse ed with
  | (Throw error, ed') =>
      (content ed' = content ed
       /\ applied ed' = applied ed
       /\ jumps ed' = jumps ed
       /\ errorMessages ed'
          = (errorMessages ed
               ++ ["Cannot perform refactoring using selected element(s)."])%list
       /\ outputChannel ed'
          = (outputChannel ed
               ++ [("##########Refactor Output##########"
                      ++ String LF "")%string;
                   ("Error in refactoring:" ++ String LF ""
                      ++ error_text error ++ String LF "")%string;
                   String LF ""])%list)
      \/ (exists edits newWordPosition,
             jumpTo newWordPosition = Throw error
             /\ applyEdits (content ed) edits = Normal (content ed')
             /\ applied ed' = (applied ed ++ [edits])%list
             /\ jumps ed' = (jumps ed ++ [newWordPosition])%list
             /\ errorMessages ed' = errorMessages ed
             /\ outputChannel ed' = outputChannel ed)
  | (Normal returned, ed') =>
      errorMessages ed' = errorMessages ed
      /\ outputChannel ed' = outputChannel ed
  end.
Proof.
  unfold extractName, apply.
  destruct renameResponse as [diff|e]; [|cbn; left; auto 6].
  destruct (is_empty diff); [cbn; auto|].
  destruct (getTextEditsFromPatch (getDocumentContent (content ed)) diff)
    as [edits|e]; [|cbn; left; auto 6].
  destruct (applyEdits (content ed) edits) as [lines|e] eqn:Happly;
    [|cbn; left; auto 6].
  destruct (first_change edits >=? 0); [|cbn; auto].
  cbv zeta.
  match goal with
  | |- context [jumpTo ?p] => destruct (jumpTo p) as [u|e] eqn:Hjump
  end; [cbn; auto|].
  cbn. right. eexists edits, _.
  split; [exact Hjump|]. split; [exact Happly|]. auto.
Qed.

Lemma first_change_from (edits : list TextEdit) :
  forall n : nat,
    fold_left
      (fun changeStartsAtLine edit =>
         if ((changeStartsAtLine =? -1)
             || (changeStartsAtLine >? Z.of_nat (start_line edit)))%bool
         then Z.of_nat (start_line edit)
         else changeStartsAtLine)
      edits (Z.of_nat n)
    = Z.of_nat (fold_left Nat.min (map start_line edits) n).
Proof.
  induction edits as [|e rest IH]; intros n; [reflexivity|].
  cbn [fold_left map].
  destruct (Z.of_nat n =? -1) eqn:E1; [apply Z.eqb_eq in E1; lia|].
  cbn [orb].
  destruct (Z.gtb_spec (Z.of_nat n) (Z.of_nat (start_line e))).
  - rewrite IH. f_equal. f_equal. lia.
  - rewrite IH. f_equal. f_equal. lia.
Qed.

Lemma first_change_is_the_least_start_line_aux
      (edit : TextEdit) (rest : list TextEdit) :
  first_change (edit :: rest)
  = Z.of_nat (fold_left Nat.min (map start_line rest) (start_line edit))
  /\ 0 <= first_change (edit :: rest).
Proof.
  assert (H : first_change (edit :: rest)
              = Z.of_nat (fold_left Nat.min (map start_line rest)
                                    (start_line edit))).
  { unfold first_change. cbn [fold_left]. cbn [Z.eqb orb].
    apply first_change_from. }
  split; [exact H | rewrite H; lia].
Qed.

(** X21.  The line at which the change starts is the least start line of
    the edits, in whatever order the edits come; it is [-1] only when
    there is no edit. *)
Theorem first_change_is_the_least_start_line
        (edit : TextEdit) (rest : list TextEdit) :
  first_change [] = -1
  /\ first_change (edit :: rest)
     = Z.of_nat (fold_left Nat.min (map start_line rest) (start_line edit))
  /\ 0 <= first_change (edit :: rest).
Proof.
  split; [reflexivity|].
  apply first_change_is_the_least_start_line_aux.
Qed.

Lemma find_word_line (newName : string) (lines : list string) :
  forall (from : nat) (p : Position),
    find_word newName from lines = Some p ->
    (from <= line p)%nat
    /\ exists l,
        nth_error lines (line p - from) = Some l
        /\ indexOf newName l = Some (character p)
        /\ forall j l',
            (j < line p - from)%nat -> nth_error lines j = Some l' ->
            indexOf newName l' = None.
Proof.
  induction lines as [|l rest IH]; intros from p H; [discriminate|].
  cbn [find_word] in H. destruct (indexOf newName l) as [i|] eqn:Hi.
  - inversion H; subst p; clear H. cbn [line character].
    split; [lia|]. exists l. rewrite Nat.sub_diag.
    repeat split; [assumption|]. intros j l' Hj. lia.
  - destruct (IH (S from) p H) as (Hle & l0 & Hn & Hidx & Hearlier).
    split; [lia|]. exists l0.
    replace (line p - from)%nat with (S (line p - S from)) by lia.
    repeat split; [exact Hn | exact Hidx |].
    intros j l' Hj Hl'. destruct j as [|j].
    + cbn in Hl'. inversion Hl'; subst l'. exact Hi.
    + cbn in Hl'. apply (Hearlier j l'); [lia | exact Hl'].
Qed.

(** X22.  The position that the search for the new name returns is the
    first occurrence of the name from the given line on: the name stands
    at that character of that line, it stands at no earlier character of
    that line, and no line before it, from the given line on, has the
    name. *)
Theorem find_word_is_the_first_occurrence
        (newName : string) (from : nat) (lines : list string)
        (p : Position) :
  find_word newName from (skipn from lines) = Some p ->
  (from <= line p)%nat
  /\ exists l,
      nth_error lines (line p) = Some l
      /\ indexOf newName l = Some (character p)
      /\ substring (character p) (String.length newName) l = newName
      /\ (forall i, (i < character p)%nat ->
                    substring i (String.length newName) l <> newName)
      /\ forall j l',
          (from <= j < line p)%nat -> nth_error lines j = Some l' ->
          indexOf newName l' = None.
Proof.
  intros H. destruct (find_word_line newName _ from p H)
    as (Hle & l & Hn & Hidx & Hearlier).
  split; [exact Hle|]. exists l.
  rewrite nth_error_skipn in Hn.
  replace (from + (line p - from))%nat with (line p) in Hn by lia.
  split; [exact Hn|]. split; [exact Hidx|]. unfold indexOf in Hidx.
  split; [now apply index_correct1 in Hidx|]. split.
  - intros i Hi. apply (index_correct2 _ _ _ _ Hidx); lia.
  - intros j l' Hj Hl'. apply (Hearlier (j - from)%nat l'); [lia|].
    rewrite nth_error_skipn.
    replace (from + (j - from))%nat with j by lia. exact Hl'.
Qed.

(** X23.  After a diff that is not empty has been translated and
    applied: with no edit, [extractName] returns nothing and does not
    move the cursor; with an edit, it asks once for a jump, to the first
    occurrence of the new name at or after the least start line of the
    edits, or to no position when the name is not found, and returns
    that position when the jump is done; when the jump is rejected, so is
    [extractName], with the same error and the same editor. *)
Theorem extractName_moves_to_the_new_name
        (newName diff : string) (ed : Editor) (edits : list TextEdit)
        (lines : list string) :
  diff <> "" ->
  getTextEditsFromPatch (getDocumentContent (content ed)) diff
  = Normal edits ->
  applyEdits (content ed) edits = Normal lines ->
  extractName getTextEditsFromPatch applyEdits getDocumentContent jumpTo
              newName (Normal diff) ed
  = match edits with
    | [] =>
        (Normal Undefined,
         mkEditor lines (applied ed ++ [edits])%list (outputChannel ed)
                  (errorMessages ed) (jumps ed))
    | edit :: rest =>
        let from :=
          fold_left Nat.min (map start_line rest) (start_line edit) in
        let newWordPosition := find_word newName from (skipn from lines) in
        (match jumpTo newWordPosition with
         | Normal _ => Normal (Place newWordPosition)
         | Throw error => Throw error
         end,
         mkEditor lines (applied ed ++ [edits])%list (outputChannel ed)
                  (errorMessages ed) (jumps ed ++ [newWordPosition])%list)
    end.
Proof.
  intros Hne Hpatch Happly. unfold extractName, apply.
  destruct diff as [|c diff]; [congruence|]. cbn [is_empty].
  rewrite Hpatch, Happly.
  destruct edits as [|edit rest]; [reflexivity|].
  destruct (first_change_is_the_least_start_line_aux edit rest) as [H Hpos].
  rewrite H in *.
  destruct (Z.geb_spec
              (Z.of_nat (fold_left Nat.min (map start_line rest)
                                   (start_line edit))) 0); [|lia].
  cbn. rewrite Nat2Z.id.
  destruct (jumpTo _); reflexivity.
Qed.

End Apply.

Lemma find_word_is_the_first_occurrence_witness :
  let lines := ["total = 0"; "def f():"; "    total = total + 2"] in
  find_word "total" 1 (skipn 1 lines)
  = Some {| line := 2; character := 4 |}
  /\ ((1 <= 2)%nat
      /\ exists l,
          nth_error lines 2 = Some l
          /\ indexOf "total" l = Some 4%nat
          /\ substring 4 (String.length "total") l = "total"
          /\ (forall i, (i < 4)%nat ->
                        substring i (String.length "total") l <> "total")
          /\ forall j l',
              (1 <= j < 2)%nat -> nth_error lines j = Some l' ->
              indexOf "total" l' = None).
Proof.
  intros lines. split; [reflexivity|].
  apply (find_word_is_the_first_occurrence
           "total" 1 lines {| line := 2; character := 4 |}).
  reflexivity.
Defined.

Lemma extractName_moves_to_the_new_name_witness :
  let diff := "    total = 1 + 2" in
  let edits := [{| start_line := 1; newText := diff |}] in
  let lines := ["def f():"; diff; "    return 1 + 2"] in
  let place := Some {| line := 1; character := 4 |} in
  diff <> ""
  /\ sample_patch (sample_content (content sample_editor)) diff
     = Normal edits
  /\ sample_applyEdits (content sample_editor) edits = Normal lines
  /\ extractName sample_patch sample_applyEdits sample_content sample_jump
                 "total" (Normal diff) sample_editor
     = (Normal (Place place), mkEditor lines [edits] [] [] [place]).
Proof.
  intros diff edits lines place.
  assert (Hne : diff <> "") by discriminate.
  assert (Hpatch : sample_patch (sample_content (content sample_editor)) diff
                   = Normal edits) by reflexivity.
  assert (Happly : sample_applyEdits (content sample_editor) edits
                   = Normal lines) by reflexivity.
  split; [exact Hne | split; [exact Hpatch | split; [exact Happly|]]].
  exact (extractName_moves_to_the_new_name
           sample_patch sample_applyEdits sample_content sample_jump
           "total" diff sample_editor edits lines Hne Hpatch Happly).
Defined.

(** A jump that is rejected: the edits are applied, nothing is shown or
    logged, and [extractName] is rejected with the error of the jump. *)
Example rejected_jump_is_not_caught :
  let diff := "    total = 1 + 2" in
  let edits := [{| start_line := 1; newText := diff |}] in
  extractName sample_patch sample_applyEdits sample_content failing_jump
              "total" (Normal diff) sample_editor
  = (Throw (ThrownError "no window"),
     mkEditor ["def f():"; diff; "    return 1 + 2"] [edits] [] []
              [Some {| line := 1; character := 4 |}]).
Proof.
  reflexivity.
Qed.

End EditLaws.

(** ** A proxy writes one command in its life *)

Module SingleUse.
Import JS Common Json Refactor RefactorFacts Notions SessionLaws.

Lemma length_replace (x : Settled) :
  forall (l : list Settled) (n : nat),
    List.length (replace n x l) = List.length l.
Proof.
  induction l as [|y l IH]; intros n; destruct n; cbn; auto.
Qed.

Lemma length_settle (p : nat) (outcome : Settled) (l : list Settled) :
  List.length (settle p outcome l) = List.length l.
Proof.
  unfold settle. destruct (nth_error l p) as [[| |]|]; auto.
  apply length_replace.
Qed.

Lemma nth_error_settle_other (p : nat) (outcome : Settled)
      (l : list Settled) (i : nat) :
  i <> p -> nth_error (settle p outcome l) i = nth_error l i.
Proof.
  intros H. unfold settle. destruct (nth_error l p) as [[| |]|]; auto.
  now apply nth_error_replace_other.
Qed.

Lemma nth_error_replace_same (x : Settled) :
  forall (l : list Settled) (p : nat) (y : Settled),
    nth_error l p = Some y -> nth_error (replace p x l) p = Some x.
Proof.
  induction l as [|z l IH]; intros p y H; destruct p; cbn in *;
    try discriminate; eauto.
Qed.

(** Settling with a rejection makes no promise pending or resolved. *)
Lemma settle_rejected_inv (p : nat) (reason : Thrown) (l : list Settled)
      (i : nat) (s : Settled) :
  nth_error (settle p (Rejected reason) l) i = Some s ->
  (forall r, s <> Rejected r) ->
  nth_error l i = Some s.
Proof.
  intros H Hs. destruct (Nat.eq_dec i p) as [->|Hne].
  - unfold settle in H.
    destruct (nth_error l p) as [[| v | r]|] eqn:Hp; try congruence.
    rewrite (nth_error_replace_same _ l p Pending Hp) in H.
    inversion H; subst s. exfalso. now apply (Hs reason).
  - now rewrite nth_error_settle_other in H.
Qed.

Lemma parity_differ (i j : nat) :
  Nat.even i = true -> Nat.odd j = true -> i <> j.
Proof.
  intros Hi Hj ->. unfold Nat.odd in Hj. rewrite Hi in Hj. discriminate.
Qed.

Section Proxy.

Variable JSON_parse : string -> option JSON.
Variable coerce : option JSON -> string.

Lemma reject_effect (p : option nat) (reason : Thrown) (st : State) :
  handler_effect st (snd (reject p reason st)).
Proof.
  destruct st as [this w]. unfold reject, handler_effect.
  destruct p as [r|]; cbn; repeat split; auto.
  right. exists r, (Rejected reason). split; [reflexivity|]. left. eauto.
Qed.

Lemma onData_effect (data : string) (st : State) :
  (forall r, _commandResolve (fst st) = Some r -> Nat.even r = true) ->
  handler_effect st (snd (onData JSON_parse data st)).
Proof.
  destruct st as [this w]. cbn [fst]. intros Heven. unfold onData.
  destruct (_commandResolve this) as [resolve|] eqn:Hres.
  - destruct (parse_lines JSON_parse (_previousOutData this ++ data)).
    + unfold handler_effect, dispose. cbn.
      destruct (_process this); cbn; repeat split; auto;
        right; exists resolve; eexists; (split; [reflexivity|]);
        right; left; now apply Heven.
    + unfold handler_effect. cbn. repeat split; auto.
  - unfold handler_effect. cbn. repeat split; auto.
Qed.

Lemma handler_effect_of_buffer (this this2 : RefactorProxy) (w : World)
      (st1 : State) :
  _commandResolve this2 = _commandResolve this ->
  _commandReject this2 = _commandReject this ->
  _startedSuccessfully this2 = _startedSuccessfully this ->
  handler_effect (this2, w) st1 -> handler_effect (this, w) st1.
Proof.
  unfold handler_effect. cbn [fst snd]. intros H1 H2 H3.
  rewrite H1, H2, H3. auto.
Qed.

Lemma handleStdError_effect (data : string) (st : State) :
  handler_effect st (snd (handleStdError JSON_parse coerce data st)).
Proof.
  destruct st as [this w]. unfold handleStdError.
  destruct (parse_lines JSON_parse (_previousStdErrData this ++ data))
    as [errorResponse|];
    [|unfold handler_effect; cbn; repeat split; auto].
  destruct (summary coerce (hd_error errorResponse));
    [|unfold handler_effect; cbn; repeat split; auto].
  destruct (get (hd_error errorResponse) "traceback");
    [|unfold handler_effect; cbn; repeat split; auto].
  match goal with
  | |- context [if ?b then _ else _] => destruct b
  end.
  - match goal with
    | |- context [reject ?p ?r (?t, w)] =>
        apply (handler_effect_of_buffer this t w); try reflexivity;
        apply (reject_effect p r (t, w))
    end.
  - destruct (get (hd_error errorResponse) "type");
      [|unfold handler_effect; cbn; repeat split; auto].
    match goal with
    | |- context [if ?b then _ else _] => destruct b
    end;
      match goal with
      | |- context [reject ?p ?r (?t, w)] =>
          apply (handler_effect_of_buffer this t w); try reflexivity;
          apply (reject_effect p r (t, w))
      end.
Qed.

Lemma handleError_effect (error : Thrown) (st : State) :
  handler_effect st (snd (handleError error st)).
Proof.
  destruct st as [this w]. unfold handleError.
  destruct (_startedSuccessfully this); apply reject_effect.
Qed.

Lemma on_output_effect (source : Source) (out : string) (st : State) :
  (forall r, _commandResolve (fst st) = Some r -> Nat.even r = true) ->
  handler_effect st (snd (on_output JSON_parse coerce source out st)).
Proof.
  destruct st as [this w]. intros Heven. unfold on_output. destruct source.
  - destruct (negb (_startedSuccessfully this) && startsWith "STARTED" out)%bool
      eqn:Hstart.
    + apply andb_prop in Hstart. destruct Hstart as [Hs _].
      apply negb_true_iff in Hs.
      destruct this as [p o e s r j [d|]]; cbn in Hs; subst s;
        unfold handler_effect; cbn; repeat split; auto.
      right. exists d, (Resolved None). split; [reflexivity|].
      right. right. auto.
    + now apply onData_effect.
  - apply handleStdError_effect.
Qed.

Lemma resume_facts (c : Call) (this : RefactorProxy) (w : World) :
  suspended (snd (resume c (this, w))) = suspended w
  /\ _startedSuccessfully (fst (resume c (this, w)))
     = _startedSuccessfully this
  /\ _commandResolve (fst (resume c (this, w))) = Some (result c)
  /\ _commandReject (fst (resume c (this, w))) = Some (result c)
  /\ (List.length (stdin (snd (resume c (this, w))))
      <= List.length (stdin w) + 1)%nat
  /\ (promises (snd (resume c (this, w))) = promises w
      \/ promises (snd (resume c (this, w)))
         = settle (result c) (Rejected TypeError) (promises w)).
Proof.
  unfold resume. destruct this as [[pid|] o e s r j i]; cbn;
    repeat split; auto; try lia.
  rewrite length_app. cbn. lia.
Qed.

Lemma calls_effect_step (c : Call) (rest : list Call) (st st2 st' : State) :
  Nat.even (result c) = true ->
  suspended (snd st2) = suspended (snd st) ->
  _startedSuccessfully (fst st2) = _startedSuccessfully (fst st) ->
  (promises (snd st2) = promises (snd st)
   \/ exists reason,
       promises (snd st2)
       = settle (result c) (Rejected reason) (promises (snd st))) ->
  ((forall r, _commandResolve (fst st2) = Some r ->
              _commandResolve (fst st) = Some r \/ Nat.even r = true)
   /\ (forall r, _commandReject (fst st2) = Some r ->
                 _commandReject (fst st) = Some r \/ Nat.even r = true)) ->
  calls_effect rest st2 st' ->
  calls_effect (c :: rest) st st'.
Proof.
  intros Heven Hsusp Hstarted Hprom [Hres Hrej]
         (E1 & E2 & E3 & E4 & E5 & E6 & E7).
  assert (Hodd : forall i, Nat.odd i = true ->
                           nth_error (promises (snd st2)) i
                           = nth_error (promises (snd st)) i).
  { intros i Hi. destruct Hprom as [-> | [reason ->]]; [reflexivity|].
    apply nth_error_settle_other. intros ->.
    now apply (parity_differ (result c) (result c)). }
  assert (Hlen : List.length (promises (snd st2))
                 = List.length (promises (snd st))).
  { destruct Hprom as [-> | [reason ->]]; [reflexivity|].
    apply length_settle. }
  unfold calls_effect. repeat split.
  - intros i Hi. rewrite E1 by assumption. now apply Hodd.
  - congruence.
  - congruence.
  - intros c0 Hc0. destruct (E4 c0 Hc0) as [Hold | [Hin Hp]].
    + left. now rewrite <- Hsusp.
    + right. split; [now right|].
      destruct Hprom as [Heq | [reason Heq]]; rewrite Heq in Hp;
        [exact Hp|].
      apply (settle_rejected_inv _ _ _ _ _ Hp). discriminate.
  - intros Hnd. apply E5. rewrite Hsusp. cbn in Hnd.
    now inversion Hnd.
  - intros r Hr. destruct (E6 r Hr) as [H | H]; [|now right].
    now apply Hres.
  - intros r Hr. destruct (E7 r Hr) as [H | H]; [|now right].
    now apply Hrej.
Qed.

Lemma run_calls_effect (calls : list Call) :
  forall st : State,
    (forall c, In c calls ->
               Nat.even (result c) = true
               /\ (awaits c < List.length (promises (snd st)))%nat) ->
    calls_effect calls st (run_calls calls st).
Proof.
  induction calls as [|c rest IH]; intros [this w] Hcalls.
  - unfold calls_effect. cbn. repeat split; auto.
  - destruct (Hcalls c (or_introl eq_refl)) as [Heven Hlt].
    cbn [fst snd] in *. cbn [run_calls].
    destruct (nth_error (promises w) (awaits c)) as [[| v | reason]|] eqn:Hd.
    + assert (Hrest : forall c0, In c0 rest ->
                Nat.even (result c0) = true
                /\ (awaits c0 < List.length (promises (snd (this, w))))%nat).
      { intros c0 Hc0. apply Hcalls. now right. }
      pose proof (IH (this, w) Hrest) as (E1 & E2 & E3 & E4 & E5 & E6 & E7).
      destruct (run_calls rest (this, w)) as [this' w'].
      cbn [fst snd] in *. unfold calls_effect. cbn [fst snd suspended
        set_suspended promises]. repeat split; auto.
      * intros c0 [<- | Hc0].
        -- right. split; [now left | exact Hd].
        -- destruct (E4 c0 Hc0) as [H | [H1 H2]]; [now left|].
           right. split; [now right | exact H2].
      * intros Hnd. cbn in Hnd. inversion Hnd as [|x l Hnotin Hnd']; subst.
        cbn. constructor; [|now apply E5].
        intros Hin. apply Hnotin. apply in_map_iff in Hin.
        destruct Hin as (c0 & Hc0a & Hc0).
        rewrite <- Hc0a. apply in_map. apply in_or_app.
        destruct (E4 c0 Hc0) as [H | [H _]]; auto.
    + destruct (resume_facts c this w) as (R1 & R2 & R3 & R4 & R5 & R6).
      apply (calls_effect_step c rest (this, w) (resume c (this, w)));
        try assumption.
      * destruct R6 as [R6|R6]; [now left | right; eauto].
      * split; intros r Hr; right; [rewrite R3 in Hr | rewrite R4 in Hr];
          inversion Hr; subst; assumption.
      * apply IH. intros c0 Hc0.
        destruct (Hcalls c0 (or_intror Hc0)) as [H1 H2]. split; [exact H1|].
        destruct R6 as [R6|R6]; rewrite R6; [exact H2|].
        now rewrite length_settle.
    + apply (calls_effect_step
               c rest (this, w)
               (this,
                set_promises
                  (settle (result c) (Rejected reason) (promises w)) w));
        try assumption; try reflexivity.
      * right. exists reason. reflexivity.
      * split; intros r Hr; now left.
      * apply IH. intros c0 Hc0.
        destruct (Hcalls c0 (or_intror Hc0)) as [H1 H2]. split; [exact H1|].
        cbn. now rewrite length_settle.
    + apply nth_error_None in Hd. lia.
Qed.

(** When no waiting call has its deferred resolved, none goes on. *)
Lemma run_calls_none_resolved (calls : list Call) :
  forall st : State,
    (forall c v, In c calls ->
                 nth_error (promises (snd st)) (awaits c)
                 <> Some (Resolved v)) ->
    stdin (snd (run_calls calls st)) = stdin (snd st)
    /\ _commandResolve (fst (run_calls calls st)) = _commandResolve (fst st)
    /\ _commandReject (fst (run_calls calls st)) = _commandReject (fst st).
Proof.
  induction calls as [|c rest IH]; intros [this w] Hnone; [cbn; auto|].
  cbn [fst snd] in *. cbn [run_calls].
  destruct (nth_error (promises w) (awaits c)) as [[| v | reason]|] eqn:Hd.
  - destruct (IH (this, w)) as (H1 & H2 & H3).
    { intros c0 v Hc0. apply Hnone. now right. }
    destruct (run_calls rest (this, w)) as [this' w']. cbn in *. auto.
  - exfalso. apply (Hnone c v (or_introl eq_refl)). exact Hd.
  - match goal with
    | |- context [run_calls rest ?st2] =>
        destruct (IH st2) as (H1 & H2 & H3)
    end.
    { intros c0 v Hc0 Hres. cbn in Hres.
      apply settle_rejected_inv in Hres; [|discriminate].
      now apply (Hnone c0 v (or_intror Hc0)). }
    rewrite H1, H2, H3. auto.
  - destruct (IH (this, w)) as (H1 & H2 & H3).
    { intros c0 v Hc0. apply Hnone. now right. }
    destruct (run_calls rest (this, w)) as [this' w']. cbn in *. auto.
Qed.

(** When one deferred at most is resolved, one call at most goes on. *)
Lemma run_calls_one_resolved (d : nat) (calls : list Call) :
  forall st : State,
    NoDup (map awaits calls) ->
    (forall c v, In c calls -> awaits c <> d ->
                 nth_error (promises (snd st)) (awaits c)
                 <> Some (Resolved v)) ->
    (List.length (stdin (snd (run_calls calls st)))
     <= List.length (stdin (snd st)) + 1)%nat.
Proof.
  induction calls as [|c rest IH]; intros [this w] Hnd Hnone; [cbn; lia|].
  cbn [fst snd] in *. cbn [run_calls]. cbn in Hnd.
  inversion Hnd as [|x l Hnotin Hnd']; subst.
  destruct (nth_error (promises w) (awaits c)) as [[| v | reason]|] eqn:Hd.
  - pose proof (IH (this, w) Hnd') as H.
    destruct (run_calls rest (this, w)) as [this' w']. cbn in *.
    apply H. intros c0 v Hc0. apply Hnone. now right.
  - assert (Hc : awaits c = d).
    { destruct (Nat.eq_dec (awaits c) d) as [H|H]; [exact H|].
      exfalso. apply (Hnone c v (or_introl eq_refl) H). exact Hd. }
    destruct (resume_facts c this w) as (R1 & R2 & R3 & R4 & R5 & R6).
    destruct (run_calls_none_resolved rest (resume c (this, w)))
      as (H1 & _).
    { intros c0 v0 Hc0 Hres.
      assert (Hne : awaits c0 <> d).
      { intros Heq. apply Hnotin. rewrite Hc, <- Heq. now apply in_map. }
      apply (Hnone c0 v0 (or_intror Hc0) Hne).
      destruct R6 as [R6|R6]; rewrite R6 in Hres; [exact Hres|].
      apply settle_rejected_inv in Hres; [exact Hres | discriminate]. }
    rewrite H1. exact R5.
  - match goal with
    | |- context [run_calls rest ?st2] =>
        pose proof (IH st2 Hnd') as H
    end.
    cbn [fst snd stdin set_promises] in H. apply H.
    intros c0 v Hc0 Hne Hres. cbn in Hres.
    apply settle_rejected_inv in Hres; [|discriminate].
    now apply (Hnone c0 v (or_intror Hc0) Hne).
  - pose proof (IH (this, w) Hnd') as H.
    destruct (run_calls rest (this, w)) as [this' w']. cbn in *.
    apply H. intros c0 v Hc0. apply Hnone. now right.
Qed.

Lemma deliver_single_use (e : Event) (st : State) :
  single_use st -> single_use (deliver JSON_parse coerce e st).
Proof.
  intros (I1 & I2 & I3 & I4 & I5 & I6 & I7). unfold deliver.
  assert (E : handler_effect st
                (snd match e with
                     | Output source out =>
                         on_output JSON_parse coerce source out st
                     | Fault error => handleError error st
                     end)).
  { destruct e; [now apply on_output_effect | apply handleError_effect]. }
  destruct st as [this w].
  destruct (snd match e with
                | Output source out =>
                    on_output JSON_parse coerce source out (this, w)
                | Fault error => handleError error (this, w)
                end) as [this1 w1].
  destruct E as (E1 & E2 & E3 & E4 & E5 & E6). cbn [fst snd] in *.
  rewrite Forall_forall in I2.
  unfold run_microtasks.
  assert (Hlen : List.length (promises w1) = List.length (promises w)).
  { destruct E6 as [-> | (i & o & -> & _)];
      [reflexivity | apply length_settle]. }
  assert (Hcalls : forall c, In c (suspended w1) ->
             Nat.even (result c) = true
             /\ (awaits c
                 < List.length
                     (promises (snd (this1, set_suspended [] w1))))%nat).
  { rewrite E2. intros c Hc. destruct (I2 c Hc) as (A & B & C).
    split; [exact A|]. cbn. rewrite Hlen. apply nth_error_Some. congruence. }
  destruct (run_calls_effect (suspended w1) (this1, set_suspended [] w1)
                             Hcalls)
    as (C1 & C2 & C3 & C4 & C5 & C6 & C7).
  cbn [fst snd set_suspended promises suspended] in C1, C2, C3, C4, C5, C6, C7.
  assert (Hcase :
            (forall c v, In c (suspended w1) ->
                         nth_error (promises w1) (awaits c)
                         <> Some (Resolved v))
            \/ (_startedSuccessfully this = false
                /\ _startedSuccessfully this1 = true
                /\ exists i,
                    forall c v, In c (suspended w1) -> awaits c <> i ->
                                nth_error (promises w1) (awaits c)
                                <> Some (Resolved v))).
  { rewrite E2.
    destruct E6 as [-> | (i & o & -> & [(reason & ->) | [Hi | [S0 S1]]])].
    - left. intros c v Hc. destruct (I2 c Hc) as (_ & _ & C). congruence.
    - left. intros c v Hc Hres. destruct (I2 c Hc) as (_ & _ & C).
      apply settle_rejected_inv in Hres; [congruence | discriminate].
    - left. intros c v Hc. destruct (I2 c Hc) as (_ & B & C).
      rewrite nth_error_settle_other; [congruence|].
      intros Heq. apply (parity_differ i (awaits c) Hi B). now symmetry.
    - right. repeat split; try assumption. exists i.
      intros c v Hc Hne. destruct (I2 c Hc) as (_ & _ & C).
      rewrite nth_error_settle_other by assumption. congruence. }
  unfold single_use. repeat split.
  - rewrite C2, Hlen. exact I1.
  - rewrite Forall_forall. intros c Hc.
    destruct (C4 c Hc) as [[] | [Hin Hp]].
    rewrite E2 in Hin. destruct (I2 c Hin) as (A & B & _).
    repeat split; try assumption. rewrite C1 by assumption. exact Hp.
  - apply C5. rewrite List.app_nil_r, E2. exact I3.
  - intros r Hr. destruct (C6 r Hr) as [H | H]; [|exact H].
    destruct E3 as [E3 | E3]; rewrite E3 in H; [now apply I4 | discriminate].
  - intros r Hr. destruct (C7 r Hr) as [H | H]; [|exact H].
    rewrite E4 in H. now apply I5.
  - intros Hs. rewrite C3 in Hs.
    assert (Hs0 : _startedSuccessfully this = false).
    { destruct (_startedSuccessfully this); [|reflexivity].
      rewrite (E5 eq_refl) in Hs. discriminate. }
    destruct Hcase as [Hnone | (_ & S1 & _)]; [|congruence].
    destruct (run_calls_none_resolved (suspended w1)
                (this1, set_suspended [] w1) Hnone) as (H1 & _).
    rewrite H1. cbn. rewrite E1. now apply I6.
  - destruct Hcase as [Hnone | (S0 & _ & i & Hone)].
    + destruct (run_calls_none_resolved (suspended w1)
                  (this1, set_suspended [] w1) Hnone) as (H1 & _).
      rewrite H1. cbn. rewrite E1. exact I7.
    + pose proof (run_calls_one_resolved i (suspended w1)
                    (this1, set_suspended [] w1)) as H.
      cbn [fst snd set_suspended promises stdin] in H.
      rewrite E1, (I6 S0) in H. cbn in H. apply H.
      * rewrite E2. exact I3.
      * exact Hone.
Qed.

Lemma sendCommand_single_use (command : string) (st : State) :
  single_use st -> single_use (snd (sendCommand command st)).
Proof.
  intros (I1 & I2 & I3 & I4 & I5 & I6 & I7). destruct st as [this w].
  cbn [fst snd] in *. rewrite Forall_forall in I2.
  unfold sendCommand, initialize, single_use.
  cbn [fst snd promises suspended stdin set_promises set_suspended spawned
       killed _commandResolve _commandReject _startedSuccessfully
       set_process set_initialized].
  rewrite !length_app. cbn [List.length].
  assert (Hold : forall c, In c (suspended w) ->
                           (awaits c < List.length (promises w))%nat).
  { intros c Hc. destruct (I2 c Hc) as (_ & _ & C).
    apply nth_error_Some. congruence. }
  repeat split; auto.
  - replace (List.length (promises w) + 1 + 1)%nat
      with (S (S (List.length (promises w)))) by lia.
    now rewrite Nat.even_succ_succ.
  - rewrite Forall_forall. intros c Hc. apply in_app_or in Hc.
    destruct Hc as [Hc | [<- | []]].
    + destruct (I2 c Hc) as (A & B & C). repeat split; try assumption.
      rewrite <- List.app_assoc. rewrite nth_error_app1 by now apply Hold.
      exact C.
    + unfold waiting_well. cbn [result awaits]. repeat split.
      * exact I1.
      * replace (List.length (promises w) + 1)%nat
          with (S (List.length (promises w))) by lia.
        now rewrite Nat.odd_succ.
      * rewrite nth_error_app2 by (rewrite length_app; cbn; lia).
        rewrite length_app. cbn [List.length].
        now rewrite Nat.sub_diag.
  - rewrite map_app. apply NoDup_app; [exact I3 | |].
    + cbn. constructor; [intros [] | constructor].
    + intros a Ha [<- | []]. cbn [awaits] in Ha.
      apply in_map_iff in Ha. destruct Ha as (c & Hc1 & Hc2).
      apply Hold in Hc2. lia.
Qed.

Lemma uses_single_use (us : list Use) :
  forall st, single_use st ->
             single_use (fold_left (use JSON_parse coerce) us st).
Proof.
  induction us as [|u us IH]; intros st H; [exact H|].
  cbn [fold_left]. apply IH. destruct u as [command | e]; cbn [use].
  - now apply sendCommand_single_use.
  - now apply deliver_single_use.
Qed.

Local Abbreviation handle := (Notions.handle JSON_parse coerce).

Lemma reject_this (p : option nat) (reason : Thrown) (st : State) :
  fst (snd (reject p reason st)) = fst st
  /\ spawned (snd (snd (reject p reason st))) = spawned (snd st).
Proof.
  destruct st as [this w]. unfold reject. destruct p; cbn; auto.
Qed.

Lemma handleStdError_this (data : string) (st : State) :
  exists buffer,
    fst (snd (handleStdError JSON_parse coerce data st))
    = set_previousStdErrData buffer (fst st)
    /\ spawned (snd (snd (handleStdError JSON_parse coerce data st)))
       = spawned (snd st).
Proof.
  destruct st as [this w]. unfold handleStdError.
  destruct (parse_lines JSON_parse (_previousStdErrData this ++ data))
    as [errorResponse|]; [|eexists; split; reflexivity].
  destruct (summary coerce (hd_error errorResponse));
    [|exists ""; split; reflexivity].
  destruct (get (hd_error errorResponse) "traceback");
    [|exists ""; split; reflexivity].
  match goal with
  | |- context [if ?b then _ else _] => destruct b
  end.
  - match goal with
    | |- context [reject ?p ?r (?t, w)] =>
        destruct (reject_this p r (t, w)) as [H1 H2]
    end. rewrite H1, H2. exists "". split; reflexivity.
  - destruct (get (hd_error errorResponse) "type");
      [|exists ""; split; reflexivity].
    match goal with
    | |- context [if ?b then _ else _] => destruct b
    end;
      match goal with
      | |- context [reject ?p ?r (?t, w)] =>
          destruct (reject_this p r (t, w)) as [H1 H2]
      end; rewrite H1, H2; exists ""; split; reflexivity.
Qed.

(** What a handler keeps of the proxy. *)
Lemma handle_fields (e : Event) (st : State) :
  initialized (fst (handle e st)) = initialized (fst st)
  /\ spawned (snd (handle e st)) = spawned (snd st)
  /\ _startedSuccessfully (fst (handle e st))
     = (_startedSuccessfully (fst st) || is_start (Happen e))%bool
  /\ (_commandResolve (fst st) = None ->
      _process (fst (handle e st)) = _process (fst st)).
Proof.
  destruct st as [this w]. unfold handle. cbn [fst snd].
  destruct e as [[|] out|error].
  - unfold on_output. cbn [is_start].
    destruct (_startedSuccessfully this) eqn:Hs; cbn [negb andb orb].
    + unfold onData. destruct (_commandResolve this) as [r|] eqn:Hr.
      * destruct (parse_lines JSON_parse (_previousOutData this ++ out));
          unfold dispose; cbn; destruct (_process this); cbn; rewrite ?Hs;
          repeat split; auto; intros; congruence.
      * cbn. rewrite Hs. auto.
    + destruct (startsWith "STARTED" out).
      * destruct (initialized this) eqn:Hi; cbn; rewrite ?Hi; auto.
      * unfold onData. destruct (_commandResolve this) as [r|] eqn:Hr.
        -- destruct (parse_lines JSON_parse (_previousOutData this ++ out));
             unfold dispose; cbn; destruct (_process this); cbn; rewrite ?Hs;
          repeat split; auto; intros; congruence.
        -- cbn. rewrite Hs. auto.
  - cbn [on_output is_start]. rewrite orb_false_r.
    destruct (handleStdError_this out (this, w)) as (buffer & -> & ->).
    cbn. auto.
  - cbn [is_start]. rewrite orb_false_r. unfold handleError.
    destruct (_startedSuccessfully this) eqn:Hs;
      match goal with
      | |- context [reject ?p ?r ?s] =>
          destruct (reject_this p r s) as [-> ->]
      end; cbn; auto.
Qed.

Lemma run_calls_fields (calls : list Call) :
  forall st : State,
    initialized (fst (run_calls calls st)) = initialized (fst st)
    /\ spawned (snd (run_calls calls st)) = spawned (snd st)
    /\ _startedSuccessfully (fst (run_calls calls st))
       = _startedSuccessfully (fst st)
    /\ forall c, In c (suspended (snd (run_calls calls st))) ->
                 In c calls \/ In c (suspended (snd st)).
Proof.
  induction calls as [|c rest IH]; intros [this w]; [cbn; auto|].
  cbn [run_calls].
  destruct (nth_error (promises w) (awaits c)) as [[| v | reason]|].
  - destruct (IH (this, w)) as (H1 & H2 & H3 & H4).
    destruct (run_calls rest (this, w)) as [this' w']. cbn in *.
    repeat split; auto. intros c0 [<- | Hc0]; auto.
    destruct (H4 c0 Hc0); auto.
  - destruct (IH (resume c (this, w))) as (H1 & H2 & H3 & H4).
    rewrite H1, H2, H3.
    unfold resume. destruct this as [[pid|] o e s r j i]; cbn;
      repeat split; auto; intros c0 Hc0; destruct (H4 c0 Hc0) as [H|H];
      auto; right; revert H; unfold resume; cbn; auto.
  - match goal with
    | |- context [run_calls rest ?st] =>
        destruct (IH st) as (H1 & H2 & H3 & H4)
    end.
    rewrite H1, H2, H3. cbn. repeat split; auto.
    intros c0 Hc0. destruct (H4 c0 Hc0); auto.
  - destruct (IH (this, w)) as (H1 & H2 & H3 & H4).
    destruct (run_calls rest (this, w)) as [this' w']. cbn in *.
    repeat split; auto. intros c0 [<- | Hc0]; auto.
    destruct (H4 c0 Hc0); auto.
Qed.


(** When one deferred at most is resolved, the call that waits for it is
    the one that goes on. *)
Lemma run_calls_written (d : nat) (calls : list Call) :
  forall st : State,
    NoDup (map awaits calls) ->
    (forall c v, In c calls -> awaits c <> d ->
                 nth_error (promises (snd st)) (awaits c)
                 <> Some (Resolved v)) ->
    stdin (snd (run_calls calls st)) = stdin (snd st)
    \/ exists c pid,
        In c calls /\ awaits c = d /\ _process (fst st) = Some pid
        /\ stdin (snd (run_calls calls st))
           = (stdin (snd st)
                ++ [(pid, (command c ++ String LF "")%string)])%list.
Proof.
  induction calls as [|c rest IH]; intros [this w] Hnd Hnone; [now left|].
  cbn [fst snd] in *. cbn [run_calls]. cbn in Hnd.
  inversion Hnd as [|x l Hnotin Hnd']; subst.
  destruct (nth_error (promises w) (awaits c)) as [[| v | reason]|] eqn:Hd.
  - destruct (IH (this, w) Hnd') as [H | (c0 & pid & H1 & H2 & H3 & H4)].
    { intros c0 v Hc0. apply Hnone. now right. }
    + left. destruct (run_calls rest (this, w)). exact H.
    + right. exists c0, pid. destruct (run_calls rest (this, w)).
      repeat split; auto. now right.
  - assert (Hc : awaits c = d).
    { destruct (Nat.eq_dec (awaits c) d) as [H|H]; [exact H|].
      exfalso. apply (Hnone c v (or_introl eq_refl) H). exact Hd. }
    destruct (resume_facts c this w) as (R1 & R2 & R3 & R4 & R5 & R6).
    destruct (run_calls_none_resolved rest (resume c (this, w)))
      as (H1 & _).
    { intros c0 v0 Hc0 Hres.
      assert (Hne : awaits c0 <> d).
      { intros Heq. apply Hnotin. rewrite Hc, <- Heq. now apply in_map. }
      apply (Hnone c0 v0 (or_intror Hc0) Hne).
      destruct R6 as [R6|R6]; rewrite R6 in Hres; [exact Hres|].
      apply settle_rejected_inv in Hres; [exact Hres | discriminate]. }
    rewrite H1. unfold resume.
    destruct this as [[pid|] o e s r j i]; cbn; [|now left].
    right. exists c, pid. auto.
  - match goal with
    | |- context [run_calls rest ?st2] =>
        destruct (IH st2 Hnd') as [H | (c0 & pid & H1 & H2 & H3 & H4)]
    end.
    { intros c0 v Hc0 Hne Hres. cbn in Hres.
      apply settle_rejected_inv in Hres; [|discriminate].
      now apply (Hnone c0 v (or_intror Hc0) Hne). }
    + left. exact H.
    + right. exists c0, pid. repeat split; auto. now right.
  - destruct (IH (this, w) Hnd') as [H | (c0 & pid & H1 & H2 & H3 & H4)].
    { intros c0 v Hc0. apply Hnone. now right. }
    + left. destruct (run_calls rest (this, w)). exact H.
    + right. exists c0, pid. destruct (run_calls rest (this, w)).
      repeat split; auto. now right.
Qed.

Lemma deliver_handle (e : Event) (st : State) :
  deliver JSON_parse coerce e st = run_microtasks (handle e st).
Proof. reflexivity. Qed.

Lemma handle_effect (e : Event) (st : State) :
  single_use st -> handler_effect st (handle e st).
Proof.
  intros (_ & _ & _ & I4 & _). unfold handle.
  destruct e; [now apply on_output_effect | apply handleError_effect].
Qed.

(** An event that does not start the proxy makes no call go on. *)
Lemma deliver_quiet (e : Event) (st : State) :
  single_use st ->
  (_startedSuccessfully (fst st) = true \/ is_start (Happen e) = false) ->
  stdin (snd (deliver JSON_parse coerce e st)) = stdin (snd st)
  /\ (_commandResolve (fst st) = None ->
      _commandResolve (fst (deliver JSON_parse coerce e st)) = None).
Proof.
  intros Hsu Hquiet. pose proof (handle_effect e st Hsu) as E.
  destruct (handle_fields e st) as (_ & _ & F3 & _).
  destruct Hsu as (I1 & I2 & I3 & I4 & I5 & I6 & I7).
  rewrite deliver_handle. destruct st as [this w].
  destruct (handle e (this, w)) as [this1 w1].
  destruct E as (E1 & E2 & E3 & E4 & E5 & E6). cbn [fst snd] in *.
  rewrite Forall_forall in I2. unfold run_microtasks.
  destruct (run_calls_none_resolved (suspended w1)
              (this1, set_suspended [] w1)) as (H1 & H2 & _).
  { cbn [fst snd set_suspended promises]. rewrite E2. intros c v Hc.
    destruct (I2 c Hc) as (_ & B & C).
    destruct E6 as [-> | (i & o & -> & [(reason & ->) | [Hi | [S0 S1]]])].
    - congruence.
    - intros Hres. apply settle_rejected_inv in Hres;
        [congruence | discriminate].
    - rewrite nth_error_settle_other; [congruence|].
      intros Heq. apply (parity_differ i (awaits c) Hi B). now symmetry.
    - exfalso. rewrite S0, S1 in F3. cbn [orb] in F3.
      destruct Hquiet as [H|H]; congruence. }
  rewrite H1, H2. cbn [fst snd set_suspended stdin]. split; [exact E1|].
  intros Hr. destruct E3 as [E3|E3]; congruence.
Qed.

(** The chunk that announces the start lets one call go on at most:
    the one that waits for the latest startup. *)
Lemma deliver_start (out : string) (st : State) :
  single_use st ->
  _startedSuccessfully (fst st) = false ->
  startsWith "STARTED" out = true ->
  stdin (snd (deliver JSON_parse coerce (Output stdout out) st)) = []
  \/ exists c pid,
      In c (suspended (snd st))
      /\ Some (awaits c) = initialized (fst st)
      /\ _process (fst st) = Some pid
      /\ stdin (snd (deliver JSON_parse coerce (Output stdout out) st))
         = [(pid, (command c ++ String LF "")%string)].
Proof.
  intros (I1 & I2 & I3 & I4 & I5 & I6 & I7) Hs Hout.
  destruct st as [this w]. cbn [fst snd] in *.
  rewrite Forall_forall in I2. specialize (I6 Hs).
  unfold deliver, on_output. rewrite Hs, Hout. cbn [negb andb].
  destruct (initialized (set_startedSuccessfully true this)) as [d|] eqn:Hi;
    cbn [snd]; unfold run_microtasks; cbn [suspended set_promises].
  - match goal with
    | |- context [run_calls ?calls ?st2] =>
        destruct (run_calls_written d calls st2 I3)
          as [H | (c & pid & H1 & H2 & H3 & H4)]
    end.
    + cbn [fst snd promises set_suspended set_promises]. intros c v Hc Hne.
      destruct (I2 c Hc) as (_ & _ & C).
      rewrite nth_error_settle_other by assumption. congruence.
    + left. rewrite H. cbn. exact I6.
    + right. exists c, pid. rewrite H4. cbn in *. rewrite I6.
      repeat split; auto. congruence.
  - left.
    match goal with
    | |- context [run_calls ?calls ?st2] =>
        destruct (run_calls_none_resolved calls st2) as (H & _)
    end.
    + cbn [fst snd promises set_suspended]. intros c v Hc.
      destruct (I2 c Hc) as (_ & _ & C). congruence.
    + rewrite H. cbn. exact I6.
Qed.

Lemma sends_app (a b : list Use) : sends (a ++ b) = (sends a + sends b)%nat.
Proof.
  unfold sends. now rewrite filter_app, length_app.
Qed.

Lemma sends_none (us : list Use) : existsb is_send us = false -> sends us = 0%nat.
Proof.
  unfold sends. induction us as [|u us IH]; [reflexivity|].
  cbn. destruct (is_send u); [discriminate | exact IH].
Qed.

Lemma uses_snoc (us : list Use) (u : Use) :
  uses JSON_parse coerce (us ++ [u])
  = use JSON_parse coerce (uses JSON_parse coerce us) u.
Proof.
  unfold uses. now rewrite fold_left_app.
Qed.

Lemma written_later (us : list Use) (u : Use) (written : list (nat * string)) :
  written_by_the_latest_call us written ->
  written_by_the_latest_call (us ++ [u]) written.
Proof.
  intros [H | (pre & command & mid & out & post & -> & H)]; [now left|].
  right. exists pre, command, mid, out, (post ++ [u])%list.
  split; [|exact H].
  rewrite <- List.app_assoc. cbn [app]. rewrite <- List.app_assoc. reflexivity.
Qed.

(** What every sequence of uses keeps. *)
Lemma history (us : list Use) :
  single_use (uses JSON_parse coerce us)
  /\ _startedSuccessfully (fst (uses JSON_parse coerce us))
     = existsb is_start us
  /\ (_startedSuccessfully (fst (uses JSON_parse coerce us)) = false ->
      before_start us (uses JSON_parse coerce us))
  /\ (_startedSuccessfully (fst (uses JSON_parse coerce us)) = true ->
      written_by_the_latest_call us (stdin (snd (uses JSON_parse coerce us)))).
Proof.
  induction us as [|u us IH] using rev_ind.
  - split; [|split; [reflexivity|split]].
    + unfold uses, single_use. cbn.
      repeat split; auto; try discriminate; constructor.
    + intros _. unfold before_start. cbn. repeat split; auto.
      intros c [].
    + discriminate.
  - destruct IH as (Hsu & Hst & Hbefore & Hafter).
    rewrite uses_snoc. set (st := uses JSON_parse coerce us) in *.
    rewrite existsb_app. cbn [existsb]. rewrite orb_false_r.
    destruct u as [cmd | e]; cbn [use is_start].
    + (* a call *)
      assert (Hsu' := sendCommand_single_use cmd st Hsu).
      destruct Hsu as (I1 & I2 & I3 & I4 & I5 & I6 & I7).
      rewrite Forall_forall in I2.
      destruct st as [this w]. cbn [fst snd] in *.
      split; [exact Hsu'|]. rewrite orb_false_r.
      unfold sendCommand, initialize in *.
      cbn [fst snd _startedSuccessfully set_process set_initialized
           stdin set_suspended set_promises] in *.
      split; [exact Hst|]. split.
      * intros Hs. destruct (Hbefore Hs) as (B1 & B2 & B3 & B4).
        unfold before_start. cbn [fst snd] in *.
        rewrite sends_app. cbn [sends filter is_send List.length].
        replace (sends us + 1)%nat with (S (sends us)) by lia.
        cbn. repeat split; auto.
        intros c Hc Hd. apply in_app_or in Hc.
        destruct Hc as [Hc | [<- | []]].
        -- exfalso. destruct (I2 c Hc) as (_ & _ & C).
           assert (awaits c < List.length (promises w))%nat
             by (apply nth_error_Some; congruence).
           inversion Hd as [Hd']. rewrite length_app in Hd'. cbn in Hd'. lia.
        -- exists us, []. auto.
      * intros Hs. apply written_later. now apply Hafter.
    + (* an event *)
      assert (Hsu' := deliver_single_use e st Hsu).
      destruct (handle_fields e st) as (F1 & F2 & F3 & F4).
      assert (Hrun : deliver JSON_parse coerce e st
                     = run_calls (suspended (snd (handle e st)))
                         (fst (handle e st),
                          set_suspended [] (snd (handle e st)))).
      { rewrite deliver_handle. unfold run_microtasks.
        now destruct (handle e st). }
      destruct (run_calls_fields (suspended (snd (handle e st)))
                  (fst (handle e st),
                   set_suspended [] (snd (handle e st))))
        as (G1 & G2 & G3 & G4).
      destruct (run_calls_process (suspended (snd (handle e st)))
                  (fst (handle e st),
                   set_suspended [] (snd (handle e st)))) as [P1 _].
      rewrite <- Hrun in G1, G2, G3, G4, P1.
      cbn [fst snd set_suspended suspended spawned] in G1, G2, G3, G4, P1.
      assert (Hstarted :
                _startedSuccessfully (fst (deliver JSON_parse coerce e st))
                = (_startedSuccessfully (fst st) || is_start (Happen e))%bool)
        by congruence.
      split; [exact Hsu'|]. rewrite Hstarted. split; [now rewrite Hst|].
      destruct (_startedSuccessfully (fst st)) eqn:Hs; cbn [orb].
      * (* started before *)
        split; [discriminate|]. intros _.
        destruct (deliver_quiet e st Hsu (or_introl Hs)) as [Q _].
        rewrite Q. apply written_later. now apply Hafter.
      * destruct (Hbefore eq_refl) as (B1 & B2 & B3 & B4).
        destruct (is_start (Happen e)) eqn:Hstart.
        -- (* the start *)
           split; [discriminate|]. intros _.
           destruct e as [[|] out|error]; try discriminate.
           cbn [is_start] in Hstart.
           destruct (deliver_start out st Hsu Hs Hstart)
             as [H | (c & pid & H1 & H2 & H3 & H4)]; [left; exact H|].
           destruct (B4 c H1 H2) as (pre & mid & Hus & Hmid).
           right. exists pre, (command c), mid, out, [].
           assert (Hno : existsb is_start (pre ++ Send (command c) :: mid)
                         = false) by (rewrite <- Hus; auto).
           rewrite existsb_app in Hno. apply orb_false_elim in Hno.
           destruct Hno as [Hpre Hmid'].
           rewrite H4, Hus, <- List.app_assoc. cbn [app].
           repeat split; auto.
           rewrite Hus, sends_app in B2.
           change (sends (Send (command c) :: mid)) with (S (sends mid)) in B2.
           rewrite (sends_none mid Hmid) in B2.
           replace (sends pre + 1)%nat with (S (sends pre)) in B2 by lia.
           congruence.
        -- (* another event *)
           split; [|discriminate]. intros _.
           destruct (deliver_quiet e st Hsu (or_intror Hstart)) as [Q1 Q2].
           unfold before_start.
           rewrite P1, G1, G2, F1, F2, (F4 B1), sends_app.
           change (sends [Happen e]) with 0%nat. rewrite Nat.add_0_r.
           split; [now apply Q2|]. split; [exact B2|]. split; [exact B3|].
           intros c Hc Hd.
           destruct (G4 c Hc) as [Hin | []].
           destruct (handle_effect e st Hsu) as (_ & E2 & _).
           rewrite E2 in Hin.
           destruct (B4 c Hin Hd) as (pre & mid & -> & Hmid).
           exists pre, (mid ++ [Happen e])%list.
           rewrite <- List.app_assoc. cbn [app]. split; [reflexivity|].
           rewrite existsb_app, Hmid. reflexivity.
Qed.

(** X24.  However the methods of a proxy are called and whatever its
    subprocesses send, in whatever order: a proxy writes one command at
    most in its life, and none before a subprocess has announced its
    start.  The command it writes is the one of the last call made
    before the first chunk that announces the start, and it goes to the
    subprocess of that call: no call made earlier, and none made later,
    is ever written. *)
Theorem a_proxy_writes_one_command (us : list Use) :
  (List.length (stdin (snd (uses JSON_parse coerce us))) <= 1)%nat
  /\ (_startedSuccessfully (fst (uses JSON_parse coerce us)) = true
      \/ stdin (snd (uses JSON_parse coerce us)) = [])
  /\ (stdin (snd (uses JSON_parse coerce us)) = []
      \/ exists pre command mid out post,
          us = (pre ++ Send command :: mid
                  ++ Happen (Output stdout out) :: post)%list
          /\ existsb is_start pre = false
          /\ existsb is_send mid = false
          /\ existsb is_start mid = false
          /\ startsWith "STARTED" out = true
          /\ stdin (snd (uses JSON_parse coerce us))
             = [(sends pre, (command ++ String LF "")%string)]).
Proof.
  destruct (history us) as (Hsu & _ & Hbefore & Hafter).
  destruct Hsu as (_ & _ & _ & _ & _ & I6 & I7).
  split; [exact I7|].
  destruct (_startedSuccessfully (fst (uses JSON_parse coerce us))) eqn:Hs.
  - split; [now left|]. exact (Hafter eq_refl).
  - split; [right; now apply I6|]. left. now apply I6.
Qed.

End Proxy.

(** A second [sendCommand] before the start: the start goes to the second
    call, whose command is written; the first call waits on. *)
Example second_call_takes_the_start :
  let st :=
    uses Json.parse no_coercion
         [Send "first"; Send "second";
          Happen (Output stdout ("STARTED" ++ String LF ""))] in
  stdin (snd st) = [(1%nat, ("second" ++ String LF "")%string)]
  /\ promises (snd st) = [Pending; Pending; Pending; Resolved None]
  /\ suspended (snd st)
     = [{| awaits := 1; result := 0; command := "first" |}].
Proof.
  repeat split; reflexivity.
Qed.

End SingleUse.
